(** * cheapqueryparser.lucparser: a shallow embedding of the Lucene query
    tokenizer and reassembler, and the properties of its specification.

    Python strings are modelled as [string]; a character is a code point
    below 256, and [str] and [re] behave as in Python 3.  The module
    works by regular-expression rewriting, so the
    first part of the development is a small backtracking matcher for the
    fragment of Python's [re] syntax that the module uses, together with
    [re.sub], [re.findall], [re.split], [re.match], [str.replace],
    [str.split] and [str.join].  The second part is the module itself,
    function by function; the third part holds the theorems. *)

From Stdlib Require Import String Ascii List Bool Arith Lia.
Import ListNotations.
Open Scope list_scope.
Open Scope string_scope.

(** ** Exceptions *)

Inductive exn : Type :=
| IndexError
| KeyError
| TypeError
| ReError.

Inductive res (A : Type) : Type :=
| Ok (a : A)
| Raise (e : exn).

Arguments Ok {A} a.
Arguments Raise {A} e.

Definition bind {A B : Type} (c : res A) (k : A -> res B) : res B :=
  match c with
  | Ok a => k a
  | Raise e => Raise e
  end.

Notation "x <- c ;; k" := (bind c (fun x => k))
  (at level 61, c at next level, right associativity).

Fixpoint mapM {A B : Type} (f : A -> res B) (l : list A) : res (list B) :=
  match l with
  | [] => Ok []
  | a :: l' => b <- f a ;; bs <- mapM f l' ;; Ok (b :: bs)
  end.

Fixpoint foldM {A B : Type} (f : A -> B -> res A) (l : list B) (a : A) : res A :=
  match l with
  | [] => Ok a
  | b :: l' => a' <- f a b ;; foldM f l' a'
  end.

(** ** Characters *)

Definition backslash : ascii := "092"%char.
Definition dquote : ascii := "034"%char.
Definition newline : ascii := "010"%char.

Definition str1 (c : ascii) : string := String c "".

(** The backslash and the double quote as one-character strings. *)
Definition BS : string := str1 backslash.
Definition DQ : string := str1 dquote.

(** [str.isspace] on one character, which is also what [\s] matches. *)
Definition isspace (c : ascii) : bool :=
  let n := nat_of_ascii c in
  (((9 <=? n) && (n <=? 13)) || ((28 <=? n) && (n <=? 32))
   || (n =? 133) || (n =? 160))%nat.

Fixpoint mem (c : ascii) (s : string) : bool :=
  match s with
  | "" => false
  | String d s' => Ascii.eqb c d || mem c s'
  end.

Fixpoint take (n : nat) (s : string) : string :=
  match n, s with
  | S j, String c s' => String c (take j s')
  | _, _ => ""
  end.

Fixpoint drop (n : nat) (s : string) : string :=
  match n, s with
  | S j, String _ s' => drop j s'
  | _, _ => s
  end.

Fixpoint rev_chars (s : string) (acc : list ascii) : list ascii :=
  match s with
  | "" => acc
  | String c s' => rev_chars s' (c :: acc)
  end.

(** ** Regular expressions

    The fragment of [re] used by the module: literals, the classes [.],
    [\s] and a bracket set, the greedy and the lazy star of a class, the
    negative look-behinds [(?<!lit)] and [(?<!^)], sequence and
    alternative. *)

Inductive cclass : Type :=
| Dot
| Space
| OneOf (cs : string).

Definition in_class (k : cclass) (c : ascii) : bool :=
  match k with
  | Dot => negb (Ascii.eqb c newline)
  | Space => isspace c
  | OneOf cs => mem c cs
  end.

Inductive regex : Type :=
| Lit (l : string)
| Cls (k : cclass)
| Star (k : cclass)
| StarLazy (k : cclass)
| NotBehind (l : string)
| NotBehindStart
| Seq (r1 r2 : regex)
| Alt (r1 r2 : regex).

(** A position of the matcher: the characters before it, nearest first,
    the rest of the subject, and the number of characters the current
    match attempt has consumed.  A continuation gives the length of the
    whole match, or [None] to make the matcher backtrack. *)
Definition cont : Type := list ascii -> string -> nat -> option nat.

Fixpoint lit_at (l : string) (k : cont) (b : list ascii) (s : string) (n : nat)
  : option nat :=
  match l with
  | "" => k b s n
  | String c l' =>
      match s with
      | String d s' => if Ascii.eqb c d then lit_at l' k (d :: b) s' (S n) else None
      | "" => None
      end
  end.

Fixpoint star_greedy (p : ascii -> bool) (k : cont) (b : list ascii) (s : string)
  (n : nat) : option nat :=
  match s with
  | String d s' =>
      if p d then
        match star_greedy p k (d :: b) s' (S n) with
        | Some m => Some m
        | None => k b s n
        end
      else k b s n
  | "" => k b s n
  end.

Fixpoint star_lazy (p : ascii -> bool) (k : cont) (b : list ascii) (s : string)
  (n : nat) : option nat :=
  match k b s n with
  | Some m => Some m
  | None =>
      match s with
      | String d s' => if p d then star_lazy p k (d :: b) s' (S n) else None
      | "" => None
      end
  end.

Fixpoint starts_with (l b : list ascii) : bool :=
  match l, b with
  | [], _ => true
  | c :: l', d :: b' => Ascii.eqb c d && starts_with l' b'
  | _ :: _, [] => false
  end.

Fixpoint rx (r : regex) (k : cont) : cont :=
  match r with
  | Lit l => lit_at l k
  | Cls c => fun b s n =>
      match s with
      | String d s' => if in_class c d then k (d :: b) s' (S n) else None
      | "" => None
      end
  | Star c => star_greedy (in_class c) k
  | StarLazy c => star_lazy (in_class c) k
  | NotBehind l => fun b s n =>
      if starts_with (rev_chars l []) b then None else k b s n
  | NotBehindStart => fun b s n =>
      match b with
      | [] => None
      | _ :: _ => k b s n
      end
  | Seq r1 r2 => rx r1 (rx r2 k)
  | Alt r1 r2 => fun b s n =>
      match rx r1 k b s n with
      | Some m => Some m
      | None => rx r2 k b s n
      end
  end.

(** The length of the match of [r] that starts right here, if any. *)
Definition match_at (r : regex) (b : list ascii) (s : string) : option nat :=
  rx r (fun _ _ n => Some n) b s 0.

(** The least length of a match. *)
Fixpoint min_len (r : regex) : nat :=
  match r with
  | Lit l => String.length l
  | Cls _ => 1
  | Star _ | StarLazy _ | NotBehind _ | NotBehindStart => 0
  | Seq r1 r2 => min_len r1 + min_len r2
  | Alt r1 r2 => Nat.min (min_len r1) (min_len r2)
  end.

(** The left-to-right scan shared by [re.sub], [re.findall] and
    [re.split]: the subject cut into the characters outside any match and
    the matches.  [skip] counts the characters of the current match that
    are still to be passed over.  No pattern of the module matches the
    empty string; an empty match is reported and the scan moves on by one
    character. *)
Inductive piece : Type :=
| Gap (c : ascii)
| Hit (m : string).

Fixpoint scan (r : regex) (b : list ascii) (skip : nat) (s : string) : list piece :=
  match skip with
  | S j =>
      match s with
      | String c s' => scan r (c :: b) j s'
      | "" => []
      end
  | 0 =>
      match match_at r b s with
      | Some (S j) =>
          Hit (take (S j) s) ::
          match s with
          | String c s' => scan r (c :: b) j s'
          | "" => []
          end
      | Some 0 =>
          Hit "" ::
          match s with
          | String c s' => Gap c :: scan r (c :: b) 0 s'
          | "" => []
          end
      | None =>
          match s with
          | String c s' => Gap c :: scan r (c :: b) 0 s'
          | "" => []
          end
      end
  end.

Definition finditer (r : regex) (s : string) : list piece := scan r [] 0 s.

Fixpoint hits (ps : list piece) : list string :=
  match ps with
  | [] => []
  | Gap _ :: ps' => hits ps'
  | Hit m :: ps' => m :: hits ps'
  end.

Definition re_findall (r : regex) (s : string) : list string :=
  hits (finditer r s).

(** [re.sub] with a callable replacement. *)
Fixpoint sub_pieces (f : string -> res string) (ps : list piece) : res string :=
  match ps with
  | [] => Ok ""
  | Gap c :: ps' => t <- sub_pieces f ps' ;; Ok (String c t)
  | Hit m :: ps' => x <- f m ;; t <- sub_pieces f ps' ;; Ok (x ++ t)
  end.

Definition re_sub_with (r : regex) (f : string -> res string) (s : string)
  : res string :=
  sub_pieces f (finditer r s).

Definition is_alnum (c : ascii) : bool :=
  let n := nat_of_ascii c in
  (((48 <=? n) && (n <=? 57)) || ((65 <=? n) && (n <=? 90))
   || ((97 <=? n) && (n <=? 122)))%nat.

(** The replacement template of [re.sub]: a doubled backslash stands for
    one backslash, a backslash before a character that is neither a
    letter nor a digit is kept together with that character.  Group
    references and letter escapes do not occur in the module; they are
    not modelled and count as errors here, as a backslash at the end does
    in Python too. *)
Fixpoint expand_template (t : string) : res string :=
  match t with
  | "" => Ok ""
  | String c t' =>
      if Ascii.eqb c backslash then
        match t' with
        | "" => Raise ReError
        | String d t'' =>
            if Ascii.eqb d backslash then
              x <- expand_template t'' ;; Ok (String backslash x)
            else if is_alnum d then Raise ReError
            else x <- expand_template t'' ;; Ok (String backslash (String d x))
        end
      else x <- expand_template t' ;; Ok (String c x)
  end.

(** [re.sub] with a template; the template is compiled before the scan. *)
Definition re_sub (r : regex) (repl : string) (s : string) : res string :=
  t <- expand_template repl ;; re_sub_with r (fun _ => Ok t) s.

Fixpoint split_pieces (ps : list piece) : list string :=
  match ps with
  | [] => [""]
  | Gap c :: ps' =>
      match split_pieces ps' with
      | x :: xs => String c x :: xs
      | [] => [str1 c]
      end
  | Hit _ :: ps' => "" :: split_pieces ps'
  end.

Definition re_split (r : regex) (s : string) : list string :=
  split_pieces (finditer r s).

(** [re.match]: a match that starts at the beginning of the subject. *)
Definition re_match (r : regex) (s : string) : bool :=
  match match_at r [] s with
  | Some _ => true
  | None => false
  end.

(** ** String methods *)

Fixpoint plain_pieces (new : string) (ps : list piece) : string :=
  match ps with
  | [] => ""
  | Gap c :: ps' => String c (plain_pieces new ps')
  | Hit _ :: ps' => new ++ plain_pieces new ps'
  end.

(** [s.replace(old, new)]: every occurrence of [old], found from the left
    and not overlapping, becomes [new]. *)
Definition str_replace (old new s : string) : string :=
  plain_pieces new (finditer (Lit old) s).

(** [s.split()]: the maximal runs of characters that are not whitespace. *)
Fixpoint str_split (s : string) : list string :=
  match s with
  | "" => []
  | String c s' =>
      if isspace c then str_split s'
      else
        match s' with
        | "" => [str1 c]
        | String d _ =>
            if isspace d then str1 c :: str_split s'
            else
              match str_split s' with
              | w :: ws => String c w :: ws
              | [] => [str1 c]
              end
        end
  end.

Fixpoint str_join (sep : string) (l : list string) : string :=
  match l with
  | [] => ""
  | [x] => x
  | x :: l' => x ++ sep ++ str_join sep l'
  end.

(** [l[i]] and [l[i] = v]; both raise [IndexError] out of range. *)
Definition list_get {A : Type} (l : list A) (i : nat) : res A :=
  match nth_error l i with
  | Some a => Ok a
  | None => Raise IndexError
  end.

Fixpoint list_set {A : Type} (l : list A) (i : nat) (v : A) : res (list A) :=
  match l, i with
  | [], _ => Raise IndexError
  | _ :: l', 0 => Ok (v :: l')
  | a :: l', S j => l'' <- list_set l' j v ;; Ok (a :: l'')
  end.

Definition enumerate {A : Type} (l : list A) : list (nat * A) :=
  combine (seq 0 (length l)) l.

(** [d[k]] on a dictionary with string keys; raises [KeyError]. *)
Fixpoint dict_item (d : list (string * string)) (k : string) : res string :=
  match d with
  | [] => Raise KeyError
  | (k', v) :: d' => if String.eqb k k' then Ok v else dict_item d' k
  end.

(** The truth value of a string. *)
Definition truthy (s : string) : bool :=
  match s with
  | "" => false
  | String _ _ => true
  end.

(** ** The module *)

(** *** Tokens

    [deparse] returns a list whose items are strings (operators and
    parentheses) or dictionaries with the keys [field] and [term]. *)

Record termdict : Type := mkTerm { field : option string; term : string }.

Inductive token : Type :=
| Literal (text : string)
| Term (d : termdict).

(** *** The substitution tables *)

Inductive pairkey : Type := metaesc | quot | space | colon | pa | rens.

(** The first components are patterns: two backslashes, a backslash and
    a double quote, the class \s, the colon, and the two parentheses. *)
Definition _replacepairs (k : pairkey) : regex * string :=
  match k with
  | metaesc => (Lit (BS ++ BS), "_&_METAESC_&_")
  | quot => (Lit (BS ++ DQ), "_&_QUOT_&_")
  | space => (Cls Space, "_&_SPACE_&_")
  | colon => (Lit ":", "_&_COLON_&_")
  | pa => (Lit "(", "_&_PA_&_")
  | rens => (Lit ")", "_&_RENS_&_")
  end.

(** The second components are replacement templates: the one of
    [metaesc] is two backslashes, the one of [quot] a backslash and a
    double quote. *)
Definition _revpairs (k : pairkey) : regex * string :=
  match k with
  | metaesc => (Lit "_&_METAESC_&_", BS ++ BS)
  | quot => (Lit "_&_QUOT_&_", BS ++ DQ)
  | space => (Lit "_&_SPACE_&_", " ")
  | colon => (Lit "_&_COLON_&_", ":")
  | pa => (Lit "_&_PA_&_", "(")
  | rens => (Lit "_&_RENS_&_", ")")
  end.

(** [_revpairs.values()], in the order of the table. *)
Definition _revpairs_values : list (regex * string) :=
  map _revpairs [metaesc; quot; space; colon; pa; rens].

(** *** The escaper *)

Definition _replace_metaescape (qstring : string) : res string :=
  let '(fro, to) := _replacepairs metaesc in
  re_sub fro to qstring.

Definition _replace_esc_quotes (qstring : string) : res string :=
  let '(fro, to) := _replacepairs quot in
  re_sub fro to qstring.

Definition _replace_in_range (qstring : string) (rangepats : list regex)
  (repair : regex * string) : res string :=
  foldM
    (fun q pat =>
       let matches := re_findall pat q in
       replacements <- mapM (re_sub (fst repair) (snd repair)) matches ;;
       Ok (fold_left (fun q' mr => str_replace (fst mr) (snd mr) q')
             (combine matches replacements) q))
    rangepats qstring.

(** The patterns (?<!\\)\{.*?(?<!\\)\} and its like: a delimiter that no
    backslash precedes, anything but a newline as short as possible, and
    the closing delimiter that no backslash precedes.  The pattern of a
    quoted string has no look-behind. *)
Definition range_pat (opening closing : string) : regex :=
  Seq (NotBehind BS)
    (Seq (Lit opening) (Seq (StarLazy Dot) (Seq (NotBehind BS) (Lit closing)))).

Definition rangeex : regex := range_pat "{" "}".
Definition rangeinc : regex := range_pat "[" "]".
Definition regex_pat : regex := range_pat "/" "/".
Definition quoted : regex := Seq (Lit DQ) (Seq (StarLazy Dot) (Lit DQ)).

Definition _repspaces_in_ranges (qstring : string) : res string :=
  let ranges := [rangeex; rangeinc; regex_pat; quoted] in
  let re_pairs := [_replacepairs space; _replacepairs colon;
                   _replacepairs pa; _replacepairs rens] in
  foldM (fun q repair => _replace_in_range q ranges repair) re_pairs qstring.

(** *** The tokenizer *)

Definition reparens : list (string * string) := [("(", " ( "); (")", " ) ")].

Definition _addparenswhitespace (qstring : string) : res string :=
  re_sub_with (Cls (OneOf "()")) (fun x => dict_item reparens x) qstring.

(** The pattern is the raw string \s*(?<!\\\\):\s* and so its look-behind
    is for two backslashes: whitespace, a colon that the two characters
    backslash backslash do not precede, whitespace. *)
Definition stripspaces_pat : regex :=
  Seq (Star Space) (Seq (NotBehind (BS ++ BS)) (Seq (Lit ":") (Star Space))).

Definition _stripspaces (qstring : string) : res string :=
  re_sub stripspaces_pat ":" qstring.

(** The pattern :\(.*?(?<!\\)\) of a field group; the second pair replaces
    the pattern (?<!^): that is, every colon but one at the start. *)
Definition subquery_pat : regex :=
  Seq (Lit ":(") (Seq (StarLazy Dot) (Seq (NotBehind BS) (Lit ")"))).

Definition _repspaces_in_subqueries (qstring : string) : res string :=
  let re_pairs := [_replacepairs space;
                   (Seq NotBehindStart (Lit ":"), "_&_COLON_&_")] in
  let rangepats := [subquery_pat] in
  foldM (fun q repair => _replace_in_range q rangepats repair) re_pairs qstring.

(** *** The classifier *)

(** The pattern AND|OR|NOT|!|&&|\|\||\(|\) that [re.match] tries at the
    start of a token. *)
Definition nonterms : regex :=
  Alt (Lit "AND") (Alt (Lit "OR") (Alt (Lit "NOT") (Alt (Lit "!")
    (Alt (Lit "&&") (Alt (Lit "||") (Alt (Lit "(") (Lit ")"))))))).

(** The pattern (?<!\\): of [re.split]: a colon that no backslash
    precedes. *)
Definition colon_pat : regex := Seq (NotBehind BS) (Lit ":").

(** The list is updated in place, by index; its items start as the
    strings of the split query. *)
Definition _termdicts (qsplitted : list string) : res (list token) :=
  let termidx :=
    map fst (filter (fun it => negb (re_match nonterms (snd it)))
               (enumerate qsplitted)) in
  terms <- mapM (list_get qsplitted) termidx ;;
  foldM
    (fun q it =>
       let '(i, t) := it in
       let parts := re_split colon_pat t in
       if (List.length parts =? 1)%nat then
         p0 <- list_get parts 0 ;;
         list_set q i (Term (mkTerm None p0))
       else
         p0 <- list_get parts 0 ;;
         p1 <- list_get parts 1 ;;
         list_set q i (Term (mkTerm (Some p0) p1)))
    (combine termidx terms) (map Literal qsplitted).

Definition _parse (qstring : string) : res (list token) :=
  q1 <- _replace_metaescape qstring ;;
  q2 <- _replace_esc_quotes q1 ;;
  q3 <- _repspaces_in_ranges q2 ;;
  q4 <- _addparenswhitespace q3 ;;
  q5 <- _stripspaces q4 ;;
  q6 <- _repspaces_in_subqueries q5 ;;
  _termdicts (str_split q6).

(** *** The unescaper *)

(** The inner loop of [_unreplace] on one value. *)
Definition unreplace_value (v : string) : res string :=
  foldM (fun x p => re_sub (fst p) (snd p) x) _revpairs_values v.

(** The two keys of a dictionary, [field] first; a value that is [None]
    or empty is skipped. *)
Definition unreplace_dict (d : termdict) : res termdict :=
  f <- match field d with
       | Some s => if truthy s then x <- unreplace_value s ;; Ok (Some x)
                   else Ok (Some s)
       | None => Ok None
       end ;;
  t <- (if truthy (term d) then unreplace_value (term d) else Ok (term d)) ;;
  Ok (mkTerm f t).

Definition _unreplace (termdicts : list token) : res (list token) :=
  mapM (fun t => match t with
                 | Literal _ => Ok t
                 | Term d => d' <- unreplace_dict d ;; Ok (Term d')
                 end) termdicts.

Definition deparse (qstring : string) : res (list token) :=
  ts <- _parse qstring ;; _unreplace ts.

(** *** The assembler *)

Definition assemble_item (t : token) : string :=
  match t with
  | Term d =>
      let tstring := match field d with
                     | Some f => if truthy f then f ++ " : " else ""
                     | None => ""
                     end in
      tstring ++ term d
  | Literal s => s
  end.

Definition assemble (termdicts : list token) : string :=
  str_join " " (map assemble_item termdicts).

Definition example_query : string :=
  "author: Meier tags:(water OR fire) " ++ DQ ++ "open access" ++ DQ.

(** The patterns that the module scans for. *)
Definition scanned_patterns : list regex :=
  map (fun k => fst (_replacepairs k)) [metaesc; quot; space; colon; pa; rens]
  ++ map fst _revpairs_values
  ++ [rangeex; rangeinc; regex_pat; quoted; Cls (OneOf "()"); stripspaces_pat;
      subquery_pat; Seq NotBehindStart (Lit ":"); colon_pat].

(** *** Views of the pipeline used by the statements *)

(** The escaper and the tokenizer: [_parse] up to [qstring.split()]. *)
Definition raw_tokens (qstring : string) : res (list string) :=
  q1 <- _replace_metaescape qstring ;;
  q2 <- _replace_esc_quotes q1 ;;
  q3 <- _repspaces_in_ranges q2 ;;
  q4 <- _addparenswhitespace q3 ;;
  q5 <- _stripspaces q4 ;;
  q6 <- _repspaces_in_subqueries q5 ;;
  Ok (str_split q6).

(** What the loop of [_termdicts] leaves at the place of one raw token. *)
Definition classify (t : string) : token :=
  if re_match nonterms t then Literal t
  else
    match re_split colon_pat t with
    | [] => Literal t
    | [p0] => Term (mkTerm None p0)
    | p0 :: p1 :: _ => Term (mkTerm (Some p0) p1)
    end.

(** The eight operator and structural strings of the specification. *)
Definition operators : list string :=
  ["AND"; "OR"; "NOT"; "!"; "&&"; "||"; "("; ")"].

Definition is_operator (t : string) : bool :=
  existsb (String.eqb t) operators.

(** [x in s] for strings. *)
Fixpoint contains (x s : string) : bool :=
  prefix x s ||
  match s with
  | "" => false
  | String _ s' => contains x s'
  end.

(** The sentinel markers: the second components of [_replacepairs]. *)
Definition markers : list string :=
  map (fun k => snd (_replacepairs k)) [metaesc; quot; space; colon; pa; rens].

Definition marker_free (s : string) : bool :=
  forallb (fun m => negb (contains m s)) markers.

Definition token_marker_free (t : token) : bool :=
  match t with
  | Literal s => marker_free s
  | Term d =>
      match field d with
      | Some f => marker_free f
      | None => true
      end && marker_free (term d)
  end.

(** A term whose field is not the empty string. *)
Definition field_ok (t : token) : Prop :=
  match t with
  | Literal _ => True
  | Term d => field d <> Some ""
  end.

(** Words that need no protection: not empty, and free of whitespace,
    of the characters the pipeline rewrites and of the underscore that
    starts every marker. *)
Definition special_chars : string :=
  ":()" ++ BS ++ DQ ++ "{}[]/_".

Definition plain_char (c : ascii) : bool :=
  negb (isspace c) && negb (mem c special_chars).

Fixpoint all_chars (p : ascii -> bool) (s : string) : bool :=
  match s with
  | "" => true
  | String c s' => p c && all_chars p s'
  end.

Definition plain_word (w : string) : bool :=
  truthy w && all_chars plain_char w.

Definition is_paren (s : string) : bool :=
  String.eqb s "(" || String.eqb s ")".

(** A plain token: a parenthesis, a word that starts with an operator, a
    global word, or a field and a word. *)
Definition plain_token (t : token) : bool :=
  match t with
  | Literal s => is_paren s || (plain_word s && re_match nonterms s)
  | Term d =>
      match field d with
      | Some f => plain_word f && negb (re_match nonterms f)
                  && plain_word (term d)
      | None => plain_word (term d) && negb (re_match nonterms (term d))
      end
  end.

(** The five shapes of a plain token. *)
Inductive plain_shape : token -> Prop :=
| shape_open : plain_shape (Literal "(")
| shape_close : plain_shape (Literal ")")
| shape_operator (w : string) :
    plain_word w = true -> re_match nonterms w = true -> plain_shape (Literal w)
| shape_global (w : string) :
    plain_word w = true -> re_match nonterms w = false ->
    plain_shape (Term (mkTerm None w))
| shape_field (f w : string) :
    plain_word f = true -> re_match nonterms f = false -> plain_word w = true ->
    plain_shape (Term (mkTerm (Some f) w)).

(** The raw token that the tokenizer makes of an assembled plain
    token. *)
Definition raw_of (t : token) : string :=
  match t with
  | Literal s => s
  | Term d =>
      match field d with
      | Some f => f ++ ":" ++ term d
      | None => term d
      end
  end.

(** The characters of an assembled sequence of plain tokens. *)
Definition assembled_char (c : ascii) : bool :=
  plain_char c || mem c " :()".

(** What [_addparenswhitespace] returns: a blank on both sides of every
    parenthesis. *)
Fixpoint pad_parens (s : string) : string :=
  match s with
  | "" => ""
  | String c s' =>
      if mem c "()" then String " " (String c (String " " (pad_parens s')))
      else String c (pad_parens s')
  end.

(** No colon follows the blanks at the start of the string. *)
Fixpoint blank_run_ok (s : string) : bool :=
  match s with
  | "" => true
  | String c s' => if isspace c then blank_run_ok s' else negb (Ascii.eqb ":" c)
  end.

(** ** The argument of [assemble] as a mutable object

    [assemble] receives a reference to a list whose items are strings or
    references to dictionaries.  The store holds the list and the
    dictionaries by address, so that two items may be the same
    dictionary; a computation takes a store and returns a result and a
    store, or raises. *)

Inductive value : Type :=
| VStr (s : string)
| VDict (addr : nat).

Record store : Type := mkStore { items : list value; dicts : list termdict }.

Definition St (A : Type) : Type := store -> res (A * store).

Definition ret {A : Type} (a : A) : St A := fun st => Ok (a, st).

Definition bindS {A B : Type} (c : St A) (k : A -> St B) : St B :=
  fun st =>
    match c st with
    | Ok (a, st') => k a st'
    | Raise e => Raise e
    end.

Notation "x <~ c ;; k" := (bindS c (fun x => k))
  (at level 61, c at next level, right associativity).

Definition lift {A : Type} (c : res A) : St A :=
  fun st =>
    match c with
    | Ok a => Ok (a, st)
    | Raise e => Raise e
    end.

Definition list_len : St nat := fun st => Ok (List.length (items st), st).

Definition get_item (i : nat) : St value :=
  fun st => x <- list_get (items st) i ;; Ok (x, st).

Definition dict_load (a : nat) : St termdict :=
  fun st => d <- list_get (dicts st) a ;; Ok (d, st).

Definition dict_store (a : nat) (d : termdict) : St unit :=
  fun st => ds <- list_set (dicts st) a d ;; Ok (tt, mkStore (items st) ds).

(** [for i in range(start, start + n)], threading an accumulator. *)
Fixpoint for_range {A : Type} (n start : nat) (body : nat -> A -> St A) (a : A)
  : St A :=
  match n with
  | 0 => ret a
  | S n' => a' <~ body start a ;; for_range n' (S start) body a'
  end.

Definition assemble_body (i : nat) (querylist : list string) : St (list string) :=
  termdict <~ get_item i ;;
  match termdict with
  | VDict a =>
      d <~ dict_load a ;;
      let tstring := match field d with
                     | Some f => if truthy f then f ++ " : " else ""
                     | None => ""
                     end in
      ret (querylist ++ [(tstring ++ term d)%string])%list
  | VStr s => ret (querylist ++ [s])%list
  end.

Definition assemble_st : St string :=
  n <~ list_len ;;
  querylist <~ for_range n 0 assemble_body [] ;;
  ret (str_join " " querylist).

(** [_unreplace] on the same store: it writes the dictionaries. *)
Inductive key : Type := KField | KTerm.

Definition dict_get (d : termdict) (k : key) : option string :=
  match k with
  | KField => field d
  | KTerm => Some (term d)
  end.

Definition dict_put (d : termdict) (k : key) (v : string) : termdict :=
  match k with
  | KField => mkTerm (Some v) (term d)
  | KTerm => mkTerm (field d) v
  end.

(** [for x in l], for its effects. *)
Fixpoint for_each {A : Type} (l : list A) (body : A -> St unit) : St unit :=
  match l with
  | [] => ret tt
  | x :: l' => _ <~ body x ;; for_each l' body
  end.

Definition unreplace_key (a : nat) (k : key) : St unit :=
  d <~ dict_load a ;;
  match dict_get d k with
  | Some v =>
      if truthy v then
        for_each _revpairs_values
          (fun p =>
             d' <~ dict_load a ;;
             match dict_get d' k with
             | Some v' =>
                 x <~ lift (re_sub (fst p) (snd p) v') ;;
                 dict_store a (dict_put d' k x)
             | None => lift (Raise TypeError)
             end)
      else ret tt
  | None => ret tt
  end.

Definition _unreplace_st : St unit :=
  n <~ list_len ;;
  for_range n 0
    (fun i _ =>
       termdict <~ get_item i ;;
       match termdict with
       | VDict a => _ <~ unreplace_key a KField ;; unreplace_key a KTerm
       | VStr _ => ret tt
       end) tt.

(** The tokens a store denotes, when every reference resolves. *)
Definition resolve_value (ds : list termdict) (v : value) : option token :=
  match v with
  | VStr s => Some (Literal s)
  | VDict a => option_map Term (nth_error ds a)
  end.

Fixpoint resolve_all (ds : list termdict) (vs : list value) : option (list token) :=
  match vs with
  | [] => Some []
  | v :: vs' =>
      match resolve_value ds v, resolve_all ds vs' with
      | Some t, Some ts => Some (t :: ts)
      | _, _ => None
      end
  end.

Definition resolve (st : store) : option (list token) :=
  resolve_all (dicts st) (items st).

(** Every reference of the list is the address of a dictionary. *)
Definition refs_ok (st : store) : bool :=
  forallb (fun v => match v with
                    | VStr _ => true
                    | VDict a => (a <? List.length (dicts st))%nat
                    end) (items st).

Definition example_store : store :=
  mkStore [VDict 0; VStr "OR"; VDict 0; VDict 1]
    [mkTerm (Some "a") "x_&_SPACE_&_y"; mkTerm None "z"].

(** *** The unescaper with its templates expanded

    [re.sub] expands a template once; on the templates of [_revpairs]
    the six substitutions are plain replacements of a marker. *)
Definition rev_table : list (string * string) :=
  [("_&_METAESC_&_", BS); ("_&_QUOT_&_", BS ++ DQ); ("_&_SPACE_&_", " ");
   ("_&_COLON_&_", ":"); ("_&_PA_&_", "("); ("_&_RENS_&_", ")")].

Definition replace_steps (ps : list (string * string)) (v : string) : string :=
  fold_left (fun x p => str_replace (fst p) (snd p) x) ps v.

Definition unescape (v : string) : string := replace_steps rev_table v.

Definition unescape_if (v : string) : string :=
  if truthy v then unescape v else v.

Definition unescape_token (t : token) : token :=
  match t with
  | Literal _ => t
  | Term d => Term (mkTerm (option_map unescape_if (field d)) (unescape_if (term d)))
  end.

(** A table whose replacements cannot build or complete a marker: no
    replacement holds the first character of a marker, and the first
    character of a replacement is in no marker. *)
Definition head (s : string) : option ascii :=
  match s with
  | "" => None
  | String c _ => Some c
  end.

Definition apart (y t : string) : bool :=
  match head y, head t with
  | Some y0, Some t0 => negb (mem y0 t) && negb (mem t0 y)
  | _, _ => false
  end.

Definition good_table (ps : list (string * string)) : bool :=
  forallb (fun q => forallb (fun p => apart (fst q) (snd p)) ps) ps.

(** ** Notions used by the further properties *)

Fixpoint count_char (c : ascii) (s : string) : nat :=
  match s with
  | "" => 0
  | String d s' => (if Ascii.eqb c d then 1 else 0) + count_char c s'
  end.

Fixpoint filter_chars (p : ascii -> bool) (s : string) : string :=
  match s with
  | "" => ""
  | String c s' => if p c then String c (filter_chars p s') else filter_chars p s'
  end.

(** The string without its whitespace. *)
Definition solid (s : string) : string :=
  filter_chars (fun c => negb (isspace c)) s.

(** Every colon of the string follows a backslash; [esc] tells whether a
    backslash stands before the string. *)
Fixpoint colons_escaped (esc : bool) (s : string) : bool :=
  match s with
  | "" => true
  | String c s' =>
      (negb (Ascii.eqb c ":") || esc) && colons_escaped (Ascii.eqb c backslash) s'
  end.

Fixpoint last_is_backslash (esc : bool) (s : string) : bool :=
  match s with
  | "" => esc
  | String c s' => last_is_backslash (Ascii.eqb c backslash) s'
  end.

(** The token starts with one of the eight operator strings. *)
Definition starts_with_operator (t : string) : bool :=
  existsb (fun p => prefix p t) operators.

(** A word without a colon: a literal when it starts with an operator,
    a global term otherwise. *)
Definition classify_word (w : string) : token :=
  if starts_with_operator w then Literal w else Term (mkTerm None w).

(** A query without any of the characters that the pipeline rewrites;
    whitespace is allowed. *)
Definition simple_char (c : ascii) : bool := negb (mem c special_chars).

(** What holds of every token of a result of [deparse]: a literal is
    not empty, has no whitespace and starts with an operator; a global
    term is not empty. *)
Definition sound_token (t : token) : Prop :=
  match t with
  | Literal s =>
      truthy s = true /\ all_chars (fun c => negb (isspace c)) s = true /\
      starts_with_operator s = true
  | Term d => field d = None -> truthy (term d) = true
  end.

(** *** The effect of [_unreplace] on the store *)

(** What [_unreplace] makes of the value of one key, and of a whole
    dictionary. *)
Definition unescape_key (d : termdict) (k : key) : termdict :=
  match dict_get d k with
  | Some v => dict_put d k (unescape_if v)
  | None => d
  end.

Definition unescape_dict (d : termdict) : termdict :=
  mkTerm (option_map unescape_if (field d)) (unescape_if (term d)).

(** The list [l] with [v] at index [i]: what [list_set] returns in
    range. *)
Fixpoint list_update {A : Type} (l : list A) (i : nat) (v : A) : list A :=
  match l, i with
  | [], _ => []
  | _ :: l', 0 => v :: l'
  | a :: l', S j => a :: list_update l' j v
  end.

(** The list refers to the dictionary at address [a]. *)
Definition refers (vs : list value) (a : nat) : bool :=
  existsb (fun v => match v with
                    | VDict a' => Nat.eqb a a'
                    | VStr _ => false
                    end) vs.

(** The dictionaries after one item of the list has been processed. *)
Definition unreplace_step (ds : list termdict) (v : value) : list termdict :=
  match v with
  | VDict a =>
      match nth_error ds a with
      | Some d => list_update ds a (unescape_dict d)
      | None => ds
      end
  | VStr _ => ds
  end.

(** *** Quoted strings *)

(** The string made of [f c] for every character [c] of [s]. *)
Fixpoint map_chars (f : ascii -> string) (s : string) : string :=
  match s with
  | "" => ""
  | String c s' => f c ++ map_chars f s'
  end.

(** The string with a blank in the place of each whitespace character. *)
Definition blanked (s : string) : string :=
  map_chars (fun c => if isspace c then " " else str1 c) s.

(** What the escaper makes of a character inside a quoted string. *)
Definition protect (c : ascii) : string :=
  if isspace c then "_&_SPACE_&_"
  else if Ascii.eqb ":" c then "_&_COLON_&_"
  else if Ascii.eqb "(" c then "_&_PA_&_"
  else if Ascii.eqb ")" c then "_&_RENS_&_"
  else str1 c.

(** A character that ends no quoted string and starts no range, and that
    the dot of a pattern matches. *)
Definition inert (c : ascii) : bool :=
  negb (Ascii.eqb c newline) && negb (mem c (DQ ++ "{[/")).

(** The characters that a marker could be mistaken with: the ampersand
    and the first letters of the names of the markers. *)
Definition marker_heads : string := "&MQSCPR".

(** A character that may stand in a quoted string without harm: any
    whitespace but the newline, the colon, the parentheses, and any other
    character but the double quote, the backslash, the opening delimiters
    of a range, the underscore and the characters above. *)
Definition quiet_char (c : ascii) : bool :=
  negb (Ascii.eqb c newline) &&
  negb (mem c (DQ ++ BS ++ "{[/_" ++ marker_heads)).

(** How far the pattern [x] matches at the start of [a]: not at all,
    wholly inside [a], or up to the end of [a], where it asks for one
    more character. *)
Fixpoint pm (x a : string) : option (option ascii) :=
  match x with
  | "" => Some None
  | String c x' =>
      match a with
      | "" => Some (Some c)
      | String d a' => if Ascii.eqb c d then pm x' a' else None
      end
  end.

Definition head_ok (bad s : string) : bool :=
  match s with
  | "" => true
  | String c _ => negb (mem c bad)
  end.

(** No occurrence of [x] starts inside [a], whatever follows [a], as long
    as what follows does not start with a character of [bad]. *)
Fixpoint skip_ok (x a bad : string) : bool :=
  match a with
  | "" => true
  | String _ a' =>
      match pm x a with
      | None => true
      | Some None => false
      | Some (Some h) => mem h bad
      end && skip_ok x a' bad
  end.

(** A piece of a coded string, for the replacement of [x]: it is [x], or
    no occurrence of [x] starts in it; and it starts with a character
    that is not in [bad]. *)
Definition atom_ok (x bad a : string) : bool :=
  (String.eqb a x || skip_ok x a bad) && truthy a && head_ok bad a.

(** The replacements of a table, one after the other, on one piece; and
    the condition that the piece is fit for each of them in its turn. *)
Fixpoint atom_steps (ps : list (string * string)) (a : string) : string :=
  match ps with
  | [] => a
  | (x, t) :: ps' => atom_steps ps' (if String.eqb a x then t else a)
  end.

Fixpoint ok_steps (ps : list (string * string)) (bad a : string) : bool :=
  match ps with
  | [] => true
  | (x, t) :: ps' =>
      atom_ok x bad a && ok_steps ps' bad (if String.eqb a x then t else a)
  end.

(** *** Field groups *)

(** A character that may stand in a field group: no newline, and none of
    the colon, the closing parenthesis and the backslash. *)
Definition group_char (c : ascii) : bool :=
  negb (Ascii.eqb c newline) && negb (mem c (":)" ++ BS)).

(** The string with the marker of a space in the place of each
    whitespace character. *)
Definition mark_spaces (s : string) : string :=
  map_chars (fun c => if isspace c then "_&_SPACE_&_" else str1 c) s.

(** *** Tokens that survive the round trip *)

(** The four kinds of protected span: the two ranges, the regular
    expression and the quoted string, with the characters that open and
    close them. *)
Inductive kind : Type := Brace | Bracket | Slash | Quote.

Definition opener (k : kind) : ascii :=
  match k with
  | Brace => "{"%char
  | Bracket => "["%char
  | Slash => "/"%char
  | Quote => dquote
  end.

Definition closer (k : kind) : ascii :=
  match k with
  | Brace => "}"%char
  | Bracket => "]"%char
  | Slash => "/"%char
  | Quote => dquote
  end.

(** The spans that open and close with the same character. *)
Definition symmetric (k : kind) : bool :=
  match k with
  | Slash | Quote => true
  | Brace | Bracket => false
  end.

Definition openers : string := DQ ++ "{[/".

Definition kind_of (c : ascii) : option kind :=
  if Ascii.eqb c "{" then Some Brace
  else if Ascii.eqb c "[" then Some Bracket
  else if Ascii.eqb c "/" then Some Slash
  else if Ascii.eqb c dquote then Some Quote
  else None.

(** The pattern that [_repspaces_in_ranges] compiles for a kind. *)
Definition pat (k : kind) : regex :=
  match k with
  | Brace => rangeex
  | Bracket => rangeinc
  | Slash => regex_pat
  | Quote => quoted
  end.

(** The text of a span: the opening character, the body, the closing
    character. *)
Definition span_text (k : kind) (b : string) : string :=
  String (opener k) (b ++ str1 (closer k)).

(** The string cut at its first opening character, and at the first
    occurrence of a character. *)
Fixpoint cut_at_opener (v : string) : option (string * kind * string) :=
  match v with
  | "" => None
  | String c v' =>
      match kind_of c with
      | Some k => Some ("", k, v')
      | None =>
          match cut_at_opener v' with
          | Some (p, k, r) => Some (String c p, k, r)
          | None => None
          end
      end
  end.

Fixpoint cut_at (c : ascii) (s : string) : option (string * string) :=
  match s with
  | "" => None
  | String d s' =>
      if Ascii.eqb c d then Some ("", s')
      else match cut_at c s' with
           | Some (a, r) => Some (String d a, r)
           | None => None
           end
  end.

(** A value seen as a span with the text before it and the text after
    it: the span starts at the first opening character and ends at the
    next closing character of its kind. *)
Definition span_parts (v : string) : option (string * kind * string * string) :=
  match cut_at_opener v with
  | Some (pre, k, r) =>
      match cut_at (closer k) r with
      | Some (b, post) => Some (pre, k, b, post)
      | None => None
      end
  | None => None
  end.

Fixpoint last_is (c : ascii) (s : string) : bool :=
  match s with
  | "" => false
  | String d s' =>
      match s' with
      | "" => Ascii.eqb c d
      | String _ _ => last_is c s'
      end
  end.

(** No backslash stands before a backslash or a double quote; [esc]
    tells whether a backslash stands before the string. *)
Fixpoint calm (esc : bool) (s : string) : bool :=
  match s with
  | "" => true
  | String c s' =>
      negb (esc && (Ascii.eqb c backslash || Ascii.eqb c dquote)) &&
      calm (Ascii.eqb c backslash) s'
  end.

(** The names inside the six markers, and the characters that the
    escaper replaces with a marker inside a span. *)
Definition names : list string :=
  ["METAESC"; "QUOT"; "SPACE"; "COLON"; "PA"; "RENS"].

Definition escaped (c : ascii) : bool := isspace c || mem c ":()".

Fixpoint strip_prefix (p s : string) : option string :=
  match p with
  | "" => Some s
  | String c p' =>
      match s with
      | String d s' => if Ascii.eqb c d then strip_prefix p' s' else None
      | "" => None
      end
  end.

(** The string starts with the name of a marker that an escaped
    character follows. *)
Definition after_name (s : string) : bool :=
  existsb (fun n => match strip_prefix n s with
                    | Some (String d _) => escaped d
                    | _ => false
                    end) names.

(** No name of a marker stands between two escaped characters. *)
Fixpoint sandwich_free (s : string) : bool :=
  match s with
  | "" => true
  | String c s' => negb (escaped c && after_name s') && sandwich_free s'
  end.

Definition starts_in (q s : string) : bool :=
  match s with
  | "" => false
  | String c _ => mem c q
  end.

(** The body of a span of kind [k]: its whitespace is blanks; it holds
    no opening character of any span, no closing character of its own
    kind and no ampersand; no backslash stands before a backslash or at
    its end; no name of a marker stands between two escaped characters;
    and the body of a span that opens and closes with the same character
    does not start with a blank, a tilde or a caret. *)
Definition body_char (k : kind) (c : ascii) : bool :=
  (negb (isspace c) || Ascii.eqb c " ") && negb (mem c (openers ++ "&")) &&
  negb (Ascii.eqb c (closer k)).

Definition body_ok (k : kind) (b : string) : bool :=
  all_chars (body_char k) b && calm false b && negb (last_is_backslash false b) &&
  negb (symmetric k && starts_in " ~^" b) && sandwich_free b.

(** Text outside a span: no whitespace, no parenthesis, no opening
    character of a span, no backslash before a backslash, every colon
    after a backslash, and no marker. *)
Definition word_char (c : ascii) : bool :=
  negb (isspace c) && negb (mem c ("()" ++ openers)).

Definition part_ok (w : string) : bool :=
  all_chars word_char w && calm false w && colons_escaped false w && marker_free w.

(** The text before a span does not end with a backslash; the text after
    a span is empty or starts with a tilde or a caret, and does not end
    with a colon. *)
Definition pre_ok (w : string) : bool :=
  part_ok w && negb (last_is_backslash false w).

Definition post_ok (w : string) : bool :=
  part_ok w && negb (last_is ":" w) && (negb (truthy w) || starts_in "~^" w).

(** A word that is a field or a term value. *)
Definition term_word (w : string) : bool :=
  truthy w && part_ok w && negb (last_is ":" w).

(** A word that is a literal: it starts with an operator; its colons
    need no backslash and it may hold markers. *)
Definition lit_word (w : string) : bool :=
  truthy w && all_chars word_char w && calm false w && negb (last_is ":" w) &&
  starts_with_operator w.

(** A term value: a word, or one span with text before and after it. *)
Definition stable_value (v : string) : bool :=
  term_word v ||
  match span_parts v with
  | Some (pre, k, b, post) => pre_ok pre && body_ok k b && post_ok post
  | None => false
  end.

(** A token that [assemble] and [deparse] give back: a parenthesis or a
    literal word; a global term whose value does not start with an
    operator; a term whose field is a word that neither starts with an
    operator nor ends with a backslash. *)
Definition stable_token (t : token) : bool :=
  match t with
  | Literal s => is_paren s || lit_word s
  | Term d =>
      match field d with
      | Some f => term_word f && negb (starts_with_operator f) &&
                  negb (last_is_backslash false f) && stable_value (term d)
      | None => stable_value (term d) && negb (starts_with_operator (term d))
      end
  end.

(** **** The pieces of an assembled string *)

(** A chunk is a stretch of an assembled string between two blanks: a
    word, or a span with the text before and after it. *)
Inductive chunk : Type :=
| CWord (w : string)
| CSpan (pre : string) (k : kind) (b : string) (post : string).

Definition chunk_text (c : chunk) : string :=
  match c with
  | CWord w => w
  | CSpan pre k b post => pre ++ span_text k b ++ post
  end.

(** What [_repspaces_in_ranges] makes of a chunk: the body of the span
    with markers in the place of its whitespace, colons and
    parentheses. *)
Definition chunk_code (c : chunk) : string :=
  match c with
  | CWord w => w
  | CSpan pre k b post => pre ++ span_text k (map_chars protect b) ++ post
  end.

Definition chunk_ok (c : chunk) : bool :=
  match c with
  | CWord w => term_word w
  | CSpan pre k b post => pre_ok pre && body_ok k b && post_ok post
  end.

(** A stable token with its value cut into its parts. *)
Inductive stok : Type :=
| SLit (s : string)
| SGlobal (v : chunk)
| SField (f : string) (v : chunk).

Definition tok_of (s : stok) : token :=
  match s with
  | SLit l => Literal l
  | SGlobal v => Term (mkTerm None (chunk_text v))
  | SField f v => Term (mkTerm (Some f) (chunk_text v))
  end.

(** The token that the classifier makes of the assembled token, before
    the unescaper. *)
Definition code_of (s : stok) : token :=
  match s with
  | SLit l => Literal l
  | SGlobal v => Term (mkTerm None (chunk_code v))
  | SField f v => Term (mkTerm (Some f) (chunk_code v))
  end.

Definition stok_ok (s : stok) : bool :=
  match s with
  | SLit l => is_paren l || lit_word l
  | SGlobal v => chunk_ok v && negb (starts_with_operator (chunk_text v))
  | SField f v => term_word f && negb (starts_with_operator f) &&
                  negb (last_is_backslash false f) && chunk_ok v
  end.

(** The chunks of an assembled token: the field, the colon and the value
    are three chunks. *)
Definition chunks_of (s : stok) : list chunk :=
  match s with
  | SLit l => [CWord l]
  | SGlobal v => [v]
  | SField f v => [CWord f; CWord ":"; v]
  end.

(** What the rewriting of the ranges needs of a chunk: no opening
    character outside the span, no backslash before the span, and a body
    that the pattern of its kind matches up to its end. *)
Definition inert_in (k : kind) (c : ascii) : bool :=
  negb (Ascii.eqb c newline) && negb (mem c openers) && negb (Ascii.eqb c (closer k)).

Definition ibody (k : kind) (b : string) : bool :=
  all_chars (inert_in k) b && negb (last_is_backslash false b) &&
  negb (symmetric k && starts_in " ~^" b).

Definition no_opener (s : string) : bool :=
  all_chars (fun c => negb (mem c openers)) s.

Definition after_ok (s : string) : bool :=
  match s with
  | "" => true
  | String c _ => mem c " ~^"
  end.

Definition chunk_wf (c : chunk) : bool :=
  match c with
  | CWord w => no_opener w
  | CSpan pre k b post =>
      no_opener pre && negb (last_is_backslash false pre) && ibody k b &&
      no_opener post && after_ok post
  end.

(** The rewriting of the bodies of the spans of kind [k], and of all
    spans, with [f] applied to each character. *)
Definition kind_eqb (k1 k2 : kind) : bool :=
  match k1, k2 with
  | Brace, Brace | Bracket, Bracket | Slash, Slash | Quote, Quote => true
  | _, _ => false
  end.

Definition rewrite_kind (k : kind) (f : ascii -> string) (c : chunk) : chunk :=
  match c with
  | CWord w => CWord w
  | CSpan pre k' b post =>
      if kind_eqb k' k then CSpan pre k' (map_chars f b) post else c
  end.

Definition rewrite_all (f : ascii -> string) (c : chunk) : chunk :=
  match c with
  | CWord w => CWord w
  | CSpan pre k b post => CSpan pre k (map_chars f b) post
  end.

(** A string as one pattern sees it: spans of the kind of the pattern,
    and text between them. *)
Inductive part : Type :=
| Txt (x : string)
| Sp (b : string).

Definition part_text (k : kind) (p : part) : string :=
  match p with
  | Txt x => x
  | Sp b => span_text k b
  end.

Fixpoint flat (k : kind) (ps : list part) : string :=
  match ps with
  | [] => ""
  | p :: ps' => part_text k p ++ flat k ps'
  end.

Fixpoint bodies (ps : list part) : list string :=
  match ps with
  | [] => []
  | Txt _ :: ps' => bodies ps'
  | Sp b :: ps' => b :: bodies ps'
  end.

Fixpoint wfv (k : kind) (esc : bool) (ps : list part) : bool :=
  match ps with
  | [] => true
  | Txt x :: ps' =>
      negb (mem (opener k) x) && wfv k (last_is_backslash esc x) ps'
  | Sp b :: ps' =>
      negb esc && ibody k b && after_ok (flat k ps') && wfv k false ps'
  end.

Definition view (k : kind) (c : chunk) : list part :=
  match c with
  | CWord w => [Txt w]
  | CSpan pre k' b post =>
      if kind_eqb k' k then [Txt pre; Sp b; Txt post] else [Txt (chunk_text c)]
  end.

Fixpoint views (k : kind) (cs : list chunk) : list part :=
  match cs with
  | [] => []
  | c :: cs' =>
      match cs' with
      | [] => view k c
      | _ :: _ => view k c ++ Txt " " :: views k cs'
      end
  end.

Definition subst_part (b b' : string) (p : part) : part :=
  match p with
  | Txt x => Txt x
  | Sp x => if String.eqb x b then Sp b' else Sp x
  end.

Definition rewrite_part (f : ascii -> string) (p : part) : part :=
  match p with
  | Txt x => Txt x
  | Sp x => Sp (map_chars f x)
  end.

(** **** Tokens without whitespace *)

(** A word that the tokenizer keeps in one piece: not empty, without
    whitespace and parentheses, and with no colon at its start or at its
    end. *)
Definition solid_char (c : ascii) : bool :=
  negb (isspace c) && negb (mem c "()").

Definition solid_word (w : string) : bool :=
  truthy w && all_chars solid_char w && negb (prefix ":" w) && negb (last_is ":" w).

Inductive solid_shape : token -> Prop :=
| solid_open : solid_shape (Literal "(")
| solid_close : solid_shape (Literal ")")
| solid_literal (w : string) :
    solid_word w = true -> solid_shape (Literal w)
| solid_global (w : string) :
    solid_word w = true -> solid_shape (Term (mkTerm None w))
| solid_field (f w : string) :
    solid_word f = true -> solid_word w = true ->
    solid_shape (Term (mkTerm (Some f) w)).

(** **** The unescaper on a rewritten body *)

(** What is left of the pattern [x] when [a] is used up, if [a] and
    [x] agree up to there. *)
Fixpoint residue (x a : string) : option string :=
  match x with
  | "" => Some ""
  | String c x' =>
      match a with
      | "" => Some x
      | String d a' => if Ascii.eqb c d then residue x' a' else None
      end
  end.

(** The residues of [x] at every place of [a]. *)
Fixpoint residues (x a : string) : list string :=
  match a with
  | "" => []
  | String _ a' =>
      match residue x a with
      | Some r => r :: residues x a'
      | None => residues x a'
      end
  end.

(** No occurrence of [x] starts in [a] when [rest] follows. *)
Fixpoint no_start (x a rest : string) : bool :=
  match a with
  | "" => true
  | String _ a' => negb (prefix x (a ++ rest)) && no_start x a' rest
  end.

Fixpoint atoms_ok (x : string) (e : ascii -> string) (s : string) : bool :=
  match s with
  | "" => true
  | String c s' =>
      (String.eqb (e c) x || no_start x (e c) (map_chars e s')) && atoms_ok x e s'
  end.

(** A residue that cannot go on: it starts with an ampersand, or it is
    the name of a marker and the start of a marker. *)
Definition residue_fine (r : string) : bool :=
  prefix "&" r || existsb (String.eqb r) (map (fun n => n ++ "_&_") names).

Definition tail_ok (rest : string) : bool :=
  forallb (fun n => negb (prefix (n ++ "_&_") rest)) names.

(** The body after [j] of the last four replacements of the unescaper:
    the first [j] of whitespace, colon, opening and closing parenthesis
    are back, the others are markers. *)
Definition code_at (j : nat) (c : ascii) : string :=
  if isspace c then (if (j =? 0)%nat then "_&_SPACE_&_" else " ")
  else if Ascii.eqb ":" c then (if (j <=? 1)%nat then "_&_COLON_&_" else ":")
  else if Ascii.eqb "(" c then (if (j <=? 2)%nat then "_&_PA_&_" else "(")
  else if Ascii.eqb ")" c then (if (j <=? 3)%nat then "_&_RENS_&_" else ")")
  else str1 c.

(** The rewriting of one repair: a character of the class becomes the
    marker, any other character stays. *)
Definition mark (p : ascii -> bool) (t : string) (c : ascii) : string :=
  if p c then t else str1 c.

(** The atoms that stand for an escaped character, at any stage; and the
    characters that are no start of such an atom. *)
Definition coded_atoms : list string :=
  ["_&_SPACE_&_"; "_&_COLON_&_"; "_&_PA_&_"; "_&_RENS_&_"; " "; ":"; "("; ")"].

Definition letter (c : ascii) : bool := negb (escaped c) && negb (Ascii.eqb c "_").

(** A chunk that is fit for the escaper: in order for the rewriting of
    the ranges, and with no backslash before a backslash or a quote. *)
Definition chunk_fit (c : chunk) : Prop :=
  chunk_wf c = true /\ calm false (chunk_text c) = true.

(** The conjuncts of a boolean hypothesis. *)
Ltac break_andb :=
  repeat match goal with
         | H : _ && _ = true |- _ => apply andb_true_iff in H; destruct H
         | H : negb _ = true |- _ => apply negb_true_iff in H
         end.

(** A query with a field, a quoted string, the three kinds of range, an
    escaped colon, operators and parentheses; and its tokens. *)
Definition stable_example : string :=
  "first_name:John " ++ DQ ++ "open access" ++ DQ ++
  " date:[1 TO 2] price:{1 TO 5} AND path:/a b/ a\:b title:" ++ DQ ++ "a: (b)" ++ DQ ++
  " AND NOT (x_y OR +" ++ DQ ++ "Open Science" ++ DQ ++ "~2)".

Definition stable_example_tokens : list token :=
  [Term (mkTerm (Some "first_name") "John");
   Term (mkTerm None (DQ ++ "open access" ++ DQ));
   Term (mkTerm (Some "date") "[1 TO 2]");
   Term (mkTerm (Some "price") "{1 TO 5}");
   Literal "AND";
   Term (mkTerm (Some "path") "/a b/");
   Term (mkTerm None "a\:b");
   Term (mkTerm (Some "title") (DQ ++ "a: (b)" ++ DQ));
   Literal "AND"; Literal "NOT"; Literal "(";
   Term (mkTerm None "x_y");
   Literal "OR";
   Term (mkTerm None ("+" ++ DQ ++ "Open Science" ++ DQ ++ "~2"));
   Literal ")"].

(** * Properties *)

(** ** The exception monad *)

Lemma mapM_ok {A B : Type} (f : A -> res B) (g : A -> B) (l : list A) :
  (forall a, In a l -> f a = Ok (g a)) -> mapM f l = Ok (map g l).
Proof.
  induction l as [|a l IH]; intros H; simpl.
  - reflexivity.
  - rewrite (H a (or_introl eq_refl)). simpl.
    rewrite IH by (intros x Hx; apply H; right; exact Hx).
    reflexivity.
Qed.

(** ** Strings *)

Lemma eqb_char_refl (c : ascii) : Ascii.eqb c c = true.
Proof. apply Ascii.eqb_refl. Qed.

Lemma prefix_cons (c d : ascii) (x s : string) :
  prefix (String c x) (String d s) = Ascii.eqb c d && prefix x s.
Proof.
  simpl. destruct (ascii_dec c d) as [->|N].
  - rewrite eqb_char_refl. reflexivity.
  - apply Ascii.eqb_neq in N. rewrite N. reflexivity.
Qed.

Lemma contains_cons (x : string) (c : ascii) (s : string) :
  contains x (String c s) = prefix x (String c s) || contains x s.
Proof. reflexivity. Qed.

Lemma contains_drop (x : string) (n : nat) (s : string) :
  contains x s = false -> contains x (drop n s) = false.
Proof.
  revert s. induction n as [|n IH]; intros s H.
  - destruct s; exact H.
  - destruct s as [|c s]; [exact H|]. simpl. apply IH.
    rewrite contains_cons in H. apply orb_false_iff in H. apply H.
Qed.

(** ** Literal patterns *)

Lemma lit_at_spec (l : string) (k : cont) (b : list ascii) (s : string) (n : nat) :
  lit_at l k b s n =
  if prefix l s
  then k (rev_chars (take (String.length l) s) b) (drop (String.length l) s)
         (n + String.length l)
  else None.
Proof.
  revert b s n. induction l as [|c l IH]; intros b s n.
  - destruct s; simpl; rewrite Nat.add_0_r; reflexivity.
  - destruct s as [|d s]; [reflexivity|].
    rewrite prefix_cons. simpl lit_at.
    destruct (Ascii.eqb c d); [|reflexivity].
    rewrite IH. simpl andb.
    destruct (prefix l s); [|reflexivity].
    simpl. f_equal. lia.
Qed.

Lemma match_at_lit (l : string) (b : list ascii) (s : string) :
  match_at (Lit l) b s = if prefix l s then Some (String.length l) else None.
Proof. unfold match_at. simpl. rewrite lit_at_spec. reflexivity. Qed.

(** ** Matches are not empty *)

Lemma star_greedy_length (p : ascii -> bool) (k : cont) (s : string) :
  forall b n m,
    star_greedy p k b s n = Some m ->
    exists b' s' n', k b' s' n' = Some m /\ n <= n'.
Proof.
  induction s as [|d s IH]; intros b n m H; cbn [star_greedy] in H.
  - exists b, "", n. split; [exact H | lia].
  - destruct (p d).
    + destruct (star_greedy p k (d :: b) s (S n)) as [x|] eqn:E.
      * injection H as <-. destruct (IH _ _ _ E) as (b' & s' & n' & Hk & Hn).
        exists b', s', n'. split; [exact Hk | lia].
      * exists b, (String d s), n. split; [exact H | lia].
    + exists b, (String d s), n. split; [exact H | lia].
Qed.

Lemma star_lazy_length (p : ascii -> bool) (k : cont) (s : string) :
  forall b n m,
    star_lazy p k b s n = Some m ->
    exists b' s' n', k b' s' n' = Some m /\ n <= n'.
Proof.
  induction s as [|d s IH]; intros b n m H; cbn [star_lazy] in H.
  - destruct (k b "" n) as [x|] eqn:E; [|discriminate].
    injection H as <-. exists b, "", n. split; [exact E | lia].
  - destruct (k b (String d s) n) as [x|] eqn:E.
    + injection H as <-. exists b, (String d s), n. split; [exact E | lia].
    + destruct (p d); [|discriminate].
      destruct (IH _ _ _ H) as (b' & s' & n' & Hk & Hn).
      exists b', s', n'. split; [exact Hk | lia].
Qed.

Lemma rx_length (r : regex) :
  forall k b s n m,
    rx r k b s n = Some m ->
    exists b' s' n', k b' s' n' = Some m /\ n + min_len r <= n'.
Proof.
  induction r as [l|c|c|c|l| |r1 IH1 r2 IH2|r1 IH1 r2 IH2];
    intros k b s n m H; cbn [rx min_len] in *.
  - rewrite lit_at_spec in H. destruct (prefix l s); [|discriminate].
    eexists _, _, _. split; [exact H | lia].
  - destruct s as [|d s]; [discriminate|].
    destruct (in_class c d); [|discriminate].
    eexists _, _, _. split; [exact H | lia].
  - destruct (star_greedy_length _ _ _ _ _ _ H) as (b' & s' & n' & Hk & Hn).
    exists b', s', n'. split; [exact Hk | lia].
  - destruct (star_lazy_length _ _ _ _ _ _ H) as (b' & s' & n' & Hk & Hn).
    exists b', s', n'. split; [exact Hk | lia].
  - destruct (starts_with _ b); [discriminate|].
    exists b, s, n. split; [exact H | lia].
  - destruct b; [discriminate|].
    eexists _, _, _. split; [exact H | lia].
  - destruct (IH1 _ _ _ _ _ H) as (b1 & s1 & n1 & H1 & Hn1).
    destruct (IH2 _ _ _ _ _ H1) as (b2 & s2 & n2 & H2 & Hn2).
    exists b2, s2, n2. split; [exact H2 | lia].
  - destruct (rx r1 k b s n) as [x|] eqn:E.
    + injection H as <-. destruct (IH1 _ _ _ _ _ E) as (b' & s' & n' & Hk & Hn).
      exists b', s', n'. split; [exact Hk | lia].
    + destruct (IH2 _ _ _ _ _ H) as (b' & s' & n' & Hk & Hn).
      exists b', s', n'. split; [exact Hk | lia].
Qed.

Lemma match_at_length (r : regex) (b : list ascii) (s : string) (m : nat) :
  match_at r b s = Some m -> min_len r <= m.
Proof.
  unfold match_at. intros H.
  destruct (rx_length r _ _ _ _ _ H) as (b' & s' & n' & Hk & Hn).
  injection Hk as <-. lia.
Qed.

(** No pattern of the module matches the empty string: the scan never
    reports an empty match. *)
Lemma scanned_patterns_not_empty (r : regex) (b : list ascii) (s : string) :
  In r scanned_patterns -> match_at r b s <> Some 0.
Proof.
  intros Hr H. apply match_at_length in H.
  assert (A : forallb (fun r => 1 <=? min_len r)%nat scanned_patterns = true)
    by reflexivity.
  rewrite forallb_forall in A. specialize (A r Hr).
  apply Nat.leb_le in A. lia.
Qed.

(** ** Scanning for a literal *)

Lemma scan_lit_context (l : string) (b b' : list ascii) (j : nat) (s : string) :
  scan (Lit l) b j s = scan (Lit l) b' j s.
Proof.
  revert b b' j. induction s as [|c s IH]; intros b b' j.
  - destruct j; simpl; [|reflexivity]. rewrite !match_at_lit. reflexivity.
  - destruct j; simpl.
    + rewrite !match_at_lit.
      destruct (prefix l (String c s)).
      * destruct (String.length l) as [|m];
          [rewrite (IH (c :: b) (c :: b') 0) | rewrite (IH (c :: b) (c :: b') m)];
          reflexivity.
      * rewrite (IH (c :: b) (c :: b') 0). reflexivity.
    + apply IH.
Qed.

Lemma scan_skip_drop (t l : string) (b : list ascii) (j : nat) (s : string) :
  j <= String.length s ->
  plain_pieces t (scan (Lit l) b j s) =
  plain_pieces t (scan (Lit l) b 0 (drop j s)).
Proof.
  revert b s. induction j as [|j IH]; intros b s Hj.
  - destruct s; reflexivity.
  - destruct s as [|c s]; [simpl in Hj; lia|].
    simpl drop. change (scan (Lit l) b (S j) (String c s))
      with (scan (Lit l) (c :: b) j s).
    rewrite IH by (simpl in Hj; lia).
    rewrite (scan_lit_context l (c :: b) b). reflexivity.
Qed.

Lemma prefix_length (x s : string) :
  prefix x s = true -> String.length x <= String.length s.
Proof.
  revert s. induction x as [|c x IH]; intros s H; simpl; [lia|].
  destruct s as [|d s]; [discriminate|].
  rewrite prefix_cons in H. apply andb_true_iff in H. destruct H as [_ H].
  apply IH in H. simpl. lia.
Qed.

Lemma str_replace_hit (c : ascii) (x t s : string) :
  prefix (String c x) s = true ->
  str_replace (String c x) t s =
  t ++ str_replace (String c x) t (drop (S (String.length x)) s).
Proof.
  intros H. unfold str_replace, finditer.
  destruct s as [|d s]; [discriminate|].
  simpl scan. rewrite match_at_lit, H. simpl String.length. simpl plain_pieces.
  f_equal. rewrite scan_skip_drop.
  - rewrite (scan_lit_context _ [d] []). reflexivity.
  - apply prefix_length in H. simpl in H. lia.
Qed.

Lemma str_replace_miss (x t : string) (d : ascii) (s : string) :
  prefix x (String d s) = false ->
  str_replace x t (String d s) = String d (str_replace x t s).
Proof.
  intros H. unfold str_replace, finditer.
  simpl scan. rewrite match_at_lit, H. simpl.
  rewrite (scan_lit_context _ [d] []). reflexivity.
Qed.

(** A marker that does not occur is not replaced. *)
Lemma str_replace_absent (x t s : string) :
  contains x s = false -> str_replace x t s = s.
Proof.
  induction s as [|d s IH]; intros H.
  - destruct x; [discriminate H | reflexivity].
  - rewrite contains_cons in H. apply orb_false_iff in H. destruct H as [H1 H2].
    rewrite str_replace_miss by exact H1. rewrite IH by exact H2. reflexivity.
Qed.

Lemma drop_length (n : nat) (s : string) :
  String.length (drop n s) <= String.length s.
Proof.
  revert s. induction n as [|n IH]; intros s; destruct s as [|c s]; simpl;
    try lia.
  specialize (IH s). lia.
Qed.

Lemma apart_inv (y t : string) :
  apart y t = true ->
  exists y0 y' t0 t',
    y = String y0 y' /\ t = String t0 t' /\ mem y0 t = false /\ mem t0 y = false.
Proof.
  unfold apart. destruct y as [|y0 y']; [discriminate|].
  destruct t as [|t0 t']; [discriminate|]. cbn [head].
  intros H. apply andb_true_iff in H. destruct H as [H1 H2].
  apply negb_true_iff in H1. apply negb_true_iff in H2.
  exists y0, y', t0, t'. repeat split; assumption.
Qed.

(** A replacement that lacks the first character of [y] holds no start of
    an occurrence of [y]. *)
Lemma contains_app_apart (y0 : ascii) (y' t u : string) :
  mem y0 t = false ->
  contains (String y0 y') (t ++ u) = contains (String y0 y') u.
Proof.
  induction t as [|c t IH]; intros H; [reflexivity|].
  simpl in H. apply orb_false_iff in H. destruct H as [H1 H2].
  change (String c t ++ u) with (String c (t ++ u)).
  rewrite contains_cons, prefix_cons, H1. simpl. apply IH. exact H2.
Qed.

(** What the result of a replacement starts with, the subject started
    with, as long as it lacks the first character of the replacement. *)
Lemma replace_prefix_back (x0 : ascii) (x' t' z : string) (t0 : ascii) (s : string) :
  mem t0 z = false ->
  prefix z (str_replace (String x0 x') (String t0 t') s) = true ->
  prefix z s = true.
Proof.
  revert z. induction s as [|d s IH]; intros z Hz H.
  - exact H.
  - destruct z as [|z0 z]; [reflexivity|].
    simpl in Hz. apply orb_false_iff in Hz. destruct Hz as [Hz0 Hz].
    destruct (prefix (String x0 x') (String d s)) eqn:E.
    + rewrite str_replace_hit in H by exact E.
      change (String t0 t' ++ ?u) with (String t0 (t' ++ u)) in H.
      rewrite prefix_cons in H. apply andb_true_iff in H. destruct H as [H _].
      rewrite Ascii.eqb_sym in Hz0. rewrite Hz0 in H. discriminate.
    + rewrite str_replace_miss in H by exact E.
      rewrite prefix_cons in *. apply andb_true_iff in H. destruct H as [H1 H2].
      rewrite H1. simpl. apply IH; assumption.
Qed.

(** After the replacement of [x] by [t], a marker [y] does not occur if
    it is [x] itself or did not occur before. *)
Lemma replace_clears (x t y : string) :
  apart x t = true -> apart y t = true ->
  forall (n : nat) (s : string), String.length s <= n ->
  y = x \/ contains y s = false ->
  contains y (str_replace x t s) = false.
Proof.
  intros Hx Hy.
  destruct (apart_inv _ _ Hx) as (x0 & x' & t0 & t' & -> & -> & _ & _).
  destruct (apart_inv _ _ Hy) as (y0 & y' & t1 & t1' & -> & Et & Hy0 & Ht0).
  injection Et as <- <-.
  induction n as [|n IH]; intros s Hn Hs.
  - destruct s; [reflexivity | simpl in Hn; lia].
  - destruct s as [|d s]; [reflexivity|].
    destruct (prefix (String x0 x') (String d s)) eqn:E.
    + rewrite str_replace_hit by exact E.
      rewrite contains_app_apart by exact Hy0.
      apply IH.
      * pose proof (drop_length (S (String.length x')) (String d s)).
        simpl in Hn. simpl in H.
        pose proof (drop_length (String.length x') s). simpl. lia.
      * destruct Hs as [Hs|Hs]; [left; exact Hs|right].
        apply contains_drop. exact Hs.
    + pose proof (str_replace_miss (String x0 x') (String t0 t') d s E) as M.
      rewrite M, contains_cons. apply orb_false_iff. split.
      * destruct (prefix (String y0 y') (String d (str_replace (String x0 x')
                    (String t0 t') s))) eqn:P; [|reflexivity].
        rewrite <- M in P. apply replace_prefix_back in P; [|exact Ht0].
        destruct Hs as [Hs|Hs].
        -- rewrite Hs in P. rewrite P in E. discriminate.
        -- rewrite contains_cons, P in Hs. discriminate.
      * apply IH; [simpl in Hn; lia|].
        destruct Hs as [Hs|Hs]; [left; exact Hs|right].
        rewrite contains_cons in Hs. apply orb_false_iff in Hs. apply Hs.
Qed.

(** ** Tables of replacements *)

Lemma steps_keep (y : string) (ps : list (string * string)) (v : string) :
  (forall p, In p ps -> apart (fst p) (snd p) = true /\ apart y (snd p) = true) ->
  contains y v = false -> contains y (replace_steps ps v) = false.
Proof.
  revert v. induction ps as [|[x t] ps IH]; intros v H Hv; [exact Hv|].
  simpl. apply IH.
  - intros p Hp. apply H. right. exact Hp.
  - destruct (H (x, t) (or_introl eq_refl)) as [H1 H2].
    apply (replace_clears x t y H1 H2 (String.length v)); [lia|].
    right. exact Hv.
Qed.

Lemma steps_clear (ps : list (string * string)) (v : string) :
  (forall q p, In q ps -> In p ps -> apart (fst q) (snd p) = true) ->
  forall q, In q ps -> contains (fst q) (replace_steps ps v) = false.
Proof.
  revert v. induction ps as [|[x t] ps IH]; intros v H q Hq; [destruct Hq|].
  simpl. destruct Hq as [<-|Hq].
  - apply steps_keep.
    + intros p Hp. split; apply H; simpl; auto.
    + assert (A : apart x t = true) by (apply (H (x, t) (x, t)); left; reflexivity).
      apply (replace_clears x t x A A (String.length v) v (Nat.le_refl _)).
      left. reflexivity.
  - apply IH; [|exact Hq]. intros q' p Hq' Hp. apply H; right; assumption.
Qed.

Lemma steps_id (ps : list (string * string)) (v : string) :
  (forall p, In p ps -> contains (fst p) v = false) -> replace_steps ps v = v.
Proof.
  induction ps as [|[x t] ps IH]; intros H; [reflexivity|].
  simpl. rewrite str_replace_absent by (apply (H (x, t)); left; reflexivity).
  apply IH. intros p Hp. apply H. right. exact Hp.
Qed.

Lemma good_table_apart (ps : list (string * string)) :
  good_table ps = true ->
  forall q p, In q ps -> In p ps -> apart (fst q) (snd p) = true.
Proof.
  unfold good_table. intros H q p Hq Hp.
  rewrite forallb_forall in H. specialize (H q Hq).
  rewrite forallb_forall in H. exact (H p Hp).
Qed.

Lemma rev_table_good : good_table rev_table = true.
Proof. vm_compute. reflexivity. Qed.

Lemma unescape_clear (v : string) (q : string * string) :
  In q rev_table -> contains (fst q) (unescape v) = false.
Proof.
  apply steps_clear. apply good_table_apart. exact rev_table_good.
Qed.

Lemma unescape_marker_free (v : string) : marker_free (unescape v) = true.
Proof.
  unfold marker_free. apply forallb_forall. intros m Hm.
  change markers with (map fst rev_table) in Hm.
  apply in_map_iff in Hm. destruct Hm as (q & <- & Hq).
  rewrite unescape_clear by exact Hq. reflexivity.
Qed.

Lemma unescape_idem (v : string) : unescape (unescape v) = unescape v.
Proof.
  unfold unescape at 1. apply steps_id. intros p Hp.
  apply unescape_clear. exact Hp.
Qed.

(** ** [re.sub] with a template *)

Lemma sub_pieces_const (t : string) (ps : list piece) :
  sub_pieces (fun _ => Ok t) ps = Ok (plain_pieces t ps).
Proof.
  induction ps as [|[c|m] ps IH]; simpl; [reflexivity| |]; rewrite IH; reflexivity.
Qed.

Lemma re_sub_template (r : regex) (tmpl t s : string) :
  expand_template tmpl = Ok t ->
  re_sub r tmpl s = Ok (plain_pieces t (finditer r s)).
Proof.
  intros H. unfold re_sub, re_sub_with. rewrite H. simpl.
  apply sub_pieces_const.
Qed.

Lemma re_sub_lit (x tmpl t s : string) :
  expand_template tmpl = Ok t ->
  re_sub (Lit x) tmpl s = Ok (str_replace x t s).
Proof. intros H. apply re_sub_template. exact H. Qed.

(** ** The unescaper *)

Lemma unreplace_value_eq (v : string) : unreplace_value v = Ok (unescape v).
Proof.
  unfold unreplace_value, _revpairs_values, unescape, rev_table, replace_steps.
  cbn [map _revpairs foldM fst snd fold_left].
  repeat (erewrite re_sub_lit by reflexivity; cbn [bind]).
  reflexivity.
Qed.

Lemma unreplace_dict_eq (d : termdict) :
  unreplace_dict d =
  Ok (mkTerm (option_map unescape_if (field d)) (unescape_if (term d))).
Proof.
  unfold unreplace_dict, unescape_if.
  destruct d as [[f|] t]; cbn [field term option_map].
  - destruct (truthy f); destruct (truthy t);
      rewrite ?unreplace_value_eq; reflexivity.
  - destruct (truthy t); rewrite ?unreplace_value_eq; reflexivity.
Qed.

Lemma _unreplace_eq (ts : list token) :
  _unreplace ts = Ok (map unescape_token ts).
Proof.
  unfold _unreplace. apply mapM_ok. intros [s|d] _; [reflexivity|].
  rewrite unreplace_dict_eq. reflexivity.
Qed.

Lemma unescape_if_idem (v : string) : unescape_if (unescape_if v) = unescape_if v.
Proof.
  unfold unescape_if. destruct (truthy v) eqn:E; [|rewrite E; reflexivity].
  destruct (truthy (unescape v)); [apply unescape_idem | reflexivity].
Qed.

Lemma unescape_token_idem (t : token) :
  unescape_token (unescape_token t) = unescape_token t.
Proof.
  destruct t as [s|[[f|] t]]; simpl; rewrite ?unescape_if_idem; reflexivity.
Qed.

(** C7.  The unescaper is idempotent: the six reverse substitutions, in
    the order metaescape, quote, whitespace, colon, open parenthesis,
    close parenthesis, return a value on which they return the same value
    again; and [_unreplace] returns a token list that [_unreplace] leaves
    as it is. *)
Theorem unescaper_idempotent :
  (forall v : string,
      exists x, unreplace_value v = Ok x /\ unreplace_value x = Ok x) /\
  (forall ts : list token,
      exists ts', _unreplace ts = Ok ts' /\ _unreplace ts' = Ok ts').
Proof.
  split.
  - intros v. exists (unescape v). split; [apply unreplace_value_eq|].
    rewrite unreplace_value_eq, unescape_idem. reflexivity.
  - intros ts. exists (map unescape_token ts). split; [apply _unreplace_eq|].
    rewrite _unreplace_eq, map_map. f_equal.
    apply map_ext. intros t. apply unescape_token_idem.
Qed.

(** ** The classifier as a map over the raw tokens *)

Lemma split_pieces_nonempty (ps : list piece) : split_pieces ps <> [].
Proof.
  destruct ps as [|[c|m] ps]; simpl; try discriminate.
  destruct (split_pieces ps); discriminate.
Qed.

Lemma list_set_app {A : Type} (pre : list A) (a v : A) (rest : list A) :
  list_set (pre ++ a :: rest)%list (List.length pre) v = Ok (pre ++ v :: rest)%list.
Proof.
  induction pre as [|x pre IH]; simpl; [reflexivity|].
  rewrite IH. reflexivity.
Qed.

Lemma in_enumerate {A : Type} (l : list A) (k i : nat) (t : A) :
  In (i, t) (combine (seq k (List.length l)) l) ->
  k <= i /\ nth_error l (i - k) = Some t.
Proof.
  revert k. induction l as [|a l IH]; intros k H; simpl in H; [destruct H|].
  destruct H as [H|H].
  - injection H as <- <-. rewrite Nat.sub_diag. split; [lia | reflexivity].
  - apply IH in H. destruct H as [H1 H2]. split; [lia|].
    replace (i - k) with (S (i - S k)) by lia. exact H2.
Qed.

Lemma combine_map_fst {A B : Type} (g : A -> B) (ps : list (A * B)) :
  (forall p, In p ps -> g (fst p) = snd p) ->
  combine (map fst ps) (map g (map fst ps)) = ps.
Proof.
  induction ps as [|[a b] ps IH]; intros H; simpl; [reflexivity|].
  rewrite IH by (intros p Hp; apply H; right; exact Hp).
  pose proof (H (a, b) (or_introl eq_refl)) as E. simpl in E.
  rewrite E. reflexivity.
Qed.

Lemma termdicts_loop
  (body : list token -> nat * string -> res (list token)) :
  (forall q i t, re_match nonterms t = false ->
                 body q (i, t) = list_set q i (classify t)) ->
  forall (q : list string) (pre : list token),
    foldM body
      (filter (fun it => negb (re_match nonterms (snd it)))
         (combine (seq (List.length pre) (List.length q)) q))
      (pre ++ map Literal q)%list
    = Ok (pre ++ map classify q)%list.
Proof.
  intros Hbody. induction q as [|t q IH]; intros pre; [reflexivity|].
  cbn [List.length seq combine filter snd map].
  specialize (IH (pre ++ [classify t])%list).
  rewrite length_app in IH. cbn [List.length] in IH.
  rewrite Nat.add_1_r, <- !app_assoc in IH. cbn [app] in IH.
  destruct (re_match nonterms t) eqn:E; cbn [negb].
  - assert (C : classify t = Literal t) by (unfold classify; rewrite E; reflexivity).
    rewrite C in *. exact IH.
  - cbn [foldM]. rewrite Hbody by exact E. rewrite list_set_app. cbn [bind].
    exact IH.
Qed.

Lemma _termdicts_classify (qsplitted : list string) :
  _termdicts qsplitted = Ok (map classify qsplitted).
Proof.
  unfold _termdicts, enumerate.
  set (ps := filter _ _).
  assert (Hps : forall p, In p ps -> nth_error qsplitted (fst p) = Some (snd p)).
  { intros [i t] Hp. apply filter_In in Hp. destruct Hp as [Hp _].
    apply in_enumerate in Hp. rewrite Nat.sub_0_r in Hp. apply Hp. }
  rewrite (mapM_ok _ (fun i => nth i qsplitted "")).
  - cbn [bind]. rewrite combine_map_fst.
    + apply (termdicts_loop _) with (pre := []).
      intros q i t E. unfold classify. rewrite E.
      pose proof (split_pieces_nonempty (finditer colon_pat t)) as N.
      unfold re_split. destruct (split_pieces (finditer colon_pat t)) as [|p0 [|p1 l]];
        [contradiction| |]; reflexivity.
    + intros p Hp. apply Hps in Hp. apply nth_error_nth. exact Hp.
  - intros i Hi. apply in_map_iff in Hi. destruct Hi as (p & <- & Hp).
    unfold list_get. rewrite (Hps p Hp).
    rewrite (nth_error_nth _ _ _ (Hps p Hp)). reflexivity.
Qed.

(** ** Every stage returns *)

Lemma mapM_total {A B : Type} (f : A -> res B) (l : list A) :
  (forall a, exists b, f a = Ok b) -> exists bs, mapM f l = Ok bs.
Proof.
  intros H. induction l as [|a l [bs IH]]; simpl.
  - exists []. reflexivity.
  - destruct (H a) as [b Hb]. rewrite Hb, IH. simpl. eexists. reflexivity.
Qed.

Lemma foldM_total {A B : Type} (f : A -> B -> res A) (l : list B) (a : A) :
  (forall x b, In b l -> exists y, f x b = Ok y) -> exists y, foldM f l a = Ok y.
Proof.
  revert a. induction l as [|b l IH]; intros a H; simpl.
  - exists a. reflexivity.
  - destruct (H a b (or_introl eq_refl)) as [y Hy]. rewrite Hy. simpl.
    apply IH. intros x c Hc. apply H. right. exact Hc.
Qed.

Lemma sub_pieces_total (f : string -> res string) (ps : list piece) :
  (forall m, In m (hits ps) -> exists x, f m = Ok x) ->
  exists t, sub_pieces f ps = Ok t.
Proof.
  induction ps as [|[c|m] ps IH]; intros H; simpl.
  - exists "". reflexivity.
  - destruct (IH H) as [t Ht]. rewrite Ht. simpl. eexists. reflexivity.
  - destruct (H m (or_introl eq_refl)) as [x Hx].
    destruct (IH (fun m' Hm' => H m' (or_intror Hm'))) as [t Ht].
    rewrite Hx, Ht. simpl. eexists. reflexivity.
Qed.

Lemma _replace_in_range_total (qstring : string) (rangepats : list regex)
  (repair : regex * string) (t : string) :
  expand_template (snd repair) = Ok t ->
  exists q, _replace_in_range qstring rangepats repair = Ok q.
Proof.
  intros Ht. unfold _replace_in_range. apply foldM_total. intros x pat _.
  destruct (mapM_total (re_sub (fst repair) (snd repair)) (re_findall pat x))
    as [bs Hbs].
  - intros a. eexists. apply re_sub_template. exact Ht.
  - rewrite Hbs. simpl. eexists. reflexivity.
Qed.

Lemma _repspaces_in_ranges_total (qstring : string) :
  exists q, _repspaces_in_ranges qstring = Ok q.
Proof.
  unfold _repspaces_in_ranges. apply foldM_total. intros x repair H.
  apply (_replace_in_range_total _ _ _ (snd repair)).
  simpl in H. destruct H as [<-|[<-|[<-|[<-|[]]]]]; reflexivity.
Qed.

Lemma _repspaces_in_subqueries_total (qstring : string) :
  exists q, _repspaces_in_subqueries qstring = Ok q.
Proof.
  unfold _repspaces_in_subqueries. apply foldM_total. intros x repair H.
  apply (_replace_in_range_total _ _ _ (snd repair)).
  simpl in H. destruct H as [<-|[<-|[]]]; reflexivity.
Qed.

(** The matches of a class are single characters of the class. *)
Lemma scan_cls_hits (k : cclass) (s : string) :
  forall (b : list ascii) (j : nat) (m : string),
    In m (hits (scan (Cls k) b j s)) ->
    exists c, m = str1 c /\ in_class k c = true.
Proof.
  induction s as [|c s IH]; intros b j m H.
  - destruct j; simpl in H; destruct H.
  - destruct j; [|exact (IH _ _ _ H)].
    simpl in H. unfold match_at in H. simpl in H.
    destruct (in_class k c) eqn:E.
    + simpl in H. destruct H as [<-|H]; [exists c; split; [reflexivity|exact E]|].
      exact (IH _ _ _ H).
    + simpl in H. exact (IH _ _ _ H).
Qed.

Lemma _addparenswhitespace_total (qstring : string) :
  exists q, _addparenswhitespace qstring = Ok q.
Proof.
  unfold _addparenswhitespace, re_sub_with, finditer.
  apply sub_pieces_total. intros m Hm.
  apply scan_cls_hits in Hm. destruct Hm as (c & -> & Hc).
  simpl in Hc. rewrite orb_false_r in Hc. apply orb_true_iff in Hc.
  destruct Hc as [Hc|Hc]; apply Ascii.eqb_eq in Hc; subst c; eexists; reflexivity.
Qed.

Lemma raw_tokens_total (qstring : string) :
  exists raw, raw_tokens qstring = Ok raw.
Proof.
  unfold raw_tokens.
  unfold _replace_metaescape, _replace_esc_quotes, _stripspaces.
  cbn [_replacepairs].
  erewrite re_sub_template by reflexivity. cbn [bind].
  erewrite re_sub_template by reflexivity. cbn [bind].
  match goal with
  | |- context [_repspaces_in_ranges ?q] =>
      destruct (_repspaces_in_ranges_total q) as [q3 ->]
  end. cbn [bind].
  destruct (_addparenswhitespace_total q3) as [q4 ->]. cbn [bind].
  erewrite re_sub_template by reflexivity. cbn [bind].
  match goal with
  | |- context [_repspaces_in_subqueries ?q] =>
      destruct (_repspaces_in_subqueries_total q) as [q6 ->]
  end. cbn [bind].
  eexists. reflexivity.
Qed.

Lemma _parse_raw (qstring : string) :
  _parse qstring = (raw <- raw_tokens qstring ;; _termdicts raw).
Proof.
  unfold _parse, raw_tokens.
  repeat match goal with
         | |- bind ?c _ = _ => destruct c; cbn [bind]; [|reflexivity]
         end.
  reflexivity.
Qed.

Lemma deparse_eq (qstring : string) (raw : list string) :
  raw_tokens qstring = Ok raw ->
  deparse qstring = Ok (map unescape_token (map classify raw)).
Proof.
  intros H. unfold deparse. rewrite _parse_raw, H. cbn [bind].
  rewrite _termdicts_classify. cbn [bind]. apply _unreplace_eq.
Qed.

(** C3.  [deparse] returns a token sequence on every input string,
    malformed ones included: no stage of the pipeline raises. *)
Theorem deparse_never_raises (qstring : string) :
  exists ts : list token, deparse qstring = Ok ts.
Proof.
  destruct (raw_tokens_total qstring) as [raw H].
  eexists. apply deparse_eq. exact H.
Qed.

(** Unbalanced parentheses, an unterminated quote and an unterminated
    range are tokenized as they come. *)
Lemma deparse_malformed_examples :
  deparse "a:(b c" =
    Ok [Term (mkTerm (Some "a") "("); Term (mkTerm None "b");
        Term (mkTerm None "c")] /\
  deparse (DQ ++ "open access") =
    Ok [Term (mkTerm None (DQ ++ "open")); Term (mkTerm None "access")] /\
  deparse "date:[1 TO 2" =
    Ok [Term (mkTerm (Some "date") "[1"); Term (mkTerm None "TO");
        Term (mkTerm None "2")].
Proof. repeat split; vm_compute; reflexivity. Qed.

(** ** The documented example and the inputs on which the code departs
    from its specification *)

(** C2.  The example of the module's documentation: [deparse] returns the
    three terms author/Meier, tags/( water OR fire ) and the global term
    "open access" with its quotes, in this order. *)
Theorem deparse_documented_example :
  deparse example_query =
  Ok [Term (mkTerm (Some "author") "Meier");
      Term (mkTerm (Some "tags") "( water OR fire )");
      Term (mkTerm None (DQ ++ "open access" ++ DQ))].
Proof. vm_compute. reflexivity. Qed.

(** [re.match] looks for an operator at the start of the token. *)
Lemma re_match_nonterms (t : string) :
  re_match nonterms t = existsb (fun p => prefix p t) operators.
Proof.
  unfold re_match, match_at, nonterms, operators. cbn [rx existsb].
  rewrite !lit_at_spec.
  repeat match goal with
         | |- context [prefix ?p t] => destruct (prefix p t); cbn [orb]
         end; reflexivity.
Qed.

(** C4.  The token ORANGE is none of the eight operator strings, yet the
    classifier leaves it as a literal: the operator pattern is matched at
    the start of the token only, so the token need not end there. *)
Theorem classifier_matches_prefix :
  is_operator "ORANGE" = false /\
  _termdicts ["ORANGE"] = Ok [Literal "ORANGE"] /\
  deparse "ORANGE juice" = Ok [Literal "ORANGE"; Term (mkTerm None "juice")].
Proof. repeat split; vm_compute; reflexivity. Qed.

(** C5.  On the token a:b:c the classifier keeps the text between the
    first and the second colon as the term; the text after the second
    colon is lost. *)
Theorem classifier_drops_after_second_colon :
  _termdicts ["a:b:c"] = Ok [Term (mkTerm (Some "a") "b")] /\
  deparse "a:b:c" = Ok [Term (mkTerm (Some "a") "b")].
Proof. split; vm_compute; reflexivity. Qed.

(** C6.  A token that starts with OR and goes on with an escaped quote
    stays a literal, which the unescaper skips: the marker of the quote
    is in the output. *)
Theorem deparse_literal_keeps_marker :
  deparse ("OR" ++ BS ++ DQ) = Ok [Literal "OR_&_QUOT_&_"] /\
  token_marker_free (Literal "OR_&_QUOT_&_") = false.
Proof. split; vm_compute; reflexivity. Qed.

(** C8.  The colon after one backslash is treated like any colon: the
    blank after it is removed.  The look-behind of the pattern asks for
    two backslashes, and only then is the colon left alone. *)
Theorem stripspaces_rewrites_escaped_colon :
  _stripspaces ("a" ++ BS ++ ": b") = Ok ("a" ++ BS ++ ":b") /\
  _stripspaces ("a" ++ BS ++ BS ++ ": b") = Ok ("a" ++ BS ++ BS ++ ": b") /\
  deparse ("a" ++ BS ++ ": b") = Ok [Term (mkTerm None ("a" ++ BS ++ ":b"))].
Proof. repeat split; vm_compute; reflexivity. Qed.

(** C9, as stated, fails: the query :a gives a term whose field is the
    empty string. *)
Lemma deparse_empty_field :
  ~ (forall ts, deparse ":a" = Ok ts -> Forall field_ok ts).
Proof.
  intros H.
  assert (E : deparse ":a" = Ok [Term (mkTerm (Some "") "a")])
    by (vm_compute; reflexivity).
  specialize (H _ E). inversion H as [|t l F _]; subst.
  apply F. reflexivity.
Qed.

(** A query that holds the marker of a blank gives one term with a blank
    inside, which is two terms when the assembled string is parsed
    again. *)
Lemma roundtrip_splits_marker_term :
  deparse "a_&_SPACE_&_b" = Ok [Term (mkTerm None "a b")] /\
  deparse (assemble [Term (mkTerm None "a b")]) =
  Ok [Term (mkTerm None "a"); Term (mkTerm None "b")].
Proof. split; vm_compute; reflexivity. Qed.

(** The field group of the documented example: the assembled string is
    padded again around its parentheses, so the term of the second parse
    has wider blanks than the term of the first. *)
Lemma roundtrip_widens_group :
  deparse (assemble
    [Term (mkTerm (Some "author") "Meier");
     Term (mkTerm (Some "tags") "( water OR fire )");
     Term (mkTerm None (DQ ++ "open access" ++ DQ))]) =
  Ok [Term (mkTerm (Some "author") "Meier");
      Term (mkTerm (Some "tags") "(  water OR fire  )");
      Term (mkTerm None (DQ ++ "open access" ++ DQ))].
Proof. vm_compute. reflexivity. Qed.


(** Nested parentheses in a field group: each round trip widens the
    blanks inside the term. *)
Lemma roundtrip_widens_nested_group :
  deparse "a:((b))" = Ok [Term (mkTerm (Some "a") "(  ( b )"); Literal ")"] /\
  deparse (assemble [Term (mkTerm (Some "a") "(  ( b )"); Literal ")"]) =
  Ok [Term (mkTerm (Some "a") "(    (  b  )"); Literal ")"].
Proof. split; vm_compute; reflexivity. Qed.

(** ** [assemble] on the store *)

Lemma assemble_loop (ds : list termdict) :
  forall (rest done : list value) (ts : list token) (acc : list string),
    resolve_all ds rest = Some ts ->
    for_range (List.length rest) (List.length done) assemble_body acc
      (mkStore (done ++ rest) ds)
    = Ok ((acc ++ map assemble_item ts)%list, mkStore (done ++ rest) ds).
Proof.
  induction rest as [|v rest IH]; intros done ts acc H.
  - injection H as <-. simpl. unfold ret. rewrite !app_nil_r. reflexivity.
  - simpl in H.
    destruct (resolve_value ds v) as [t|] eqn:Ev; [|discriminate].
    destruct (resolve_all ds rest) as [ts'|] eqn:Er; [|discriminate].
    injection H as <-.
    specialize (IH (done ++ [v])%list ts' (acc ++ [assemble_item t])%list eq_refl).
    rewrite length_app, Nat.add_1_r, <- !app_assoc in IH. cbn [app] in IH.
    cbn [List.length for_range]. unfold bindS at 1.
    assert (B : assemble_body (List.length done) acc (mkStore (done ++ v :: rest) ds)
                = Ok ((acc ++ [assemble_item t])%list,
                      mkStore (done ++ v :: rest) ds)).
    { unfold assemble_body, bindS, get_item, list_get. cbn [items].
      rewrite nth_error_app2 by lia. rewrite Nat.sub_diag. cbn [nth_error bind].
      destruct v as [s|a]; simpl in Ev.
      - injection Ev as <-. reflexivity.
      - unfold dict_load, list_get. cbn [dicts].
        destruct (nth_error ds a) as [d|]; [|discriminate].
        injection Ev as <-. reflexivity. }
    rewrite B. exact IH.
Qed.

Lemma refs_ok_resolve (st : store) :
  refs_ok st = true -> exists ts, resolve st = Some ts.
Proof.
  unfold refs_ok, resolve. generalize (dicts st) as ds.
  induction (items st) as [|v vs IH]; intros ds H.
  - exists []. reflexivity.
  - simpl in H. apply andb_true_iff in H. destruct H as [Hv H].
    destruct (IH ds H) as [ts Hts]. simpl. rewrite Hts.
    destruct v as [s|a]; simpl.
    + eexists. reflexivity.
    + apply Nat.ltb_lt in Hv. apply nth_error_Some in Hv.
      destruct (nth_error ds a); [|contradiction]. eexists. reflexivity.
Qed.

(** C10.  [assemble] does not modify its argument: it returns the
    assembled string and the store it was given, with the same list, the
    same strings and the same values in every dictionary. *)
Theorem assemble_leaves_argument (st : store) :
  refs_ok st = true ->
  exists ts, resolve st = Some ts /\ assemble_st st = Ok (assemble ts, st).
Proof.
  intros H. destruct (refs_ok_resolve st H) as [ts Hts].
  exists ts. split; [exact Hts|].
  unfold assemble_st, bindS, list_len.
  pose proof (assemble_loop (dicts st) (items st) [] ts [] Hts) as L.
  destruct st as [vs ds]. cbn [items dicts app List.length] in *.
  rewrite L. reflexivity.
Qed.

Lemma assemble_leaves_argument_witness :
  refs_ok example_store = true /\
  exists ts, resolve example_store = Some ts /\
             assemble_st example_store = Ok (assemble ts, example_store).
Proof.
  split; [reflexivity|].
  apply (assemble_leaves_argument example_store). reflexivity.
Defined.

(** [_unreplace], on the same store, does write: the dictionary at
    address 0 loses its marker. *)
Lemma unreplace_writes_store :
  _unreplace_st example_store =
  Ok (tt, mkStore (items example_store)
            [mkTerm (Some "a") "x y"; mkTerm None "z"]).
Proof. vm_compute. reflexivity. Qed.

(** ** The empty field *)

Lemma str_replace_truthy (x t s : string) :
  truthy t = true -> truthy s = true -> truthy (str_replace x t s) = true.
Proof.
  intros Ht Hs. destruct s as [|d s]; [discriminate|].
  destruct t as [|t0 t]; [discriminate|].
  unfold str_replace, finditer. simpl scan.
  destruct (match_at (Lit x) [] (String d s)) as [[|j]|]; reflexivity.
Qed.

Lemma steps_truthy (ps : list (string * string)) (v : string) :
  forallb (fun p => truthy (snd p)) ps = true ->
  truthy v = true -> truthy (replace_steps ps v) = true.
Proof.
  revert v. induction ps as [|[x t] ps IH]; intros v H Hv; [exact Hv|].
  simpl in H. apply andb_true_iff in H. destruct H as [Ht H].
  simpl. apply IH; [exact H|]. apply str_replace_truthy; assumption.
Qed.

Lemma unescape_if_truthy (v : string) : truthy (unescape_if v) = truthy v.
Proof.
  unfold unescape_if. destruct (truthy v) eqn:E; [|exact E].
  apply steps_truthy; [reflexivity | exact E].
Qed.

Lemma match_at_colon (b : list ascii) (c : ascii) (s : string) :
  match_at colon_pat b (String c s) <> None -> c = ":"%char.
Proof.
  unfold match_at, colon_pat. cbn [rx lit_at].
  destruct (starts_with _ b); [congruence|].
  destruct (Ascii.eqb ":" c) eqn:E; [|congruence].
  intros _. apply Ascii.eqb_eq in E. symmetry. exact E.
Qed.

(** The first part of a token split at its colons is empty exactly when
    the token begins with a colon. *)
Lemma prefix_colon_cons (c : ascii) (r : string) :
  prefix ":" (String c r) = true <-> c = ":"%char.
Proof.
  rewrite prefix_cons. destruct r; cbn [prefix]; rewrite andb_true_r;
    rewrite Ascii.eqb_eq; split; congruence.
Qed.

Lemma re_split_colon_head (r : string) :
  exists (p0 : string) (rest : list string),
    re_split colon_pat r = (p0 :: rest)%list /\
    (prefix ":" r = true -> p0 = "" /\ rest <> []) /\
    (prefix ":" r = false -> rest <> [] -> truthy p0 = true).
Proof.
  unfold re_split, finditer. destruct r as [|c r].
  - exists "", []. split; [reflexivity|]. split; [intros Q; discriminate Q|].
    intros _ N. contradiction.
  - destruct (ascii_dec c ":") as [->|N].
    + simpl scan. cbn [split_pieces].
      exists "", (split_pieces (scan colon_pat [":"%char] 0 r)).
      split; [reflexivity|]. split.
      * intros _. split; [reflexivity | apply split_pieces_nonempty].
      * intros Q. assert (T : prefix ":" (String ":" r) = true)
          by (apply prefix_colon_cons; reflexivity).
        congruence.
    + assert (M : match_at colon_pat [] (String c r) = None).
      { destruct (match_at colon_pat [] (String c r)) eqn:E; [|reflexivity].
        exfalso. apply N. apply (match_at_colon [] c r). congruence. }
      assert (P : prefix ":" (String c r) <> true).
      { intros P. apply prefix_colon_cons in P. contradiction. }
      simpl scan. rewrite M. cbn [split_pieces].
      destruct (split_pieces (scan colon_pat [c] 0 r)) as [|x xs].
      * exists (str1 c), []. split; [reflexivity|].
        split; [intros Q; contradiction | reflexivity].
      * exists (String c x), xs. split; [reflexivity|].
        split; [intros Q; contradiction | reflexivity].
Qed.

Lemma classify_field_empty (r : string) (d : termdict) :
  unescape_token (classify r) = Term d ->
  (field d = Some "" <-> prefix ":" r = true).
Proof.
  unfold classify. destruct (re_match nonterms r); [discriminate|].
  destruct (re_split_colon_head r) as (p0 & rest & -> & H1 & H2).
  destruct (prefix ":" r) eqn:P.
  - destruct (H1 eq_refl) as [-> Hrest].
    destruct rest as [|p1 rest]; [contradiction|].
    simpl. intros E. injection E as <-. simpl. split; reflexivity.
  - destruct rest as [|p1 rest]; simpl; intros E; injection E as <-; simpl.
    + split; discriminate.
    + split; [|discriminate]. intros F. injection F as F.
      pose proof (unescape_if_truthy p0) as T.
      rewrite F, H2 in T by (reflexivity || discriminate). discriminate.
Qed.

(** C9, amended.  [deparse] returns one token for each raw token of the
    tokenizer, and a term has the empty string as its field exactly when
    its raw token begins with a colon; the field of every other term is
    [None] or a string that is not empty. *)
Theorem deparse_field_empty_iff_leading_colon (qstring : string) :
  exists (raw : list string) (ts : list token),
    raw_tokens qstring = Ok raw /\
    deparse qstring = Ok ts /\
    Forall2 (fun r t => forall d, t = Term d ->
                                  (field d = Some "" <-> prefix ":" r = true))
      raw ts.
Proof.
  destruct (raw_tokens_total qstring) as [raw H].
  exists raw, (map unescape_token (map classify raw)).
  split; [exact H|]. split; [apply deparse_eq; exact H|].
  clear H. induction raw as [|r raw IH]; simpl; constructor; [|exact IH].
  intros d E. apply classify_field_empty. exact E.
Qed.

(** ** Strings without the characters that the pipeline rewrites *)

Lemma all_chars_app (p : ascii -> bool) (a b : string) :
  all_chars p (a ++ b) = all_chars p a && all_chars p b.
Proof.
  induction a as [|c a IH]; simpl; [reflexivity|].
  rewrite IH, andb_assoc. reflexivity.
Qed.

Lemma all_chars_mem (p : ascii -> bool) (c : ascii) (s : string) :
  all_chars p s = true -> p c = false -> mem c s = false.
Proof.
  intros H Hc. induction s as [|d s IH]; [reflexivity|].
  simpl in H. apply andb_true_iff in H. destruct H as [Hd H].
  simpl. rewrite (IH H), orb_false_r.
  destruct (Ascii.eqb c d) eqn:E; [|reflexivity].
  apply Ascii.eqb_eq in E. subst d. congruence.
Qed.

Lemma all_chars_weaken (p q : ascii -> bool) (s : string) :
  (forall c, p c = true -> q c = true) ->
  all_chars p s = true -> all_chars q s = true.
Proof.
  intros Hpq. induction s as [|d s IH]; simpl; [reflexivity|].
  intros H. apply andb_true_iff in H. destruct H as [Hd H].
  rewrite (Hpq d Hd), (IH H). reflexivity.
Qed.

Lemma prefix_mem (x s : string) (c : ascii) :
  prefix x s = true -> mem c x = true -> mem c s = true.
Proof.
  revert s. induction x as [|a x IH]; intros s H Hc; [discriminate|].
  destruct s as [|d s]; [discriminate|].
  rewrite prefix_cons in H. apply andb_true_iff in H. destruct H as [H1 H2].
  apply Ascii.eqb_eq in H1. subst d.
  simpl in Hc |- *. apply orb_true_iff in Hc. apply orb_true_iff.
  destruct Hc as [Hc|Hc]; [left; exact Hc | right; apply IH; assumption].
Qed.

Lemma prefix_absent (x s : string) (c : ascii) :
  mem c x = true -> mem c s = false -> prefix x s = false.
Proof.
  intros Hx Hs. destruct (prefix x s) eqn:E; [|reflexivity].
  rewrite (prefix_mem x s c E Hx) in Hs. discriminate.
Qed.

Lemma mem_tail (c d : ascii) (s : string) :
  mem c (String d s) = false -> mem c s = false.
Proof. cbn [mem]. intros H. apply orb_false_iff in H. apply H. Qed.

Lemma contains_absent (x s : string) (c : ascii) :
  mem c x = true -> mem c s = false -> contains x s = false.
Proof.
  intros Hx. induction s as [|d s IH]; intros Hs.
  - cbn [contains]. rewrite (prefix_absent x "" c Hx Hs). reflexivity.
  - rewrite contains_cons, (prefix_absent x _ c Hx Hs).
    apply IH. exact (mem_tail c d s Hs).
Qed.

(** A pattern that cannot match where [c] is missing finds nothing in a
    string without [c]. *)
Lemma scan_absent (r : regex) (c : ascii) :
  (forall b s, mem c s = false -> match_at r b s = None) ->
  forall (s : string) (b : list ascii) (j : nat),
    mem c s = false -> hits (scan r b j s) = [].
Proof.
  intros Hr. induction s as [|d s IH]; intros b j Hs.
  - destruct j; simpl; [|reflexivity]. rewrite (Hr b "" Hs). reflexivity.
  - destruct j; simpl.
    + rewrite (Hr b _ Hs). simpl. apply IH. exact (mem_tail c d s Hs).
    + apply IH. exact (mem_tail c d s Hs).
Qed.

Lemma range_pat_absent (o cl : string) (c : ascii) :
  mem c o = true ->
  forall b s, mem c s = false -> match_at (range_pat o cl) b s = None.
Proof.
  intros Ho b s Hs. unfold match_at, range_pat. cbn [rx].
  destruct (starts_with _ b); [reflexivity|].
  rewrite lit_at_spec, (prefix_absent o s c Ho Hs). reflexivity.
Qed.

Lemma quoted_absent :
  forall b s, mem dquote s = false -> match_at quoted b s = None.
Proof.
  intros b s Hs. unfold match_at, quoted. cbn [rx].
  rewrite lit_at_spec, (prefix_absent DQ s dquote eq_refl Hs). reflexivity.
Qed.

(** Without a match the rewriting of ranges returns its subject. *)
Lemma _replace_in_range_nohit (q : string) (rangepats : list regex)
  (repair : regex * string) :
  (forall pat, In pat rangepats -> re_findall pat q = []) ->
  _replace_in_range q rangepats repair = Ok q.
Proof.
  unfold _replace_in_range. induction rangepats as [|pat pats IH]; intros H.
  - reflexivity.
  - cbn [foldM]. rewrite (H pat (or_introl eq_refl)). cbn [mapM bind combine fold_left].
    apply IH. intros p Hp. apply H. right. exact Hp.
Qed.

Lemma _repspaces_in_ranges_plain (s : string) :
  mem "{"%char s = false -> mem "["%char s = false ->
  mem "/"%char s = false -> mem dquote s = false ->
  _repspaces_in_ranges s = Ok s.
Proof.
  intros H1 H2 H3 H4. unfold _repspaces_in_ranges.
  assert (N : forall pat, In pat [rangeex; rangeinc; regex_pat; quoted] ->
                          re_findall pat s = []).
  { intros pat Hp. unfold re_findall, finditer. simpl in Hp.
    destruct Hp as [<-|[<-|[<-|[<-|[]]]]].
    - apply (scan_absent _ "{"%char); [apply range_pat_absent; reflexivity | exact H1].
    - apply (scan_absent _ "["%char); [apply range_pat_absent; reflexivity | exact H2].
    - apply (scan_absent _ "/"%char); [apply range_pat_absent; reflexivity | exact H3].
    - apply (scan_absent _ dquote); [apply quoted_absent | exact H4]. }
  cbn [foldM].
  repeat (rewrite _replace_in_range_nohit by exact N; cbn [bind]).
  reflexivity.
Qed.

Lemma re_sub_lit_plain (x tmpl t s : string) (c : ascii) :
  expand_template tmpl = Ok t ->
  mem c x = true -> mem c s = false ->
  re_sub (Lit x) tmpl s = Ok s.
Proof.
  intros Ht Hx Hs. rewrite (re_sub_lit x tmpl t s Ht).
  rewrite str_replace_absent; [reflexivity|].
  exact (contains_absent x s c Hx Hs).
Qed.

(** A pattern that starts with a literal finds nothing where the literal
    does not occur. *)
Lemma scan_lit_absent (r : regex) (l : string) :
  (forall b s, prefix l s = false -> match_at r b s = None) ->
  forall (s : string) (b : list ascii) (j : nat),
    contains l s = false -> hits (scan r b j s) = [].
Proof.
  intros Hr. induction s as [|d s IH]; intros b j Hs.
  - destruct j; simpl; [|reflexivity].
    cbn [contains] in Hs. rewrite orb_false_r in Hs.
    rewrite (Hr b "" Hs). reflexivity.
  - rewrite contains_cons in Hs. apply orb_false_iff in Hs. destruct Hs as [H1 H2].
    destruct j; simpl.
    + rewrite (Hr b _ H1). simpl. apply IH. exact H2.
    + apply IH. exact H2.
Qed.

Lemma _repspaces_in_subqueries_nogroup (s : string) :
  contains ":(" s = false -> _repspaces_in_subqueries s = Ok s.
Proof.
  intros H. unfold _repspaces_in_subqueries.
  assert (N : forall pat, In pat [subquery_pat] -> re_findall pat s = []).
  { intros pat [<-|[]]. unfold re_findall, finditer.
    apply (scan_lit_absent _ ":("); [|exact H].
    intros b x Hx. unfold match_at, subquery_pat. cbn [rx].
    rewrite lit_at_spec, Hx. reflexivity. }
  cbn [foldM].
  repeat (rewrite _replace_in_range_nohit by exact N; cbn [bind]).
  reflexivity.
Qed.

(** ** The padding of parentheses *)

Lemma _addparenswhitespace_eq (s : string) :
  _addparenswhitespace s = Ok (pad_parens s).
Proof.
  unfold _addparenswhitespace, re_sub_with, finditer.
  generalize (@nil ascii) as b.
  induction s as [|d s IH]; intros b; [reflexivity|].
  simpl scan. unfold match_at. cbn [rx in_class pad_parens].
  destruct (mem d "()") eqn:E.
  - cbn [take sub_pieces]. rewrite IH.
    cbn [mem] in E. rewrite orb_false_r in E. apply orb_true_iff in E.
    destruct E as [E|E]; apply Ascii.eqb_eq in E; subst d; reflexivity.
  - cbn [sub_pieces]. rewrite IH. reflexivity.
Qed.

Lemma pad_parens_app (a b : string) :
  pad_parens (a ++ b) = pad_parens a ++ pad_parens b.
Proof.
  induction a as [|c a IH]; [reflexivity|].
  cbn [append pad_parens]. rewrite IH.
  destruct (mem c "()"); reflexivity.
Qed.

Lemma pad_parens_id (w : string) :
  mem "("%char w = false -> mem ")"%char w = false -> pad_parens w = w.
Proof.
  induction w as [|c w IH]; intros H1 H2; [reflexivity|].
  cbn [mem] in H1, H2. apply orb_false_iff in H1. apply orb_false_iff in H2.
  destruct H1 as [E1 H1], H2 as [E2 H2].
  cbn [pad_parens mem].
  rewrite (Ascii.eqb_sym c "("%char), E1, (Ascii.eqb_sym c ")"%char), E2.
  cbn [orb]. rewrite (IH H1 H2). reflexivity.
Qed.

Lemma pad_parens_join (l : list string) :
  pad_parens (str_join " " l) = str_join " " (map pad_parens l).
Proof.
  induction l as [|x l IH]; [reflexivity|].
  destruct l as [|y l]; [reflexivity|].
  change (str_join " " (x :: y :: l)) with (x ++ " " ++ str_join " " (y :: l)).
  rewrite !pad_parens_app, IH. reflexivity.
Qed.

(** ** The colon normalization on an assembled string *)

Lemma mem_false_eqb (c d : ascii) (s : string) :
  mem c s = false -> mem d s = true -> Ascii.eqb d c = false.
Proof.
  intros Hc Hd. destruct (Ascii.eqb d c) eqn:E; [|reflexivity].
  apply Ascii.eqb_eq in E. subst d. congruence.
Qed.

Lemma plain_char_inv (c : ascii) :
  plain_char c = true -> isspace c = false /\ mem c special_chars = false.
Proof.
  unfold plain_char. intros H. apply andb_true_iff in H. destruct H as [H1 H2].
  apply negb_true_iff in H1. apply negb_true_iff in H2. split; assumption.
Qed.

Lemma plain_not_colon (c : ascii) : plain_char c = true -> Ascii.eqb ":" c = false.
Proof.
  intros H. apply plain_char_inv in H. destruct H as [_ H].
  apply (mem_false_eqb c ":"%char special_chars H). reflexivity.
Qed.

Lemma plain_not_backslash (c : ascii) :
  plain_char c = true -> Ascii.eqb backslash c = false.
Proof.
  intros H. apply plain_char_inv in H. destruct H as [_ H].
  apply (mem_false_eqb c backslash special_chars H). reflexivity.
Qed.

Lemma isspace_blank : isspace " " = true.
Proof. reflexivity. Qed.

Lemma isspace_colon : isspace ":" = false.
Proof. reflexivity. Qed.

Lemma space_not_colon (c : ascii) : isspace c = true -> Ascii.eqb ":" c = false.
Proof.
  intros H. destruct (Ascii.eqb ":" c) eqn:E; [|reflexivity].
  apply Ascii.eqb_eq in E. subst c. discriminate H.
Qed.

Lemma blank_run_ok_head (s : string) :
  blank_run_ok s = true -> prefix ":" s = false.
Proof.
  destruct s as [|c s]; [reflexivity|]. cbn [blank_run_ok]. intros H.
  rewrite prefix_cons. destruct (isspace c) eqn:E.
  - rewrite (space_not_colon c E). reflexivity.
  - apply negb_true_iff in H. rewrite H. reflexivity.
Qed.

(** Blanks that no colon follows are not matched. *)
Lemma sp_miss (s : string) :
  blank_run_ok s = true -> forall b, match_at stripspaces_pat b s = None.
Proof.
  unfold match_at, stripspaces_pat. cbn [rx].
  generalize 0 as n.
  set (K := fun (b : list ascii) (s : string) (n : nat) =>
              if starts_with (rev_chars (BS ++ BS) []) b then None
              else lit_at ":" (star_greedy (in_class Space) (fun _ _ n => Some n)) b s n).
  assert (HK : forall b x n, prefix ":" x = false -> K b x n = None).
  { intros b x n Hx. unfold K. rewrite lit_at_spec, Hx.
    destruct (starts_with _ b); reflexivity. }
  change (forall n, blank_run_ok s = true ->
          forall b, star_greedy (in_class Space) K b s n = None).
  induction s as [|c s IH]; intros n H b.
  - apply HK. reflexivity.
  - cbn [star_greedy in_class]. pose proof (blank_run_ok_head _ H) as P.
    cbn [blank_run_ok] in H. destruct (isspace c).
    + rewrite (IH (S n) H). apply HK. exact P.
    + apply HK. exact P.
Qed.

Lemma sp_hit (b : list ascii) (d : ascii) (s : string) :
  isspace d = false ->
  match_at stripspaces_pat b (" : " ++ String d s) = Some 3.
Proof.
  intros H1. unfold match_at, stripspaces_pat.
  cbn [append rx star_greedy in_class lit_at].
  rewrite isspace_blank, isspace_colon, H1.
  change (Ascii.eqb ":" ":") with true.
  change (starts_with (rev_chars (BS ++ BS) []) (" "%char :: b)) with false.
  reflexivity.
Qed.

Lemma append_assoc (a b c : string) : (a ++ b) ++ c = a ++ (b ++ c).
Proof. induction a as [|x a IH]; simpl; [reflexivity | rewrite IH; reflexivity]. Qed.

Lemma append_nil_r (a : string) : a ++ "" = a.
Proof. induction a as [|x a IH]; simpl; [reflexivity | rewrite IH; reflexivity]. Qed.

Lemma strip_end (b : list ascii) :
  plain_pieces ":" (scan stripspaces_pat b 0 "") = "".
Proof. cbn [scan]. rewrite sp_miss by reflexivity. reflexivity. Qed.

Lemma blank_run_ok_plain (c : ascii) (s : string) :
  plain_char c = true -> blank_run_ok (String c s) = true.
Proof.
  intros H. cbn [blank_run_ok]. rewrite (proj1 (plain_char_inv c H)).
  rewrite (plain_not_colon c H). reflexivity.
Qed.

Lemma blank_run_ok_app (w s : string) :
  mem ":"%char w = false -> blank_run_ok s = true -> blank_run_ok (w ++ s) = true.
Proof.
  intros Hw Hs. induction w as [|c w IH]; [exact Hs|].
  cbn [mem] in Hw. apply orb_false_iff in Hw. destruct Hw as [E Hw].
  cbn [append blank_run_ok]. rewrite E. destruct (isspace c); [apply IH; exact Hw|].
  reflexivity.
Qed.

(** A word is copied. *)
Lemma strip_word (w s : string) :
  all_chars plain_char w = true ->
  forall b,
    plain_pieces ":" (scan stripspaces_pat b 0 (w ++ s)) =
    w ++ plain_pieces ":" (scan stripspaces_pat (rev_chars w b) 0 s).
Proof.
  induction w as [|c w IH]; intros H b; [reflexivity|].
  cbn [all_chars] in H. apply andb_true_iff in H. destruct H as [Hc H].
  cbn [append scan]. rewrite sp_miss by (apply blank_run_ok_plain; exact Hc).
  cbn [plain_pieces rev_chars]. rewrite (IH H). reflexivity.
Qed.

(** Text without a colon is copied when no colon follows its last
    blanks. *)
Lemma strip_copy (w s : string) :
  mem ":"%char w = false -> blank_run_ok s = true ->
  forall b,
    plain_pieces ":" (scan stripspaces_pat b 0 (w ++ s)) =
    w ++ plain_pieces ":" (scan stripspaces_pat (rev_chars w b) 0 s).
Proof.
  intros Hw Hs. induction w as [|c w IH]; intros b; [reflexivity|].
  pose proof (blank_run_ok_app _ _ Hw Hs) as B.
  cbn [mem] in Hw. apply orb_false_iff in Hw. destruct Hw as [_ Hw].
  cbn [append scan] in B |- *. rewrite sp_miss by exact B.
  cbn [plain_pieces rev_chars]. rewrite (IH Hw). reflexivity.
Qed.

Lemma strip_colon (b : list ascii) (d : ascii) (s : string) :
  plain_char d = true ->
  plain_pieces ":" (scan stripspaces_pat b 0 (" : " ++ String d s)) =
  ":" ++ plain_pieces ":"
           (scan stripspaces_pat (" "%char :: ":"%char :: " "%char :: b) 0 (String d s)).
Proof.
  intros Hd.
  pose proof (sp_hit b d s (proj1 (plain_char_inv d Hd))) as M.
  cbn [append] in M |- *. cbn [scan]. rewrite M. reflexivity.
Qed.

(** ** Plain tokens *)

Lemma plain_word_inv (w : string) :
  plain_word w = true ->
  all_chars plain_char w = true /\
  exists d w', w = String d w' /\ plain_char d = true.
Proof.
  unfold plain_word. intros H. apply andb_true_iff in H. destruct H as [T H].
  split; [exact H|]. destruct w as [|d w']; [discriminate|].
  exists d, w'. split; [reflexivity|].
  cbn [all_chars] in H. apply andb_true_iff in H. apply H.
Qed.

Lemma plain_token_shape (t : token) : plain_token t = true -> plain_shape t.
Proof.
  destruct t as [s|[[f|] w]]; cbn [plain_token field term]; intros H.
  - apply orb_true_iff in H. destruct H as [H|H].
    + unfold is_paren in H. apply orb_true_iff in H.
      destruct H as [H|H]; apply String.eqb_eq in H; subst s; constructor.
    + apply andb_true_iff in H. destruct H as [H1 H2]. constructor; assumption.
  - apply andb_true_iff in H. destruct H as [H H3].
    apply andb_true_iff in H. destruct H as [H1 H2].
    apply negb_true_iff in H2. constructor; assumption.
  - apply andb_true_iff in H. destruct H as [H1 H2].
    apply negb_true_iff in H2. constructor; assumption.
Qed.

Lemma plain_word_pad (w : string) : plain_word w = true -> pad_parens w = w.
Proof.
  intros H. apply plain_word_inv in H. destruct H as [H _].
  apply pad_parens_id; apply (all_chars_mem plain_char); try exact H; reflexivity.
Qed.

Lemma plain_word_head_ok (w s : string) :
  plain_word w = true -> blank_run_ok (w ++ s) = true.
Proof.
  intros H. apply plain_word_inv in H. destruct H as [_ (d & w' & -> & Hd)].
  apply blank_run_ok_plain. exact Hd.
Qed.

(** An assembled item, padded, and what the colon normalization makes of
    it: the raw token, padded. *)
Lemma padded_item (t : token) :
  plain_shape t ->
  pad_parens (assemble_item t) =
  match t with
  | Literal s => pad_parens s
  | Term (mkTerm (Some f) w) => f ++ " : " ++ w
  | Term (mkTerm None w) => w
  end.
Proof.
  intros [| |w Hw Hm|w Hw Hm|f w Hf Hm Hw]; cbn [assemble_item field term];
    try reflexivity.
  - apply plain_word_pad. exact Hw.
  - pose proof (plain_word_inv f Hf) as [_ (d & f' & E & _)].
    rewrite E at 1. cbn [truthy].
    rewrite !pad_parens_app, (plain_word_pad f Hf), (plain_word_pad w Hw).
    apply append_assoc.
Qed.

Lemma padded_raw (t : token) :
  plain_shape t ->
  pad_parens (raw_of t) =
  match t with
  | Literal s => pad_parens s
  | Term (mkTerm (Some f) w) => f ++ ":" ++ w
  | Term (mkTerm None w) => w
  end.
Proof.
  intros [| |w Hw Hm|w Hw Hm|f w Hf Hm Hw]; cbn [raw_of field term];
    try reflexivity.
  - apply plain_word_pad. exact Hw.
  - rewrite !pad_parens_app, (plain_word_pad f Hf), (plain_word_pad w Hw).
    reflexivity.
Qed.

Lemma padded_item_head_ok (t : token) (s : string) :
  plain_shape t -> blank_run_ok (pad_parens (assemble_item t) ++ s) = true.
Proof.
  intros H. rewrite (padded_item t H).
  destruct H as [| |w Hw Hm|w Hw Hm|f w Hf Hm Hw]; try reflexivity.
  - rewrite (plain_word_pad w Hw). apply plain_word_head_ok. exact Hw.
  - apply plain_word_head_ok. exact Hw.
  - rewrite append_assoc. apply plain_word_head_ok. exact Hf.
Qed.

Lemma strip_item (t : token) (s : string) :
  plain_shape t -> blank_run_ok s = true ->
  forall b, exists b',
    plain_pieces ":" (scan stripspaces_pat b 0 (pad_parens (assemble_item t) ++ s)) =
    pad_parens (raw_of t) ++ plain_pieces ":" (scan stripspaces_pat b' 0 s).
Proof.
  intros H Hs b. rewrite (padded_item t H), (padded_raw t H).
  destruct H as [| |w Hw Hm|w Hw Hm|f w Hf Hm Hw].
  - eexists. apply strip_copy; [reflexivity | exact Hs].
  - eexists. apply strip_copy; [reflexivity | exact Hs].
  - rewrite (plain_word_pad w Hw). apply plain_word_inv in Hw.
    eexists. apply strip_word. apply Hw.
  - apply plain_word_inv in Hw. eexists. apply strip_word. apply Hw.
  - apply plain_word_inv in Hf. destruct Hf as [Hf _].
    apply plain_word_inv in Hw. destruct Hw as [Hw (d & w' & -> & Hd)].
    eexists. rewrite !append_assoc. rewrite (strip_word f _ Hf).
    change (String d w' ++ s) with (String d (w' ++ s)).
    rewrite strip_colon by exact Hd.
    change (String d (w' ++ s)) with (String d w' ++ s).
    rewrite (strip_word _ _ Hw). reflexivity.
Qed.

Lemma plain_shapes (ts : list token) :
  forallb plain_token ts = true -> Forall plain_shape ts.
Proof.
  intros H. apply Forall_forall. intros t Ht. apply plain_token_shape.
  rewrite forallb_forall in H. apply H. exact Ht.
Qed.

Lemma padded_join_head_ok (ts : list token) :
  Forall plain_shape ts ->
  blank_run_ok (str_join " " (map pad_parens (map assemble_item ts))) = true.
Proof.
  intros H. destruct H as [|t ts Ht H]; [reflexivity|].
  cbn [map]. destruct (map pad_parens (map assemble_item ts)) as [|y ys].
  - cbn [str_join]. rewrite <- (append_nil_r (pad_parens _)).
    apply padded_item_head_ok. exact Ht.
  - change (str_join " " (?x :: y :: ys)) with (x ++ " " ++ str_join " " (y :: ys)).
    apply padded_item_head_ok. exact Ht.
Qed.

Lemma strip_assembled (ts : list token) :
  Forall plain_shape ts ->
  forall b,
    plain_pieces ":" (scan stripspaces_pat b 0 (pad_parens (assemble ts))) =
    pad_parens (str_join " " (map raw_of ts)).
Proof.
  unfold assemble. rewrite !pad_parens_join.
  induction 1 as [|t ts Ht H IH]; intros b.
  - apply strip_end.
  - destruct ts as [|t' ts].
    + cbn [map str_join].
      destruct (strip_item t "" Ht eq_refl b) as [b' E].
      rewrite append_nil_r in E. rewrite E, strip_end. apply append_nil_r.
    + pose proof (padded_join_head_ok _ H) as B.
      cbn [map] in B, IH |- *.
      change (str_join " " (?x :: ?y :: ?l)) with (x ++ " " ++ str_join " " (y :: l)).
      match goal with
      | |- context [scan _ b 0 (_ ++ ?r)] =>
          destruct (strip_item t r Ht B b) as [b' E]
      end.
      rewrite E. f_equal.
      rewrite (strip_copy " " _ eq_refl B). rewrite IH. reflexivity.
Qed.

(** ** No field group in a normalized plain string *)

Lemma group_skip (w s : string) :
  mem ":"%char w = false -> contains ":(" (w ++ s) = contains ":(" s.
Proof. apply contains_app_apart. Qed.

Lemma plain_word_skip (w s : string) :
  plain_word w = true -> contains ":(" (w ++ s) = contains ":(" s.
Proof.
  intros H. apply plain_word_inv in H. destruct H as [H _].
  apply group_skip. apply (all_chars_mem plain_char); [exact H | reflexivity].
Qed.

Lemma no_group_item (t : token) (s : string) :
  plain_shape t -> contains ":(" (pad_parens (raw_of t) ++ s) = contains ":(" s.
Proof.
  intros H. rewrite (padded_raw t H).
  destruct H as [| |w Hw Hm|w Hw Hm|f w Hf Hm Hw].
  - apply group_skip. reflexivity.
  - apply group_skip. reflexivity.
  - rewrite (plain_word_pad w Hw). apply plain_word_skip. exact Hw.
  - apply plain_word_skip. exact Hw.
  - rewrite !append_assoc, (plain_word_skip f _ Hf).
    pose proof (plain_word_inv w Hw) as [_ (d & w' & E & Hd)].
    rewrite E at 1.
    change (":" ++ String d w' ++ s) with (String ":" (String d (w' ++ s))).
    rewrite contains_cons, !prefix_cons.
    assert (P : Ascii.eqb "(" d = false).
    { apply plain_char_inv in Hd. destruct Hd as [_ Hd].
      apply (mem_false_eqb d "("%char special_chars Hd). reflexivity. }
    rewrite P, andb_false_r. cbn [orb].
    change (String d (w' ++ s)) with (String d w' ++ s). rewrite <- E.
    apply plain_word_skip. exact Hw.
Qed.

Lemma no_group_assembled (ts : list token) :
  Forall plain_shape ts ->
  contains ":(" (pad_parens (str_join " " (map raw_of ts))) = false.
Proof.
  rewrite pad_parens_join.
  induction 1 as [|t ts Ht H IH]; [reflexivity|].
  destruct ts as [|t' ts].
  - cbn [map str_join]. rewrite <- (append_nil_r (pad_parens _)).
    rewrite (no_group_item t "" Ht). reflexivity.
  - cbn [map] in IH |- *.
    change (str_join " " (?x :: ?y :: ?l)) with (x ++ " " ++ str_join " " (y :: l)).
    rewrite (no_group_item t _ Ht), (group_skip " " _ eq_refl). exact IH.
Qed.

(** ** Splitting at whitespace *)

Lemma str_split_word (w rest : string) :
  all_chars (fun c => negb (isspace c)) w = true -> truthy w = true ->
  rest = "" \/ (exists d r, rest = String d r /\ isspace d = true) ->
  str_split (w ++ rest) = w :: str_split rest.
Proof.
  intros H T Hrest. induction w as [|c w IH]; [discriminate|].
  cbn [all_chars] in H. apply andb_true_iff in H. destruct H as [Hc H].
  apply negb_true_iff in Hc.
  cbn [append str_split]. rewrite Hc.
  destruct w as [|c' w].
  - cbn [append]. destruct Hrest as [->|(d & r & -> & Hd)].
    + reflexivity.
    + rewrite Hd. reflexivity.
  - specialize (IH H eq_refl).
    cbn [all_chars] in H. apply andb_true_iff in H. destruct H as [Hc' _].
    apply negb_true_iff in Hc'.
    cbn [append] in IH |- *. rewrite Hc', IH. reflexivity.
Qed.

Lemma plain_no_space (c : ascii) :
  plain_char c || Ascii.eqb c ":" = true -> negb (isspace c) = true.
Proof.
  intros H. apply orb_true_iff in H. destruct H as [H|H].
  - apply plain_char_inv in H. destruct H as [H _]. rewrite H. reflexivity.
  - apply Ascii.eqb_eq in H. subst c. reflexivity.
Qed.

Lemma plain_word_solid (w : string) :
  plain_word w = true ->
  all_chars (fun c => negb (isspace c)) w = true /\ truthy w = true.
Proof.
  intros Hw. unfold plain_word in Hw. apply andb_true_iff in Hw.
  destruct Hw as [T Hw]. split; [|exact T].
  apply (all_chars_weaken plain_char); [|exact Hw].
  intros c Hc. apply plain_no_space. rewrite Hc. reflexivity.
Qed.

Lemma str_split_item (t : token) (rest : string) :
  plain_shape t ->
  rest = "" \/ (exists d r, rest = String d r /\ isspace d = true) ->
  str_split (pad_parens (raw_of t) ++ rest) = raw_of t :: str_split rest.
Proof.
  intros H Hrest. rewrite (padded_raw t H).
  assert (P : forall c : ascii, isspace c = false ->
            str_split (String " " (String c (String " " rest))) =
            str1 c :: str_split rest).
  { intros c Hc. cbn [str_split]. rewrite isspace_blank, Hc. reflexivity. }
  destruct H as [| |w Hw Hm|w Hw Hm|f w Hf Hm Hw]; cbn [raw_of field term].
  - apply (P "("%char). reflexivity.
  - apply (P ")"%char). reflexivity.
  - rewrite (plain_word_pad w Hw).
    destruct (plain_word_solid w Hw). apply str_split_word; assumption.
  - destruct (plain_word_solid w Hw). apply str_split_word; assumption.
  - destruct (plain_word_solid f Hf) as [F1 F2].
    destruct (plain_word_solid w Hw) as [W1 _].
    apply str_split_word; [| |exact Hrest].
    + rewrite !all_chars_app, F1, W1. reflexivity.
    + destruct f; [discriminate | reflexivity].
Qed.

Lemma str_split_assembled (ts : list token) :
  Forall plain_shape ts ->
  str_split (pad_parens (str_join " " (map raw_of ts))) = map raw_of ts.
Proof.
  rewrite pad_parens_join.
  induction 1 as [|t ts Ht H IH]; [reflexivity|].
  destruct ts as [|t' ts].
  - cbn [map str_join]. rewrite <- (append_nil_r (pad_parens _)).
    rewrite (str_split_item t "" Ht (or_introl eq_refl)). reflexivity.
  - cbn [map] in IH |- *.
    change (str_join " " (?x :: ?y :: ?l)) with (x ++ " " ++ str_join " " (y :: l)).
    rewrite (str_split_item t _ Ht).
    + f_equal. cbn [append str_split]. rewrite isspace_blank. exact IH.
    + right. exists " "%char. eexists. split; reflexivity.
Qed.

(** ** The characters of an assembled string *)

Lemma all_chars_join (p : ascii -> bool) (sep : string) (l : list string) :
  all_chars p sep = true ->
  (forall x, In x l -> all_chars p x = true) ->
  all_chars p (str_join sep l) = true.
Proof.
  intros Hsep. induction l as [|x l IH]; intros H; [reflexivity|].
  destruct l as [|y l].
  - apply H. left. reflexivity.
  - change (str_join sep (x :: y :: l)) with (x ++ sep ++ str_join sep (y :: l)).
    rewrite !all_chars_app, Hsep, (H x (or_introl eq_refl)).
    rewrite IH by (intros z Hz; apply H; right; exact Hz). reflexivity.
Qed.

Lemma plain_assembled (c : ascii) : plain_char c = true -> assembled_char c = true.
Proof. unfold assembled_char. intros ->. reflexivity. Qed.

Lemma plain_word_assembled (w : string) :
  plain_word w = true -> all_chars assembled_char w = true.
Proof.
  intros H. apply plain_word_inv in H. destruct H as [H _].
  exact (all_chars_weaken _ _ w plain_assembled H).
Qed.

Lemma assemble_item_chars (t : token) :
  plain_shape t -> all_chars assembled_char (assemble_item t) = true.
Proof.
  intros [| |w Hw Hm|w Hw Hm|f w Hf Hm Hw]; cbn [assemble_item field term];
    try reflexivity; try (apply plain_word_assembled; assumption).
  pose proof (plain_word_inv f Hf) as [_ (d & f' & E & _)].
  rewrite E at 1. cbn [truthy].
  rewrite !all_chars_app, (plain_word_assembled f Hf), (plain_word_assembled w Hw).
  reflexivity.
Qed.

Lemma assemble_chars (ts : list token) :
  Forall plain_shape ts -> all_chars assembled_char (assemble ts) = true.
Proof.
  intros H. unfold assemble. apply all_chars_join; [reflexivity|].
  intros x Hx. apply in_map_iff in Hx. destruct Hx as (t & <- & Ht).
  apply assemble_item_chars. rewrite Forall_forall in H. apply H. exact Ht.
Qed.

(** ** The classifier and the unescaper on raw plain tokens *)

Lemma colon_miss (b : list ascii) (s : string) :
  prefix ":" s = false -> match_at colon_pat b s = None.
Proof.
  intros H. unfold match_at, colon_pat. cbn [rx].
  rewrite lit_at_spec, H. destruct (starts_with _ b); reflexivity.
Qed.

Lemma plain_not_colon_prefix (c : ascii) (s : string) :
  plain_char c = true -> prefix ":" (String c s) = false.
Proof.
  intros H. rewrite prefix_cons, (plain_not_colon c H). reflexivity.
Qed.

Lemma split_no_colon (w : string) :
  all_chars plain_char w = true ->
  forall b, split_pieces (scan colon_pat b 0 w) = [w].
Proof.
  induction w as [|c w IH]; intros H b.
  - cbn [scan]. rewrite colon_miss by reflexivity. reflexivity.
  - cbn [all_chars] in H. apply andb_true_iff in H. destruct H as [Hc H].
    cbn [scan]. rewrite colon_miss by (apply plain_not_colon_prefix; exact Hc).
    cbn [split_pieces]. rewrite (IH H). reflexivity.
Qed.

Lemma split_field (f w : string) :
  all_chars plain_char f = true -> all_chars plain_char w = true ->
  forall b,
    starts_with (rev_chars BS []) (rev_chars f b) = false ->
    split_pieces (scan colon_pat b 0 (f ++ String ":" w)) = [f; w].
Proof.
  intros Hf Hw. induction f as [|c f IH]; intros b Hb.
  - cbn [append scan]. cbn [rev_chars] in Hb.
    assert (M : match_at colon_pat b (String ":" w) = Some 1).
    { unfold match_at, colon_pat. cbn [rx]. rewrite Hb. reflexivity. }
    rewrite M. cbn [split_pieces]. rewrite (split_no_colon w Hw). reflexivity.
  - cbn [all_chars] in Hf. apply andb_true_iff in Hf. destruct Hf as [Hc Hf].
    cbn [append scan]. rewrite colon_miss by (apply plain_not_colon_prefix; exact Hc).
    cbn [split_pieces]. rewrite (IH Hf (c :: b) Hb). reflexivity.
Qed.

Lemma rev_chars_last_plain (f : string) :
  all_chars plain_char f = true -> truthy f = true ->
  forall b, starts_with (rev_chars BS []) (rev_chars f b) = false.
Proof.
  induction f as [|c f IH]; intros H T b; [discriminate|].
  cbn [all_chars] in H. apply andb_true_iff in H. destruct H as [Hc H].
  destruct f as [|c' f].
  - cbn [rev_chars BS str1 starts_with]. rewrite (plain_not_backslash c Hc). reflexivity.
  - exact (IH H eq_refl (c :: b)).
Qed.

Lemma prefix_app_stop (p f w : string) (c : ascii) :
  mem c p = false -> prefix p (f ++ String c w) = true -> prefix p f = true.
Proof.
  revert f. induction p as [|a p IH]; intros f Hc H.
  - destruct f; reflexivity.
  - cbn [mem] in Hc. apply orb_false_iff in Hc. destruct Hc as [Hac Hc].
    destruct f as [|d f].
    + cbn [append] in H. rewrite prefix_cons in H.
      apply andb_true_iff in H. destruct H as [H _].
      rewrite Ascii.eqb_sym, Hac in H. discriminate.
    + cbn [append] in H. rewrite prefix_cons in H |- *.
      apply andb_true_iff in H. destruct H as [H1 H2].
      rewrite H1. simpl. apply IH; assumption.
Qed.

Lemma re_match_field (f w : string) :
  re_match nonterms f = false -> re_match nonterms (f ++ String ":" w) = false.
Proof.
  rewrite !re_match_nonterms. intros H.
  destruct (existsb (fun p => prefix p (f ++ String ":" w)) operators) eqn:E;
    [|reflexivity].
  apply existsb_exists in E. destruct E as (p & Hp & E).
  assert (C : mem ":"%char p = false).
  { assert (A : forallb (fun q => negb (mem ":"%char q)) operators = true)
      by reflexivity.
    rewrite forallb_forall in A. apply negb_true_iff. apply A. exact Hp. }
  apply (prefix_app_stop p f w ":"%char C) in E.
  assert (X : existsb (fun p => prefix p f) operators = true)
    by (apply existsb_exists; exists p; split; assumption).
  congruence.
Qed.

Lemma classify_raw_of (t : token) : plain_shape t -> classify (raw_of t) = t.
Proof.
  intros [| |w Hw Hm|w Hw Hm|f w Hf Hm Hw]; try reflexivity;
    unfold classify, re_split, finditer; cbn [raw_of field term].
  - rewrite Hm. reflexivity.
  - rewrite Hm. apply plain_word_inv in Hw. destruct Hw as [Hw _].
    rewrite (split_no_colon w Hw). reflexivity.
  - apply plain_word_inv in Hw. destruct Hw as [Hw _].
    unfold plain_word in Hf. apply andb_true_iff in Hf. destruct Hf as [Tf Hf].
    cbn [append]. rewrite (re_match_field f w Hm).
    rewrite (split_field f w Hf Hw [] (rev_chars_last_plain f Hf Tf [])).
    reflexivity.
Qed.

Lemma unescape_plain (w : string) : plain_word w = true -> unescape_if w = w.
Proof.
  intros H. apply plain_word_inv in H. destruct H as [H _].
  unfold unescape_if. destruct (truthy w); [|reflexivity].
  apply steps_id. intros p Hp.
  apply (contains_absent _ _ "_"%char).
  - assert (A : forallb (fun q => mem "_"%char (fst q)) rev_table = true)
      by reflexivity.
    rewrite forallb_forall in A. apply A. exact Hp.
  - apply (all_chars_mem plain_char); [exact H | reflexivity].
Qed.

Lemma unescape_token_plain (t : token) : plain_shape t -> unescape_token t = t.
Proof.
  intros [| |w Hw Hm|w Hw Hm|f w Hf Hm Hw];
    cbn [unescape_token field term option_map]; try reflexivity.
  - rewrite (unescape_plain w Hw). reflexivity.
  - rewrite (unescape_plain f Hf), (unescape_plain w Hw). reflexivity.
Qed.

(** ** The round trip *)

Lemma assembled_absent (c : ascii) (s : string) :
  all_chars assembled_char s = true -> assembled_char c = false ->
  mem c s = false.
Proof. apply all_chars_mem. Qed.

Lemma raw_tokens_assemble (ts : list token) :
  Forall plain_shape ts -> raw_tokens (assemble ts) = Ok (map raw_of ts).
Proof.
  intros H. pose proof (assemble_chars ts H) as A.
  unfold raw_tokens, _replace_metaescape, _replace_esc_quotes, _stripspaces.
  cbn [_replacepairs].
  rewrite (re_sub_lit_plain (BS ++ BS) "_&_METAESC_&_" "_&_METAESC_&_" _ backslash
             eq_refl eq_refl)
    by (apply assembled_absent; [exact A | reflexivity]).
  cbn [bind].
  rewrite (re_sub_lit_plain (BS ++ DQ) "_&_QUOT_&_" "_&_QUOT_&_" _ backslash
             eq_refl eq_refl)
    by (apply assembled_absent; [exact A | reflexivity]).
  cbn [bind].
  rewrite _repspaces_in_ranges_plain
    by (apply assembled_absent; [exact A | reflexivity]).
  cbn [bind]. rewrite _addparenswhitespace_eq. cbn [bind].
  rewrite (re_sub_template _ ":" ":" _ eq_refl). cbn [bind].
  unfold finditer. rewrite (strip_assembled ts H).
  rewrite _repspaces_in_subqueries_nogroup by (apply no_group_assembled; exact H).
  cbn [bind]. rewrite (str_split_assembled ts H). reflexivity.
Qed.

Lemma map_id_on {A : Type} (f : A -> A) (l : list A) :
  (forall a, In a l -> f a = a) -> map f l = l.
Proof.
  induction l as [|a l IH]; intros H; simpl; [reflexivity|].
  rewrite (H a (or_introl eq_refl)), IH; [reflexivity|].
  intros x Hx. apply H. right. exact Hx.
Qed.

Lemma deparse_assemble_plain (ts : list token) :
  forallb plain_token ts = true -> deparse (assemble ts) = Ok ts.
Proof.
  intros H. apply plain_shapes in H.
  rewrite (deparse_eq _ _ (raw_tokens_assemble ts H)).
  rewrite !map_map. f_equal. apply map_id_on. intros t Ht.
  rewrite Forall_forall in H. specialize (H t Ht).
  rewrite (classify_raw_of t H). apply unescape_token_plain. exact H.
Qed.

(** Whatever the literals hold, no field or term value that [deparse]
    returns holds a marker. *)
Lemma unescape_if_marker_free (v : string) : marker_free (unescape_if v) = true.
Proof.
  unfold unescape_if. destruct v as [|c v]; [reflexivity|].
  cbn [truthy]. apply unescape_marker_free.
Qed.

Lemma deparse_terms_marker_free (qstring : string) :
  exists ts, deparse qstring = Ok ts /\
             forall d, In (Term d) ts -> token_marker_free (Term d) = true.
Proof.
  destruct (raw_tokens_total qstring) as [raw H].
  eexists. split; [apply deparse_eq; exact H|].
  intros d Hd. apply in_map_iff in Hd. destruct Hd as (t & E & _).
  destruct t as [s|[f w]]; [discriminate|]. injection E as <-.
  cbn [token_marker_free field term]. rewrite unescape_if_marker_free, andb_true_r.
  destruct f as [f|]; [|reflexivity]. apply unescape_if_marker_free.
Qed.

(** * Further properties of the module *)

(** ** The padding of parentheses *)

Lemma append_length (a b : string) :
  String.length (a ++ b) = String.length a + String.length b.
Proof. induction a as [|c a IH]; simpl; [reflexivity | rewrite IH; reflexivity]. Qed.

Lemma pad_parens_length (s : string) :
  String.length (pad_parens s) =
  String.length s + 2 * (count_char "(" s + count_char ")" s).
Proof.
  induction s as [|c s IH]; [reflexivity|].
  cbn [pad_parens mem count_char String.length].
  rewrite (Ascii.eqb_sym "("%char c), (Ascii.eqb_sym ")"%char c).
  destruct (Ascii.eqb c "(") eqn:E1.
  - apply Ascii.eqb_eq in E1. subst c. cbn [orb String.length].
    change (Ascii.eqb "(" ")") with false. cbn iota. rewrite IH. lia.
  - destruct (Ascii.eqb c ")") eqn:E2; cbn [orb String.length]; rewrite IH; lia.
Qed.

Lemma pad_parens_solid (s : string) : solid (pad_parens s) = solid s.
Proof.
  unfold solid. induction s as [|c s IH]; [reflexivity|].
  cbn [pad_parens]. destruct (mem c "()") eqn:E.
  - cbn [filter_chars]. rewrite isspace_blank. cbn [negb]. rewrite IH. reflexivity.
  - cbn [filter_chars]. rewrite IH. reflexivity.
Qed.

(** X1.  [_addparenswhitespace] never raises: it returns its argument
    with a blank put before and after every parenthesis.  The result is
    longer by two characters for each parenthesis, and nothing but blanks
    is added. *)
Theorem addparens_pads_parentheses (s : string) :
  _addparenswhitespace s = Ok (pad_parens s) /\
  String.length (pad_parens s) =
    String.length s + 2 * (count_char "(" s + count_char ")" s) /\
  solid (pad_parens s) = solid s.
Proof.
  split; [apply _addparenswhitespace_eq|].
  split; [apply pad_parens_length | apply pad_parens_solid].
Qed.

(** ** The first two stages of the escaper *)

(** X2.  After [_replace_metaescape] no two backslashes stand side by
    side, and after [_replace_esc_quotes] on its result neither two
    backslashes nor a backslash and a double quote do. *)
Theorem escaper_clears_escapes (s : string) :
  exists q1 q2,
    _replace_metaescape s = Ok q1 /\
    _replace_esc_quotes q1 = Ok q2 /\
    contains (BS ++ BS) q1 = false /\
    contains (BS ++ BS) q2 = false /\
    contains (BS ++ DQ) q2 = false.
Proof.
  unfold _replace_metaescape, _replace_esc_quotes. cbn [_replacepairs].
  exists (str_replace (BS ++ BS) "_&_METAESC_&_" s).
  exists (str_replace (BS ++ DQ) "_&_QUOT_&_"
            (str_replace (BS ++ BS) "_&_METAESC_&_" s)).
  assert (C1 : contains (BS ++ BS) (str_replace (BS ++ BS) "_&_METAESC_&_" s) = false).
  { apply (replace_clears (BS ++ BS) "_&_METAESC_&_" (BS ++ BS) eq_refl eq_refl
             (String.length s) s (Nat.le_refl _)).
    left. reflexivity. }
  split; [apply re_sub_lit; reflexivity|].
  split; [apply re_sub_lit; reflexivity|].
  split; [exact C1|]. split.
  - apply (replace_clears (BS ++ DQ) "_&_QUOT_&_" (BS ++ BS) eq_refl eq_refl _ _
             (Nat.le_refl _)).
    right. exact C1.
  - apply (replace_clears (BS ++ DQ) "_&_QUOT_&_" (BS ++ DQ) eq_refl eq_refl _ _
             (Nat.le_refl _)).
    left. reflexivity.
Qed.

(** ** Stages that leave their argument alone *)

Lemma _stripspaces_nocolon (s : string) :
  mem ":"%char s = false -> _stripspaces s = Ok s.
Proof.
  intros H. unfold _stripspaces.
  rewrite (re_sub_template _ ":" ":" _ eq_refl). unfold finditer.
  pose proof (strip_copy s "" H eq_refl []) as E.
  rewrite !append_nil_r in E. rewrite E, strip_end, append_nil_r. reflexivity.
Qed.

(** X3.  [_stripspaces] returns a string without a colon as it is. *)
Theorem stripspaces_without_colon (s : string) :
  mem ":"%char s = false -> _stripspaces s = Ok s.
Proof. apply _stripspaces_nocolon. Qed.

Lemma stripspaces_without_colon_witness :
  mem ":"%char "a  (b OR c) " = false /\
  _stripspaces "a  (b OR c) " = Ok "a  (b OR c) ".
Proof.
  split; [reflexivity|].
  apply (stripspaces_without_colon "a  (b OR c) "). reflexivity.
Defined.

(** X4.  [_repspaces_in_subqueries] returns a string in which no colon
    stands right before an opening parenthesis as it is. *)
Theorem subqueries_without_group (s : string) :
  contains ":(" s = false -> _repspaces_in_subqueries s = Ok s.
Proof. apply _repspaces_in_subqueries_nogroup. Qed.

Lemma subqueries_without_group_witness :
  contains ":(" "a:b  ( c:d ) " = false /\
  _repspaces_in_subqueries "a:b  ( c:d ) " = Ok "a:b  ( c:d ) ".
Proof.
  split; [reflexivity|].
  apply (subqueries_without_group "a:b  ( c:d ) "). reflexivity.
Defined.

(** ** The assembler *)

Lemma str_join_app (sep : string) (l1 l2 : list string) :
  l1 <> [] -> l2 <> [] ->
  str_join sep (l1 ++ l2) = str_join sep l1 ++ sep ++ str_join sep l2.
Proof.
  intros H1 H2. induction l1 as [|x l1 IH]; [contradiction|].
  destruct l1 as [|y l1].
  - destruct l2 as [|z l2]; [contradiction|]. reflexivity.
  - change (str_join sep ((x :: y :: l1) ++ l2))
      with (x ++ sep ++ str_join sep ((y :: l1) ++ l2)).
    rewrite IH by discriminate.
    change (str_join sep (x :: y :: l1)) with (x ++ sep ++ str_join sep (y :: l1)).
    rewrite !append_assoc. reflexivity.
Qed.

(** X5.  [assemble] of two token lists put together is the two assembled
    strings with one blank between them, when neither list is empty. *)
Theorem assemble_app (ts1 ts2 : list token) :
  ts1 <> [] -> ts2 <> [] ->
  assemble (ts1 ++ ts2) = assemble ts1 ++ " " ++ assemble ts2.
Proof.
  intros H1 H2. unfold assemble. rewrite map_app. apply str_join_app.
  - destruct ts1; [contradiction | discriminate].
  - destruct ts2; [contradiction | discriminate].
Qed.

Lemma assemble_app_witness :
  assemble ([Term (mkTerm (Some "a") "b"); Literal "AND"] ++ [Term (mkTerm None "c")]) =
  assemble [Term (mkTerm (Some "a") "b"); Literal "AND"] ++ " " ++
  assemble [Term (mkTerm None "c")].
Proof.
  apply (assemble_app [Term (mkTerm (Some "a") "b"); Literal "AND"]
           [Term (mkTerm None "c")]); discriminate.
Defined.

(** X6.  A token sequence that a caller builds from plain tokens comes
    back from [assemble] followed by [deparse] as it is. *)
Theorem assemble_then_deparse_plain (ts : list token) :
  forallb plain_token ts = true -> deparse (assemble ts) = Ok ts.
Proof. apply deparse_assemble_plain. Qed.

Lemma assemble_then_deparse_plain_witness :
  forallb plain_token
    [Literal "("; Term (mkTerm (Some "tags") "water"); Literal "OR";
     Term (mkTerm None "fire"); Literal ")"] = true /\
  deparse (assemble
    [Literal "("; Term (mkTerm (Some "tags") "water"); Literal "OR";
     Term (mkTerm None "fire"); Literal ")"]) =
  Ok [Literal "("; Term (mkTerm (Some "tags") "water"); Literal "OR";
      Term (mkTerm None "fire"); Literal ")"].
Proof.
  split; [reflexivity|].
  apply (assemble_then_deparse_plain
           [Literal "("; Term (mkTerm (Some "tags") "water"); Literal "OR";
            Term (mkTerm None "fire"); Literal ")"]).
  reflexivity.
Defined.

(** ** The patterns *)

(** X7.  No pattern that the module scans for matches the empty string,
    at any place of any subject. *)
Theorem no_pattern_matches_empty :
  Forall (fun r => forall b s, match_at r b s <> Some 0) scanned_patterns.
Proof.
  apply Forall_forall. intros r Hr b s.
  apply scanned_patterns_not_empty. exact Hr.
Qed.

(** ** The classifier, token by token *)

Lemma classify_operator (t : string) :
  starts_with_operator t = true -> classify t = Literal t.
Proof.
  intros H. unfold classify. rewrite re_match_nonterms.
  unfold starts_with_operator in H. rewrite H. reflexivity.
Qed.

Lemma classify_term (t : string) :
  starts_with_operator t = false -> exists d, classify t = Term d.
Proof.
  intros H. unfold classify. rewrite re_match_nonterms.
  unfold starts_with_operator in H. rewrite H.
  pose proof (split_pieces_nonempty (finditer colon_pat t)) as N.
  unfold re_split. destruct (split_pieces (finditer colon_pat t)) as [|p0 [|p1 l]];
    [contradiction| |]; eexists; reflexivity.
Qed.

(** X8.  [_termdicts] never raises and keeps every position: the result
    is as long as the argument, a token that starts with an operator
    stays at its place as a literal, and any other token becomes a term
    at its place. *)
Theorem termdicts_keeps_positions (qsplitted : list string) :
  exists ts,
    _termdicts qsplitted = Ok ts /\
    List.length ts = List.length qsplitted /\
    forall i t, nth_error qsplitted i = Some t ->
      (starts_with_operator t = true -> nth_error ts i = Some (Literal t)) /\
      (starts_with_operator t = false -> exists d, nth_error ts i = Some (Term d)).
Proof.
  exists (map classify qsplitted).
  split; [apply _termdicts_classify|]. split; [apply length_map|].
  intros i t Hi. rewrite nth_error_map, Hi. cbn [option_map]. split; intros H.
  - rewrite (classify_operator t H). reflexivity.
  - destruct (classify_term t H) as [d ->]. exists d. reflexivity.
Qed.

Lemma colon_after_backslash (b : list ascii) (c : ascii) (s : string) :
  (negb (Ascii.eqb c ":") || starts_with (rev_chars BS []) b) = true ->
  match_at colon_pat b (String c s) = None.
Proof.
  intros H. unfold match_at, colon_pat. cbn [rx].
  destruct (starts_with (rev_chars BS []) b); [reflexivity|].
  rewrite orb_false_r in H. apply negb_true_iff in H.
  cbn [lit_at]. rewrite Ascii.eqb_sym, H. reflexivity.
Qed.

Lemma behind_cons (c : ascii) (b : list ascii) :
  starts_with (rev_chars BS []) (c :: b) = Ascii.eqb c backslash.
Proof.
  cbn [BS str1 rev_chars starts_with]. rewrite andb_true_r. apply Ascii.eqb_sym.
Qed.

(** A string whose colons all follow a backslash is not split. *)
Lemma split_escaped (s : string) :
  forall b,
    colons_escaped (starts_with (rev_chars BS []) b) s = true ->
    split_pieces (scan colon_pat b 0 s) = [s].
Proof.
  induction s as [|c s IH]; intros b H.
  - cbn [scan]. rewrite colon_miss by reflexivity. reflexivity.
  - cbn [colons_escaped] in H. apply andb_true_iff in H. destruct H as [H1 H2].
    cbn [scan]. rewrite (colon_after_backslash b c s H1).
    cbn [split_pieces]. rewrite (IH (c :: b)); [reflexivity|].
    rewrite behind_cons. exact H2.
Qed.

(** A string is split at its one colon that follows no backslash. *)
Lemma split_at_colon (f w : string) :
  colons_escaped false w = true ->
  forall b,
    colons_escaped (starts_with (rev_chars BS []) b) f = true ->
    last_is_backslash (starts_with (rev_chars BS []) b) f = false ->
    split_pieces (scan colon_pat b 0 (f ++ String ":" w)) = [f; w].
Proof.
  intros Hw. induction f as [|c f IH]; intros b H1 H2.
  - cbn [last_is_backslash] in H2. cbn [append scan].
    assert (M : match_at colon_pat b (String ":" w) = Some 1).
    { unfold match_at, colon_pat. cbn [rx]. rewrite H2. reflexivity. }
    rewrite M. cbn [split_pieces]. rewrite (split_escaped w); [reflexivity|].
    rewrite behind_cons. exact Hw.
  - cbn [colons_escaped] in H1. apply andb_true_iff in H1. destruct H1 as [H1 H3].
    cbn [last_is_backslash] in H2.
    cbn [append scan]. rewrite (colon_after_backslash b c _ H1).
    cbn [split_pieces]. rewrite (IH (c :: b)); [reflexivity| |];
      rewrite behind_cons; assumption.
Qed.

Lemma classify_escaped (t : string) :
  starts_with_operator t = false -> colons_escaped false t = true ->
  classify t = Term (mkTerm None t).
Proof.
  intros Ho Hc. unfold classify. rewrite re_match_nonterms.
  unfold starts_with_operator in Ho. rewrite Ho.
  unfold re_split, finditer. rewrite (split_escaped t [] Hc). reflexivity.
Qed.

Lemma classify_field (f w : string) :
  starts_with_operator (f ++ ":" ++ w) = false ->
  colons_escaped false f = true -> last_is_backslash false f = false ->
  colons_escaped false w = true ->
  classify (f ++ ":" ++ w) = Term (mkTerm (Some f) w).
Proof.
  intros Ho Hf Hl Hw. unfold classify. rewrite re_match_nonterms.
  unfold starts_with_operator in Ho. rewrite Ho.
  unfold re_split, finditer. cbn [append].
  rewrite (split_at_colon f w Hw [] Hf Hl). reflexivity.
Qed.

(** X9.  A token that does not start with an operator and in which every
    colon follows a backslash becomes, at its place, a global term:
    the field is [None] and the term is the whole token, escaped colons
    included. *)
Theorem termdicts_global_term (qsplitted : list string) (i : nat) (t : string) :
  nth_error qsplitted i = Some t ->
  starts_with_operator t = false ->
  colons_escaped false t = true ->
  exists ts, _termdicts qsplitted = Ok ts /\
             nth_error ts i = Some (Term (mkTerm None t)).
Proof.
  intros Hi Ho Hc. exists (map classify qsplitted).
  split; [apply _termdicts_classify|].
  rewrite nth_error_map, Hi. cbn [option_map].
  rewrite (classify_escaped t Ho Hc). reflexivity.
Qed.

Lemma termdicts_global_term_witness :
  exists ts,
    _termdicts ["AND"; "a" ++ BS ++ ":b"] = Ok ts /\
    nth_error ts 1 = Some (Term (mkTerm None ("a" ++ BS ++ ":b"))).
Proof.
  apply (termdicts_global_term ["AND"; "a" ++ BS ++ ":b"] 1 ("a" ++ BS ++ ":b"));
    reflexivity.
Defined.

(** X10.  A token that does not start with an operator and has exactly
    one colon that follows no backslash becomes, at its place, the term
    whose field is the text before that colon and whose term is the text
    after it. *)
Theorem termdicts_field_term (qsplitted : list string) (i : nat) (f w : string) :
  nth_error qsplitted i = Some (f ++ ":" ++ w) ->
  starts_with_operator (f ++ ":" ++ w) = false ->
  colons_escaped false f = true ->
  last_is_backslash false f = false ->
  colons_escaped false w = true ->
  exists ts, _termdicts qsplitted = Ok ts /\
             nth_error ts i = Some (Term (mkTerm (Some f) w)).
Proof.
  intros Hi Ho Hf Hl Hw. exists (map classify qsplitted).
  split; [apply _termdicts_classify|].
  rewrite nth_error_map, Hi. cbn [option_map].
  rewrite (classify_field f w Ho Hf Hl Hw). reflexivity.
Qed.

Lemma termdicts_field_term_witness :
  exists ts,
    _termdicts ["(" ; ("x" ++ BS ++ ":y") ++ ":" ++ "[1_&_SPACE_&_TO_&_SPACE_&_2]"]
      = Ok ts /\
    nth_error ts 1 =
      Some (Term (mkTerm (Some ("x" ++ BS ++ ":y")) "[1_&_SPACE_&_TO_&_SPACE_&_2]")).
Proof.
  apply (termdicts_field_term
           ["(" ; ("x" ++ BS ++ ":y") ++ ":" ++ "[1_&_SPACE_&_TO_&_SPACE_&_2]"] 1
           ("x" ++ BS ++ ":y") "[1_&_SPACE_&_TO_&_SPACE_&_2]");
    reflexivity.
Defined.

(** ** What every result of [deparse] satisfies *)

Lemma str_split_words (s : string) :
  Forall (fun w => truthy w = true /\
                   all_chars (fun c => negb (isspace c)) w = true)
    (str_split s).
Proof.
  induction s as [|c s IH]; [constructor|].
  cbn [str_split]. destruct (isspace c) eqn:Ec; [exact IH|].
  destruct s as [|d s'].
  - constructor; [|constructor]. cbn [str1 truthy all_chars]. rewrite Ec. split; reflexivity.
  - destruct (isspace d) eqn:Ed.
    + constructor; [|exact IH]. cbn [str1 truthy all_chars]. rewrite Ec. split; reflexivity.
    + destruct (str_split (String d s')) as [|w ws].
      * constructor; [|constructor].
        cbn [str1 truthy all_chars]. rewrite Ec. split; reflexivity.
      * inversion IH as [|x l [Hw1 Hw2] Hws]; subst.
        constructor; [|exact Hws]. cbn [truthy all_chars]. rewrite Ec, Hw2.
        split; reflexivity.
Qed.

Lemma raw_tokens_words (qstring : string) (raw : list string) :
  raw_tokens qstring = Ok raw ->
  Forall (fun w => truthy w = true /\
                   all_chars (fun c => negb (isspace c)) w = true) raw.
Proof.
  unfold raw_tokens. intros H.
  repeat match type of H with
         | bind ?c _ = _ => destruct c; cbn [bind] in H; [|discriminate]
         end.
  injection H as <-. apply str_split_words.
Qed.

Lemma split_single_hits (ps : list piece) (p0 : string) :
  split_pieces ps = [p0] -> hits ps = [].
Proof.
  revert p0. induction ps as [|[c|m] ps IH]; intros p0 H; [reflexivity| |].
  - cbn [split_pieces] in H. cbn [hits].
    destruct (split_pieces ps) as [|x xs] eqn:E.
    + exfalso. exact (split_pieces_nonempty ps E).
    + injection H as _ ->. apply (IH x). reflexivity.
  - cbn [split_pieces] in H. injection H as _ H.
    exfalso. exact (split_pieces_nonempty ps H).
Qed.

Lemma scan_no_hits_split (r : regex) (s : string) :
  forall b, hits (scan r b 0 s) = [] -> split_pieces (scan r b 0 s) = [s].
Proof.
  induction s as [|c s IH]; intros b H; cbn [scan] in *.
  - destruct (match_at r b "") as [[|j]|]; try discriminate. reflexivity.
  - destruct (match_at r b (String c s)) as [[|j]|]; try discriminate.
    cbn [hits] in H. cbn [split_pieces]. rewrite (IH _ H). reflexivity.
Qed.

Lemma classify_global_whole (r : string) (w : string) :
  classify r = Term (mkTerm None w) -> w = r.
Proof.
  unfold classify. destruct (re_match nonterms r); [discriminate|].
  unfold re_split, finditer.
  destruct (split_pieces (scan colon_pat [] 0 r)) as [|p0 [|p1 l]] eqn:E;
    try discriminate.
  intros H. injection H as <-.
  pose proof (scan_no_hits_split colon_pat r [] (split_single_hits _ _ E)) as S.
  rewrite S in E. injection E as <-. reflexivity.
Qed.

Lemma classify_sound (r : string) :
  truthy r = true -> all_chars (fun c => negb (isspace c)) r = true ->
  sound_token (unescape_token (classify r)).
Proof.
  intros T W. destruct (starts_with_operator r) eqn:E.
  - rewrite (classify_operator r E). cbn [unescape_token sound_token].
    repeat split; assumption.
  - destruct (classify_term r E) as [[[f|] w] C]; rewrite C;
      cbn [unescape_token sound_token field term option_map].
    + discriminate.
    + intros _. apply classify_global_whole in C. subst w.
      rewrite unescape_if_truthy. exact T.
Qed.

(** X11.  On every input the tokens that [deparse] returns are sound: a
    literal is not empty, holds no whitespace and starts with an operator,
    and a term without a field has a term value that is not empty. *)
Theorem deparse_tokens_sound (qstring : string) :
  exists ts, deparse qstring = Ok ts /\ Forall sound_token ts.
Proof.
  destruct (raw_tokens_total qstring) as [raw H].
  exists (map unescape_token (map classify raw)).
  split; [apply deparse_eq; exact H|].
  apply raw_tokens_words in H. rewrite map_map.
  induction H as [|r raw [T W] _ IH]; [constructor|].
  cbn [map]. constructor; [|exact IH]. apply classify_sound; assumption.
Qed.

(** ** Queries without special characters *)

Lemma str_split_all_chars (p : ascii -> bool) (s : string) :
  all_chars p s = true -> Forall (fun w => all_chars p w = true) (str_split s).
Proof.
  induction s as [|c s IH]; intros H; [constructor|].
  cbn [all_chars] in H. apply andb_true_iff in H. destruct H as [Hc H].
  specialize (IH H). cbn [str_split]. destruct (isspace c); [exact IH|].
  assert (S1 : all_chars p (str1 c) = true)
    by (cbn [str1 all_chars]; rewrite Hc; reflexivity).
  destruct s as [|d s']; [constructor; [exact S1 | constructor]|].
  destruct (isspace d); [constructor; [exact S1 | exact IH]|].
  destruct (str_split (String d s')) as [|w ws];
    [constructor; [exact S1 | constructor]|].
  inversion IH as [|x l Hw Hws]; subst.
  constructor; [|exact Hws]. cbn [all_chars]. rewrite Hc, Hw. reflexivity.
Qed.

Lemma colons_escaped_nocolon (w : string) :
  mem ":"%char w = false -> forall esc, colons_escaped esc w = true.
Proof.
  induction w as [|c w IH]; intros H esc; [reflexivity|].
  cbn [mem] in H. apply orb_false_iff in H. destruct H as [E H].
  cbn [colons_escaped]. rewrite Ascii.eqb_sym, E. cbn [negb orb andb].
  apply IH. exact H.
Qed.

Lemma unescape_no_underscore (w : string) :
  mem "_"%char w = false -> unescape_if w = w.
Proof.
  intros H. unfold unescape_if. destruct (truthy w); [|reflexivity].
  apply steps_id. intros p Hp.
  apply (contains_absent _ _ "_"%char); [|exact H].
  assert (A : forallb (fun q => mem "_"%char (fst q)) rev_table = true)
    by reflexivity.
  rewrite forallb_forall in A. apply A. exact Hp.
Qed.

Lemma simple_absent (c : ascii) (s : string) :
  all_chars simple_char s = true -> simple_char c = false -> mem c s = false.
Proof. apply all_chars_mem. Qed.

Lemma raw_tokens_simple (qstring : string) :
  all_chars simple_char qstring = true ->
  raw_tokens qstring = Ok (str_split qstring).
Proof.
  intros A.
  unfold raw_tokens, _replace_metaescape, _replace_esc_quotes.
  cbn [_replacepairs].
  rewrite (re_sub_lit_plain (BS ++ BS) "_&_METAESC_&_" "_&_METAESC_&_" _ backslash
             eq_refl eq_refl)
    by (apply simple_absent; [exact A | reflexivity]).
  cbn [bind].
  rewrite (re_sub_lit_plain (BS ++ DQ) "_&_QUOT_&_" "_&_QUOT_&_" _ backslash
             eq_refl eq_refl)
    by (apply simple_absent; [exact A | reflexivity]).
  cbn [bind].
  rewrite _repspaces_in_ranges_plain
    by (apply simple_absent; [exact A | reflexivity]).
  cbn [bind]. rewrite _addparenswhitespace_eq. cbn [bind].
  rewrite pad_parens_id by (apply simple_absent; [exact A | reflexivity]).
  rewrite _stripspaces_nocolon by (apply simple_absent; [exact A | reflexivity]).
  cbn [bind].
  rewrite _repspaces_in_subqueries_nogroup
    by (apply (contains_absent _ _ ":"%char);
        [reflexivity | apply simple_absent; [exact A | reflexivity]]).
  reflexivity.
Qed.

Lemma classify_simple_word (w : string) :
  all_chars simple_char w = true ->
  unescape_token (classify w) = classify_word w.
Proof.
  intros A. unfold classify_word. destruct (starts_with_operator w) eqn:E.
  - rewrite (classify_operator w E). reflexivity.
  - rewrite (classify_escaped w E).
    + cbn [unescape_token field term option_map].
      rewrite unescape_no_underscore
        by (apply simple_absent; [exact A | reflexivity]).
      reflexivity.
    + apply colons_escaped_nocolon. apply simple_absent; [exact A | reflexivity].
Qed.

(** X12.  On a query that holds none of the characters colon,
    parenthesis, backslash, double quote, brace, bracket, slash and
    underscore, [deparse] is the split at whitespace followed by the
    classification of each word: a word that starts with an operator is a
    literal, any other word is a global term with that word as its
    value.  In particular an empty or blank query gives the empty list. *)
Theorem deparse_simple_query (qstring : string) :
  all_chars simple_char qstring = true ->
  deparse qstring = Ok (map classify_word (str_split qstring)).
Proof.
  intros A. rewrite (deparse_eq _ _ (raw_tokens_simple qstring A)).
  rewrite map_map. f_equal.
  pose proof (str_split_all_chars simple_char qstring A) as W.
  induction W as [|w ws Hw _ IH]; [reflexivity|].
  cbn [map]. rewrite (classify_simple_word w Hw), IH. reflexivity.
Qed.

Lemma deparse_simple_query_witness :
  all_chars simple_char "  water AND  NOTHING !fire " = true /\
  deparse "  water AND  NOTHING !fire " =
  Ok [Term (mkTerm None "water"); Literal "AND"; Literal "NOTHING"; Literal "!fire"].
Proof.
  split; [reflexivity|].
  apply (deparse_simple_query "  water AND  NOTHING !fire "). reflexivity.
Defined.

(** ** The unescaper on any token list *)

(** X13.  [_unreplace] never raises and works item by item: a literal is
    left as it is; a term stays a term whose values hold no marker, a
    field that was [None] stays [None], and a value is empty exactly when
    it was empty. *)
Theorem unreplace_item_by_item (termdicts : list token) :
  exists ts,
    _unreplace termdicts = Ok ts /\
    Forall2
      (fun t t' =>
         match t with
         | Literal s => t' = Literal s
         | Term d =>
             exists d', t' = Term d' /\
                        token_marker_free t' = true /\
                        (field d' = None <-> field d = None) /\
                        truthy (term d') = truthy (term d)
         end) termdicts ts.
Proof.
  exists (map unescape_token termdicts). split; [apply _unreplace_eq|].
  induction termdicts as [|t ts IH]; cbn [map]; constructor; [|exact IH].
  destruct t as [s|[f w]]; [reflexivity|].
  eexists. split; [reflexivity|].
  cbn [unescape_token token_marker_free field term].
  split; [|split].
  - rewrite unescape_if_marker_free, andb_true_r.
    destruct f as [f|]; [apply unescape_if_marker_free | reflexivity].
  - destruct f; cbn [option_map]; split; intros H; congruence.
  - apply unescape_if_truthy.
Qed.

(** ** Ranges that are not closed *)

Lemma mem_drop (c : ascii) (n : nat) (s : string) :
  mem c s = false -> mem c (drop n s) = false.
Proof.
  revert s. induction n as [|n IH]; intros s H; destruct s as [|d s]; try exact H.
  cbn [drop]. apply IH. exact (mem_tail c d s H).
Qed.

Lemma star_lazy_absent (p : ascii -> bool) (k : cont) (c : ascii) :
  (forall b s n, mem c s = false -> k b s n = None) ->
  forall s b n, mem c s = false -> star_lazy p k b s n = None.
Proof.
  intros Hk. induction s as [|d s IH]; intros b n H; cbn [star_lazy].
  - rewrite (Hk b "" n H). reflexivity.
  - rewrite (Hk b _ n H). destruct (p d); [|reflexivity].
    apply IH. exact (mem_tail c d s H).
Qed.

Lemma closing_absent (cl : string) (c : ascii) (b : list ascii) (s : string) (n : nat) :
  mem c cl = true -> mem c s = false ->
  rx (Seq (NotBehind BS) (Lit cl)) (fun _ _ m => Some m) b s n = None.
Proof.
  intros Hc Hs. cbn [rx]. destruct (starts_with _ b); [reflexivity|].
  rewrite lit_at_spec, (prefix_absent cl s c Hc Hs). reflexivity.
Qed.

(** A range pattern does not match where its closing delimiter is
    missing. *)
Lemma range_pat_unclosed (o cl : string) (c : ascii) :
  mem c cl = true ->
  forall b s, mem c s = false -> match_at (range_pat o cl) b s = None.
Proof.
  intros Hc b s Hs. unfold match_at, range_pat.
  change (rx (Seq (NotBehind BS)
                (Seq (Lit o) (Seq (StarLazy Dot) (Seq (NotBehind BS) (Lit cl)))))
            (fun _ _ n => Some n) b s 0)
    with (if starts_with (rev_chars BS []) b then None
          else lit_at o (star_lazy (in_class Dot)
                           (rx (Seq (NotBehind BS) (Lit cl)) (fun _ _ n => Some n)))
                 b s 0).
  destruct (starts_with _ b); [reflexivity|].
  rewrite lit_at_spec. destruct (prefix o s); [|reflexivity].
  apply (star_lazy_absent _ _ c).
  - intros b' s' n' H'. apply (closing_absent cl c); assumption.
  - apply mem_drop. exact Hs.
Qed.

Lemma count_zero_mem (c : ascii) (s : string) :
  count_char c s = 0 -> mem c s = false.
Proof.
  induction s as [|d s IH]; [reflexivity|].
  cbn [count_char mem]. destruct (Ascii.eqb c d); [discriminate|].
  intros H. apply IH. exact H.
Qed.

Lemma count_tail (c d : ascii) (s : string) :
  count_char c (String d s) <= 1 -> count_char c s <= 1.
Proof. cbn [count_char]. lia. Qed.

Lemma count_after_first (c : ascii) (s : string) :
  count_char c (String c s) <= 1 -> mem c s = false.
Proof.
  cbn [count_char]. rewrite eqb_char_refl. intros H.
  apply count_zero_mem. lia.
Qed.

(** A pattern whose two delimiters are the same character does not match
    where that character occurs once at most. *)
Lemma regex_pat_single :
  forall b s, count_char "/" s <= 1 -> match_at regex_pat b s = None.
Proof.
  intros b s H. unfold match_at, regex_pat, range_pat.
  change (rx (Seq (NotBehind BS)
                (Seq (Lit "/") (Seq (StarLazy Dot) (Seq (NotBehind BS) (Lit "/")))))
            (fun _ _ n => Some n) b s 0)
    with (if starts_with (rev_chars BS []) b then None
          else lit_at "/" (star_lazy (in_class Dot)
                             (rx (Seq (NotBehind BS) (Lit "/")) (fun _ _ n => Some n)))
                 b s 0).
  destruct (starts_with _ b); [reflexivity|].
  destruct s as [|d s]; [reflexivity|]. cbn [lit_at].
  destruct (Ascii.eqb "/" d) eqn:E; [|reflexivity].
  apply Ascii.eqb_eq in E. subst d.
  apply (star_lazy_absent _ _ "/"%char).
  - intros b' s' n' H'. apply (closing_absent "/" "/"%char); [reflexivity | exact H'].
  - apply count_after_first. exact H.
Qed.

Lemma quoted_single :
  forall b s, count_char dquote s <= 1 -> match_at quoted b s = None.
Proof.
  intros b s H. unfold match_at, quoted.
  change (rx (Seq (Lit DQ) (Seq (StarLazy Dot) (Lit DQ))) (fun _ _ n => Some n) b s 0)
    with (lit_at DQ (star_lazy (in_class Dot) (lit_at DQ (fun _ _ n => Some n))) b s 0).
  destruct s as [|d s]; [reflexivity|]. cbn [DQ str1 lit_at].
  destruct (Ascii.eqb dquote d) eqn:E; [|reflexivity].
  apply Ascii.eqb_eq in E. subst d.
  apply (star_lazy_absent _ _ dquote).
  - intros b' s' n' H'.
    change (lit_at DQ (fun _ _ n => Some n) b' s' n' = None).
    rewrite lit_at_spec.
    rewrite (prefix_absent DQ s' dquote eq_refl H'). reflexivity.
  - apply count_after_first. exact H.
Qed.

Lemma scan_none (r : regex) (P : string -> Prop) :
  (forall c s, P (String c s) -> P s) ->
  (forall b s, P s -> match_at r b s = None) ->
  forall s b j, P s -> hits (scan r b j s) = [].
Proof.
  intros Ht Hr. induction s as [|d s IH]; intros b j Hs.
  - destruct j; simpl; [|reflexivity]. rewrite (Hr b "" Hs). reflexivity.
  - destruct j; simpl.
    + rewrite (Hr b _ Hs). simpl. apply IH. exact (Ht d s Hs).
    + apply IH. exact (Ht d s Hs).
Qed.

Lemma range_pat_no_span (o cl : string) (co cc : ascii) (s : string) :
  mem co o = true -> mem cc cl = true ->
  mem co s = false \/ mem cc s = false ->
  re_findall (range_pat o cl) s = [].
Proof.
  intros Ho Hc [H|H]; unfold re_findall, finditer.
  - apply (scan_absent _ co); [apply range_pat_absent; exact Ho | exact H].
  - apply (scan_absent _ cc); [apply range_pat_unclosed; exact Hc | exact H].
Qed.

(** X14.  [_repspaces_in_ranges] returns its argument as it is when no
    range can be closed: an opening brace without any closing brace (or
    the reverse), the same for brackets, one slash at most and one double
    quote at most. *)
Theorem ranges_need_both_delimiters (s : string) :
  mem "{"%char s = false \/ mem "}"%char s = false ->
  mem "["%char s = false \/ mem "]"%char s = false ->
  count_char "/" s <= 1 ->
  count_char dquote s <= 1 ->
  _repspaces_in_ranges s = Ok s.
Proof.
  intros H1 H2 H3 H4. unfold _repspaces_in_ranges.
  assert (N : forall pat, In pat [rangeex; rangeinc; regex_pat; quoted] ->
                          re_findall pat s = []).
  { intros pat Hp. simpl in Hp. destruct Hp as [<-|[<-|[<-|[<-|[]]]]].
    - apply (range_pat_no_span "{" "}" "{"%char "}"%char);
        [reflexivity | reflexivity | exact H1].
    - apply (range_pat_no_span "[" "]" "["%char "]"%char);
        [reflexivity | reflexivity | exact H2].
    - unfold re_findall, finditer.
      apply (scan_none _ (fun x => count_char "/" x <= 1));
        [intros c x; apply count_tail | apply regex_pat_single | exact H3].
    - unfold re_findall, finditer.
      apply (scan_none _ (fun x => count_char dquote x <= 1));
        [intros c x; apply count_tail | apply quoted_single | exact H4]. }
  cbn [foldM].
  repeat (rewrite _replace_in_range_nohit by exact N; cbn [bind]).
  reflexivity.
Qed.

Lemma ranges_need_both_delimiters_witness :
  _repspaces_in_ranges ("date:[1 TO 2 " ++ DQ ++ "open b/c {x: y") =
  Ok ("date:[1 TO 2 " ++ DQ ++ "open b/c {x: y").
Proof.
  apply (ranges_need_both_delimiters ("date:[1 TO 2 " ++ DQ ++ "open b/c {x: y")).
  - right. reflexivity.
  - right. reflexivity.
  - vm_compute. lia.
  - vm_compute. lia.
Defined.

(** ** The colon normalization removes whitespace only *)

Lemma take_drop (n : nat) (s : string) : take n s ++ drop n s = s.
Proof.
  revert s. induction n as [|n IH]; intros s; destruct s as [|c s]; try reflexivity.
  cbn [take drop append]. rewrite IH. reflexivity.
Qed.

Lemma take_add (i j : nat) (s : string) :
  take (i + j) s = take i s ++ take j (drop i s).
Proof.
  revert s. induction i as [|i IH]; intros s.
  - destruct s; reflexivity.
  - destruct s as [|c s]; [destruct j; reflexivity|].
    cbn [Nat.add take drop append]. rewrite IH. reflexivity.
Qed.

Lemma drop_drop (i j : nat) (s : string) : drop j (drop i s) = drop (i + j) s.
Proof.
  revert s. induction i as [|i IH]; intros s.
  - destruct s; reflexivity.
  - destruct s as [|c s]; [destruct j; reflexivity|].
    cbn [Nat.add drop]. apply IH.
Qed.

Lemma drop_length_eq (n : nat) (s : string) :
  n <= String.length s -> String.length (drop n s) = String.length s - n.
Proof.
  revert s. induction n as [|n IH]; intros s H.
  - destruct s; simpl; lia.
  - destruct s as [|c s]; [simpl in H; lia|].
    cbn [drop String.length] in *. rewrite IH; lia.
Qed.

Lemma filter_chars_app (p : ascii -> bool) (a b : string) :
  filter_chars p (a ++ b) = filter_chars p a ++ filter_chars p b.
Proof.
  induction a as [|c a IH]; [reflexivity|].
  cbn [append filter_chars]. rewrite IH. destruct (p c); reflexivity.
Qed.

Lemma solid_spaces (s : string) : all_chars isspace s = true -> solid s = "".
Proof.
  unfold solid. induction s as [|c s IH]; [reflexivity|].
  cbn [all_chars filter_chars]. intros H. apply andb_true_iff in H.
  destruct H as [Hc H]. rewrite Hc. cbn [negb]. apply IH. exact H.
Qed.

(** The greedy star takes a run of its class and goes on behind it. *)
Lemma star_greedy_run (p : ascii -> bool) (k : cont) (s : string) :
  forall b n m,
    star_greedy p k b s n = Some m ->
    exists j,
      j <= String.length s /\ all_chars p (take j s) = true /\
      k (rev_chars (take j s) b) (drop j s) (n + j) = Some m.
Proof.
  induction s as [|d s IH]; intros b n m H; cbn [star_greedy] in H.
  - exists 0. rewrite Nat.add_0_r. repeat split; [simpl; lia | exact H].
  - destruct (p d) eqn:Ed.
    + destruct (star_greedy p k (d :: b) s (S n)) as [x|] eqn:E.
      * injection H as <-. destruct (IH _ _ _ E) as (j & Hj & Ha & Hk).
        exists (S j). cbn [take drop all_chars rev_chars String.length].
        rewrite Ed, Ha. replace (n + S j) with (S n + j) by lia.
        repeat split; [lia | exact Hk].
      * exists 0. rewrite Nat.add_0_r. repeat split; [simpl; lia | exact H].
    + exists 0. rewrite Nat.add_0_r. repeat split; [simpl; lia | exact H].
Qed.

(** A match of the pattern of [_stripspaces] is whitespace, one colon and
    whitespace. *)
Lemma sp_match_shape (b : list ascii) (s : string) (m : nat) :
  match_at stripspaces_pat b s = Some m ->
  m <= String.length s /\ solid (take m s) = ":".
Proof.
  unfold match_at, stripspaces_pat.
  change (rx (Seq (Star Space) (Seq (NotBehind (BS ++ BS)) (Seq (Lit ":") (Star Space))))
            (fun _ _ n => Some n) b s 0)
    with (star_greedy isspace
            (fun b' s' n' =>
               if starts_with (rev_chars (BS ++ BS) []) b' then None
               else lit_at ":" (star_greedy isspace (fun _ _ n => Some n)) b' s' n')
            b s 0).
  intros H. apply star_greedy_run in H. destruct H as (j1 & L1 & A1 & H).
  cbn beta in H. destruct (starts_with _ _); [discriminate|].
  rewrite lit_at_spec in H. destruct (prefix ":" (drop j1 s)) eqn:P; [|discriminate].
  apply star_greedy_run in H. destruct H as (j2 & L2 & A2 & H).
  injection H as <-. cbn [String.length] in *.
  destruct (drop j1 s) as [|c rest] eqn:D; [discriminate|].
  apply prefix_colon_cons in P. subst c.
  cbn [drop] in L2, A2.
  pose proof (drop_length_eq j1 s L1) as DL. rewrite D in DL. cbn [String.length] in DL.
  split; [lia|].
  replace (j1 + 1 + j2) with (j1 + S j2) by lia.
  rewrite take_add, D. cbn [take]. unfold solid.
  rewrite filter_chars_app. cbn [filter_chars]. rewrite isspace_colon. cbn [negb].
  fold (solid (take j1 s)). fold (solid (take j2 rest)).
  rewrite (solid_spaces _ A1), (solid_spaces _ A2). reflexivity.
Qed.

Lemma scan_skip (r : regex) (t : string) :
  forall j s b,
    j <= String.length s ->
    plain_pieces t (scan r b j s) =
    plain_pieces t (scan r (rev_chars (take j s) b) 0 (drop j s)).
Proof.
  induction j as [|j IH]; intros s b H.
  - destruct s; reflexivity.
  - destruct s as [|c s]; [simpl in H; lia|].
    cbn [take drop rev_chars]. change (scan r b (S j) (String c s))
      with (scan r (c :: b) j s).
    apply IH. simpl in H. lia.
Qed.

Lemma solid_app (a b : string) : solid (a ++ b) = solid a ++ solid b.
Proof. apply filter_chars_app. Qed.

Lemma solid_cons (c : ascii) (s : string) :
  solid (String c s) = if isspace c then solid s else String c (solid s).
Proof. unfold solid. cbn [filter_chars]. destruct (isspace c); reflexivity. Qed.

Lemma strip_solid (n : nat) :
  forall s b,
    String.length s <= n ->
    solid (plain_pieces ":" (scan stripspaces_pat b 0 s)) = solid s.
Proof.
  induction n as [|n IH]; intros s b L.
  - destruct s; [|simpl in L; lia]. rewrite strip_end. reflexivity.
  - destruct s as [|c s]; [rewrite strip_end; reflexivity|].
    cbn [scan]. destruct (match_at stripspaces_pat b (String c s)) as [m|] eqn:M.
    + destruct (sp_match_shape _ _ _ M) as [Lm Sm].
      destruct m as [|j]; [cbn [take] in Sm; discriminate|].
      cbn [plain_pieces]. cbn [String.length] in L, Lm.
      rewrite (scan_skip stripspaces_pat ":" j s (c :: b)) by lia.
      rewrite solid_app, IH by (rewrite drop_length_eq by lia; lia).
      pose proof (take_drop (S j) (String c s)) as TD.
      rewrite <- TD at 1. rewrite (solid_app (take (S j) (String c s))), Sm.
      reflexivity.
    + cbn [plain_pieces]. rewrite !solid_cons.
      rewrite (IH s (c :: b)) by (simpl in L; lia). reflexivity.
Qed.

(** X15.  [_stripspaces] never raises and removes nothing but
    whitespace: without their whitespace, its result and its argument are
    the same string. *)
Theorem stripspaces_removes_only_whitespace (s : string) :
  exists r, _stripspaces s = Ok r /\ solid r = solid s.
Proof.
  exists (plain_pieces ":" (finditer stripspaces_pat s)).
  split; [apply re_sub_template; reflexivity|].
  apply (strip_solid (String.length s)). lia.
Qed.

(** ** [_unreplace] on the store *)

Lemma list_set_update {A : Type} (l : list A) (i : nat) (v : A) :
  i < List.length l -> list_set l i v = Ok (list_update l i v).
Proof.
  revert i. induction l as [|a l IH]; intros i H; [simpl in H; lia|].
  destruct i as [|i]; [reflexivity|].
  cbn [list_set list_update]. rewrite IH by (simpl in H; lia). reflexivity.
Qed.

Lemma list_update_length {A : Type} (l : list A) (i : nat) (v : A) :
  List.length (list_update l i v) = List.length l.
Proof.
  revert i. induction l as [|a l IH]; intros i; [reflexivity|].
  destruct i as [|i]; [reflexivity|]. cbn [list_update List.length].
  rewrite IH. reflexivity.
Qed.

Lemma nth_error_update_eq {A : Type} (l : list A) (i : nat) (v : A) :
  i < List.length l -> nth_error (list_update l i v) i = Some v.
Proof.
  revert i. induction l as [|a l IH]; intros i H; [simpl in H; lia|].
  destruct i as [|i]; [reflexivity|].
  cbn [list_update nth_error]. apply IH. simpl in H. lia.
Qed.

Lemma nth_error_update_neq {A : Type} (l : list A) (i j : nat) (v : A) :
  i <> j -> nth_error (list_update l i v) j = nth_error l j.
Proof.
  revert i j. induction l as [|a l IH]; intros i j H; [reflexivity|].
  destruct i as [|i]; destruct j as [|j]; try reflexivity; [contradiction|].
  cbn [list_update nth_error]. apply IH. lia.
Qed.

Lemma list_update_twice {A : Type} (l : list A) (i : nat) (v w : A) :
  list_update (list_update l i v) i w = list_update l i w.
Proof.
  revert i. induction l as [|a l IH]; intros i; [reflexivity|].
  destruct i as [|i]; [reflexivity|]. cbn [list_update]. rewrite IH. reflexivity.
Qed.

Lemma list_update_same {A : Type} (l : list A) (i : nat) (v : A) :
  nth_error l i = Some v -> list_update l i v = l.
Proof.
  revert i. induction l as [|a l IH]; intros i H; [reflexivity|].
  destruct i as [|i].
  - injection H as ->. reflexivity.
  - cbn [list_update]. rewrite IH by exact H. reflexivity.
Qed.

Lemma dict_load_updated (vs : list value) (ds : list termdict) (a : nat) (d : termdict) :
  a < List.length ds ->
  dict_load a (mkStore vs (list_update ds a d)) =
  Ok (d, mkStore vs (list_update ds a d)).
Proof.
  intros H. unfold dict_load, list_get. cbn [dicts].
  rewrite nth_error_update_eq by exact H. reflexivity.
Qed.

Lemma dict_store_updated (vs : list value) (ds : list termdict) (a : nat)
  (d d' : termdict) :
  a < List.length ds ->
  dict_store a d' (mkStore vs (list_update ds a d)) =
  Ok (tt, mkStore vs (list_update ds a d')).
Proof.
  intros H. unfold dict_store. cbn [dicts items].
  rewrite list_set_update by (rewrite list_update_length; exact H).
  cbn [bind]. rewrite list_update_twice. reflexivity.
Qed.

Lemma dict_get_put (d : termdict) (k : key) (v : string) :
  dict_get (dict_put d k v) k = Some v.
Proof. destruct k; reflexivity. Qed.

Lemma dict_put_put (d : termdict) (k : key) (v w : string) :
  dict_put (dict_put d k v) k w = dict_put d k w.
Proof. destruct k; reflexivity. Qed.

Lemma dict_put_get (d : termdict) (k : key) (v : string) :
  dict_get d k = Some v -> dict_put d k v = d.
Proof.
  destruct d as [f t]. destruct k; cbn [dict_get dict_put field term]; intros H.
  - rewrite H. reflexivity.
  - injection H as ->. reflexivity.
Qed.

(** The inner loop over the table, on the dictionary at address [a]. *)
Lemma unreplace_pairs (vs : list value) (ds : list termdict) (a : nat) (k : key) :
  a < List.length ds ->
  forall (ps : list (regex * string)) (qs : list (string * string)),
    Forall2 (fun p q => fst p = Lit (fst q) /\ expand_template (snd p) = Ok (snd q))
      ps qs ->
    forall d v,
      dict_get d k = Some v ->
      for_each ps
        (fun p =>
           d' <~ dict_load a ;;
           match dict_get d' k with
           | Some v' =>
               x <~ lift (re_sub (fst p) (snd p) v') ;;
               dict_store a (dict_put d' k x)
           | None => lift (Raise TypeError)
           end)
        (mkStore vs (list_update ds a d))
      = Ok (tt, mkStore vs (list_update ds a (dict_put d k (replace_steps qs v)))).
Proof.
  intros Ha ps qs F. induction F as [|[r tmpl] [x t] ps qs [H1 H2] _ IH]; intros d v Hd.
  - cbn [for_each replace_steps fold_left]. unfold ret.
    rewrite (dict_put_get d k v Hd). reflexivity.
  - cbn [fst snd] in H1, H2. subst r.
    cbn [for_each]. unfold bindS at 1. unfold bindS at 1.
    rewrite (dict_load_updated vs ds a d Ha). rewrite Hd.
    unfold bindS at 1. cbn [fst snd].
    rewrite (re_sub_lit x tmpl t v H2). cbn [lift].
    rewrite (dict_store_updated vs ds a d _ Ha).
    rewrite (IH (dict_put d k (str_replace x t v)) (str_replace x t v)
               (dict_get_put d k _)).
    rewrite dict_put_put. reflexivity.
Qed.

Lemma revpairs_expanded :
  Forall2 (fun p q => fst p = Lit (fst q) /\ expand_template (snd p) = Ok (snd q))
    _revpairs_values rev_table.
Proof. repeat constructor. Qed.

Lemma unreplace_key_updated (vs : list value) (ds : list termdict) (a : nat)
  (k : key) (d : termdict) :
  a < List.length ds ->
  unreplace_key a k (mkStore vs (list_update ds a d)) =
  Ok (tt, mkStore vs (list_update ds a (unescape_key d k))).
Proof.
  intros Ha. unfold unreplace_key, unescape_key. unfold bindS at 1.
  rewrite (dict_load_updated vs ds a d Ha).
  destruct (dict_get d k) as [v|] eqn:Hd; [|reflexivity].
  unfold unescape_if. destruct (truthy v).
  - apply (unreplace_pairs vs ds a k Ha _ _ revpairs_expanded d v Hd).
  - unfold ret. rewrite (dict_put_get d k v Hd). reflexivity.
Qed.

Lemma unescape_both_keys (d : termdict) :
  unescape_key (unescape_key d KField) KTerm = unescape_dict d.
Proof. destruct d as [[f|] t]; reflexivity. Qed.

Lemma unescape_dict_idem (d : termdict) :
  unescape_dict (unescape_dict d) = unescape_dict d.
Proof.
  destruct d as [[f|] t]; unfold unescape_dict; cbn [field term option_map];
    rewrite ?unescape_if_idem; reflexivity.
Qed.

Lemma unreplace_step_length (ds : list termdict) (v : value) :
  List.length (unreplace_step ds v) = List.length ds.
Proof.
  destruct v as [s|a]; [reflexivity|]. cbn [unreplace_step].
  destruct (nth_error ds a); [apply list_update_length | reflexivity].
Qed.

Lemma unreplace_steps_length (vs : list value) (ds : list termdict) :
  List.length (fold_left unreplace_step vs ds) = List.length ds.
Proof.
  revert ds. induction vs as [|v vs IH]; intros ds; [reflexivity|].
  cbn [fold_left]. rewrite IH. apply unreplace_step_length.
Qed.

Lemma get_item_at (done rest : list value) (v : value) (ds : list termdict) :
  get_item (List.length done) (mkStore (done ++ v :: rest) ds) =
  Ok (v, mkStore (done ++ v :: rest) ds).
Proof.
  unfold get_item, list_get. cbn [items].
  rewrite nth_error_app2 by lia. rewrite Nat.sub_diag. reflexivity.
Qed.

Lemma unreplace_loop :
  forall (rest done : list value) (ds : list termdict),
    (forall a, In (VDict a) rest -> a < List.length ds) ->
    for_range (List.length rest) (List.length done)
      (fun i _ =>
         termdict <~ get_item i ;;
         match termdict with
         | VDict a => _ <~ unreplace_key a KField ;; unreplace_key a KTerm
         | VStr _ => ret tt
         end) tt (mkStore (done ++ rest) ds)
    = Ok (tt, mkStore (done ++ rest) (fold_left unreplace_step rest ds)).
Proof.
  induction rest as [|v rest IH]; intros done ds Hv; [reflexivity|].
  cbn [List.length for_range fold_left]. unfold bindS at 1. unfold bindS at 1.
  rewrite get_item_at.
  specialize (IH (done ++ [v])%list (unreplace_step ds v)).
  rewrite length_app, Nat.add_1_r, <- !app_assoc in IH. cbn [app] in IH.
  assert (Hv' : forall a, In (VDict a) rest ->
                          a < List.length (unreplace_step ds v)).
  { intros a Ha. rewrite unreplace_step_length. apply Hv. right. exact Ha. }
  destruct v as [s|a].
  - unfold ret. exact (IH Hv').
  - assert (Ha : a < List.length ds) by (apply Hv; left; reflexivity).
    destruct (nth_error ds a) as [d|] eqn:Ed;
      [|apply nth_error_None in Ed; lia].
    unfold bindS at 1.
    rewrite <- (list_update_same ds a d Ed) at 1.
    rewrite (unreplace_key_updated _ ds a KField d Ha).
    rewrite (unreplace_key_updated _ ds a KTerm _ Ha).
    rewrite unescape_both_keys.
    cbn [unreplace_step] in IH, Hv' |- *. rewrite Ed in IH, Hv' |- *.
    exact (IH Hv').
Qed.

Lemma unreplace_steps_nth (vs : list value) :
  forall (ds : list termdict) (a : nat) (d : termdict),
    nth_error ds a = Some d ->
    nth_error (fold_left unreplace_step vs ds) a =
    Some (if refers vs a then unescape_dict d else d).
Proof.
  induction vs as [|v vs IH]; intros ds a d H; [exact H|].
  cbn [fold_left refers existsb]. destruct v as [s|a0].
  - cbn [unreplace_step orb]. apply IH. exact H.
  - cbn [unreplace_step]. destruct (Nat.eqb a a0) eqn:E.
    + apply Nat.eqb_eq in E. subst a0. rewrite H. cbn [orb].
      assert (La : a < List.length ds) by (apply nth_error_Some; congruence).
      rewrite (IH _ a (unescape_dict d) (nth_error_update_eq ds a _ La)).
      rewrite unescape_dict_idem. destruct (refers vs a); reflexivity.
    + apply Nat.eqb_neq in E. cbn [orb].
      destruct (nth_error ds a0) as [d0|]; [|apply IH; exact H].
      apply IH. rewrite nth_error_update_neq by congruence. exact H.
Qed.

Lemma refs_ok_bounds (st : store) :
  refs_ok st = true ->
  forall a, In (VDict a) (items st) -> a < List.length (dicts st).
Proof.
  unfold refs_ok. intros H a Ha. rewrite forallb_forall in H.
  specialize (H _ Ha). apply Nat.ltb_lt in H. exact H.
Qed.

Lemma unreplace_st_eq (st : store) :
  refs_ok st = true ->
  _unreplace_st st =
  Ok (tt, mkStore (items st) (fold_left unreplace_step (items st) (dicts st))).
Proof.
  intros H. unfold _unreplace_st, bindS, list_len.
  pose proof (unreplace_loop (items st) [] (dicts st) (refs_ok_bounds st H)) as L.
  destruct st as [vs ds]. cbn [items dicts app List.length] in *. exact L.
Qed.

(** X16.  [_unreplace] works in place: on a store whose references are
    valid it returns without raising, leaves the list as it is and keeps
    the number of dictionaries; every dictionary that the list refers to,
    once or several times, has its values unescaped, and every other
    dictionary is untouched. *)
Theorem unreplace_in_place (st : store) :
  refs_ok st = true ->
  exists ds',
    _unreplace_st st = Ok (tt, mkStore (items st) ds') /\
    List.length ds' = List.length (dicts st) /\
    forall a d, nth_error (dicts st) a = Some d ->
                nth_error ds' a =
                Some (if refers (items st) a then unescape_dict d else d).
Proof.
  intros H. exists (fold_left unreplace_step (items st) (dicts st)).
  split; [apply unreplace_st_eq; exact H|].
  split; [apply unreplace_steps_length|].
  intros a d Hd. apply unreplace_steps_nth. exact Hd.
Qed.

Lemma unreplace_in_place_witness :
  refs_ok example_store = true /\
  exists ds',
    _unreplace_st example_store = Ok (tt, mkStore (items example_store) ds') /\
    List.length ds' = List.length (dicts example_store) /\
    forall a d, nth_error (dicts example_store) a = Some d ->
                nth_error ds' a =
                Some (if refers (items example_store) a then unescape_dict d else d).
Proof.
  split; [reflexivity|].
  apply (unreplace_in_place example_store). reflexivity.
Defined.

Lemma resolve_unescaped (vs : list value) (ds : list termdict) :
  forall (ws : list value) (ts : list token),
    (forall w, In w ws -> In w vs) ->
    resolve_all ds ws = Some ts ->
    resolve_all (fold_left unreplace_step vs ds) ws = Some (map unescape_token ts).
Proof.
  induction ws as [|w ws IH]; intros ts Hin H.
  - injection H as <-. reflexivity.
  - cbn [resolve_all] in H |- *.
    destruct (resolve_value ds w) as [t|] eqn:Ew; [|discriminate].
    destruct (resolve_all ds ws) as [ts'|] eqn:Er; [|discriminate].
    injection H as <-.
    rewrite (IH ts' (fun x Hx => Hin x (or_intror Hx)) eq_refl).
    assert (R : resolve_value (fold_left unreplace_step vs ds) w =
                Some (unescape_token t)).
    { destruct w as [s|a]; cbn [resolve_value] in Ew |- *.
      - injection Ew as <-. reflexivity.
      - destruct (nth_error ds a) as [d|] eqn:Ed; [|discriminate].
        cbn [option_map] in Ew. injection Ew as <-.
        rewrite (unreplace_steps_nth vs ds a d Ed).
        assert (Rf : refers vs a = true).
        { unfold refers. apply existsb_exists. exists (VDict a).
          split; [apply Hin; left; reflexivity | apply Nat.eqb_refl]. }
        rewrite Rf. reflexivity. }
    rewrite R. reflexivity.
Qed.

(** X17.  The in-place [_unreplace] agrees with the unescaper on the
    tokens that the store denotes, also when several items of the list
    are the same dictionary: the store it leaves denotes the token list
    that [_unreplace] returns for the tokens of the store it was given. *)
Theorem unreplace_in_place_agrees (st : store) (ts : list token) :
  refs_ok st = true ->
  resolve st = Some ts ->
  exists st' ts',
    _unreplace_st st = Ok (tt, st') /\
    _unreplace ts = Ok ts' /\
    resolve st' = Some ts'.
Proof.
  intros H R.
  exists (mkStore (items st) (fold_left unreplace_step (items st) (dicts st))).
  exists (map unescape_token ts).
  split; [apply unreplace_st_eq; exact H|].
  split; [apply _unreplace_eq|].
  unfold resolve in *. cbn [items dicts].
  apply resolve_unescaped; [intros w Hw; exact Hw | exact R].
Qed.

Lemma unreplace_in_place_agrees_witness :
  refs_ok example_store = true /\
  resolve example_store =
    Some [Term (mkTerm (Some "a") "x_&_SPACE_&_y"); Literal "OR";
          Term (mkTerm (Some "a") "x_&_SPACE_&_y"); Term (mkTerm None "z")] /\
  exists st' ts',
    _unreplace_st example_store = Ok (tt, st') /\
    _unreplace [Term (mkTerm (Some "a") "x_&_SPACE_&_y"); Literal "OR";
                Term (mkTerm (Some "a") "x_&_SPACE_&_y"); Term (mkTerm None "z")]
      = Ok ts' /\
    resolve st' = Some ts'.
Proof.
  split; [reflexivity|]. split; [reflexivity|].
  apply (unreplace_in_place_agrees example_store); reflexivity.
Defined.

(** ** Replacements in a coded string *)

Lemma pm_no_prefix (bad : string) (x : string) :
  forall a rest,
    head_ok bad rest = true ->
    match pm x a with
    | None => True
    | Some None => False
    | Some (Some h) => mem h bad = true
    end ->
    prefix x (a ++ rest) = false.
Proof.
  induction x as [|c x IH]; intros a rest Hr H; [destruct H|].
  destruct a as [|d a]; cbn [pm] in H.
  - cbn [append]. destruct rest as [|e rest]; [reflexivity|].
    rewrite prefix_cons. cbn [head_ok] in Hr. apply negb_true_iff in Hr.
    destruct (Ascii.eqb c e) eqn:E; [|reflexivity].
    apply Ascii.eqb_eq in E. subst e. congruence.
  - cbn [append]. rewrite prefix_cons. destruct (Ascii.eqb c d); [|reflexivity].
    cbn [andb]. apply IH; assumption.
Qed.

Lemma skip_marker (x t a bad rest : string) :
  skip_ok x a bad = true -> head_ok bad rest = true ->
  str_replace x t (a ++ rest) = a ++ str_replace x t rest.
Proof.
  intros H Hr. induction a as [|c a IH]; [reflexivity|].
  cbn [skip_ok] in H. apply andb_true_iff in H. destruct H as [H1 H2].
  change (String c a ++ rest) with (String c (a ++ rest)).
  rewrite str_replace_miss.
  - rewrite (IH H2). reflexivity.
  - change (String c (a ++ rest)) with (String c a ++ rest).
    apply (pm_no_prefix bad); [exact Hr|].
    destruct (pm x (String c a)) as [[h|]|]; [exact H1 | discriminate | exact I].
Qed.

Lemma prefix_app_self (x rest : string) : prefix x (x ++ rest) = true.
Proof.
  induction x as [|c x IH]; [destruct rest; reflexivity|].
  cbn [append]. rewrite prefix_cons, eqb_char_refl. exact IH.
Qed.

Lemma drop_app_self (x rest : string) : drop (String.length x) (x ++ rest) = rest.
Proof.
  induction x as [|c x IH]; [destruct rest; reflexivity|]. exact IH.
Qed.

Lemma head_ok_app (bad a rest : string) :
  truthy a = true -> head_ok bad a = true -> head_ok bad (a ++ rest) = true.
Proof. destruct a as [|c a]; [discriminate|]. intros _ H. exact H. Qed.

Lemma map_chars_head_ok (x bad : string) (e : ascii -> string) (s : string) :
  all_chars (fun c => atom_ok x bad (e c)) s = true ->
  head_ok bad (map_chars e s) = true.
Proof.
  destruct s as [|c s]; [reflexivity|]. cbn [all_chars map_chars]. intros H.
  apply andb_true_iff in H. destruct H as [H _]. unfold atom_ok in H.
  apply andb_true_iff in H. destruct H as [H H3].
  apply andb_true_iff in H. destruct H as [_ H2].
  apply head_ok_app; assumption.
Qed.

(** The replacement of [x] in a coded string replaces the pieces that are
    [x] and nothing else. *)
Lemma replace_map_chars (x0 : ascii) (x' t bad : string) (e : ascii -> string)
  (s : string) :
  all_chars (fun c => atom_ok (String x0 x') bad (e c)) s = true ->
  str_replace (String x0 x') t (map_chars e s) =
  map_chars (fun c => if String.eqb (e c) (String x0 x') then t else e c) s.
Proof.
  induction s as [|c s IH]; intros H; [reflexivity|].
  pose proof (map_chars_head_ok _ _ _ _ H) as Hh.
  cbn [all_chars] in H. apply andb_true_iff in H. destruct H as [Hc H].
  pose proof (map_chars_head_ok _ _ _ _ H) as Hr.
  cbn [map_chars]. unfold atom_ok in Hc.
  apply andb_true_iff in Hc. destruct Hc as [Hc _].
  apply andb_true_iff in Hc. destruct Hc as [Hc _].
  destruct (String.eqb (e c) (String x0 x')) eqn:E.
  - apply String.eqb_eq in E. rewrite E.
    rewrite str_replace_hit by apply prefix_app_self.
    change (S (String.length x')) with (String.length (String x0 x')).
    rewrite drop_app_self, (IH H). reflexivity.
  - cbn [orb] in Hc. rewrite (skip_marker _ t _ bad _ Hc Hr), (IH H). reflexivity.
Qed.

Lemma map_chars_ext (f g : ascii -> string) (s : string) :
  (forall c, mem c s = true -> f c = g c) -> map_chars f s = map_chars g s.
Proof.
  induction s as [|c s IH]; intros H; [reflexivity|].
  cbn [map_chars]. rewrite (H c), IH; [reflexivity| |].
  - intros d Hd. apply H. cbn [mem]. rewrite Hd. apply orb_true_r.
  - cbn [mem]. rewrite eqb_char_refl. reflexivity.
Qed.

Lemma map_chars_app (f : ascii -> string) (a b : string) :
  map_chars f (a ++ b) = map_chars f a ++ map_chars f b.
Proof.
  induction a as [|c a IH]; [reflexivity|].
  cbn [append map_chars]. rewrite IH, append_assoc. reflexivity.
Qed.

Lemma all_chars_map_chars (p : ascii -> bool) (f : ascii -> string) (s : string) :
  (forall c, mem c s = true -> all_chars p (f c) = true) ->
  all_chars p (map_chars f s) = true.
Proof.
  induction s as [|c s IH]; intros H; [reflexivity|].
  cbn [map_chars]. rewrite all_chars_app, (H c), IH; [reflexivity| |].
  - intros d Hd. apply H. cbn [mem]. rewrite Hd. apply orb_true_r.
  - cbn [mem]. rewrite eqb_char_refl. reflexivity.
Qed.

Lemma all_chars_forall (p : ascii -> bool) (s : string) :
  all_chars p s = true -> forall c, mem c s = true -> p c = true.
Proof.
  induction s as [|d s IH]; intros H c Hc; [discriminate|].
  cbn [all_chars] in H. apply andb_true_iff in H. destruct H as [Hd H].
  cbn [mem] in Hc. apply orb_true_iff in Hc. destruct Hc as [E|Hc].
  - apply Ascii.eqb_eq in E. subst d. exact Hd.
  - apply IH; assumption.
Qed.

Lemma all_chars_intro (p : ascii -> bool) (s : string) :
  (forall c, mem c s = true -> p c = true) -> all_chars p s = true.
Proof.
  induction s as [|d s IH]; intros H; [reflexivity|].
  cbn [all_chars]. rewrite (H d), IH; [reflexivity| |].
  - intros c Hc. apply H. cbn [mem]. rewrite Hc. apply orb_true_r.
  - cbn [mem]. rewrite eqb_char_refl. reflexivity.
Qed.

Lemma steps_map_chars (bad : string) (ps : list (string * string)) :
  forallb (fun p => truthy (fst p)) ps = true ->
  forall (e : ascii -> string) (s : string),
    (forall c, mem c s = true -> ok_steps ps bad (e c) = true) ->
    replace_steps ps (map_chars e s) = map_chars (fun c => atom_steps ps (e c)) s.
Proof.
  unfold replace_steps.
  induction ps as [|[x t] ps IH]; intros T e s H; [reflexivity|].
  cbn [forallb fst] in T. apply andb_true_iff in T. destruct T as [Tx T].
  destruct x as [|x0 x']; [discriminate|].
  cbn [fold_left fst snd].
  rewrite (replace_map_chars x0 x' t bad).
  - rewrite (IH T). 
    + reflexivity.
    + intros c Hc. specialize (H c Hc). cbn [ok_steps] in H.
      apply andb_true_iff in H. apply H.
  - apply all_chars_intro. intros c Hc. specialize (H c Hc). cbn [ok_steps] in H.
    apply andb_true_iff in H. apply H.
Qed.

Lemma char_is_no_marker (c x0 x1 : ascii) (x' : string) :
  String.eqb (str1 c) (String x0 (String x1 x')) = false.
Proof.
  unfold str1. cbn [String.eqb]. destruct (Ascii.eqb c x0); reflexivity.
Qed.

Lemma char_atom_ok (c x0 x1 : ascii) (x' bad : string) :
  mem x1 bad = true -> mem c bad = false ->
  atom_ok (String x0 (String x1 x')) bad (str1 c) = true.
Proof.
  intros H1 Hc. unfold atom_ok. rewrite char_is_no_marker.
  unfold str1. cbn [orb skip_ok pm truthy head_ok]. rewrite Hc.
  destruct (Ascii.eqb x0 c); [rewrite H1|]; reflexivity.
Qed.

Lemma quiet_char_inv (c : ascii) :
  quiet_char c = true ->
  Ascii.eqb c newline = false /\ mem c (DQ ++ BS ++ "{[/_") = false /\
  mem c marker_heads = false.
Proof.
  unfold quiet_char. intros H. apply andb_true_iff in H. destruct H as [H1 H2].
  apply negb_true_iff in H1. apply negb_true_iff in H2.
  split; [exact H1|].
  change (DQ ++ BS ++ "{[/_" ++ marker_heads)
    with (String dquote (String backslash (String "{" (String "[" (String "/"
           (String "_" marker_heads)))))) in H2.
  cbn [mem] in H2.
  repeat (apply orb_false_iff in H2; destruct H2 as [? H2]).
  split; [|unfold marker_heads; cbn [mem]; repeat (apply orb_false_iff; split); assumption].
  cbn [DQ BS str1 append mem].
  repeat (apply orb_false_iff; split); try assumption; reflexivity.
Qed.

(** ** Quoted strings *)

Lemma protect_restored (c : ascii) :
  quiet_char c = true \/ c = dquote ->
  ok_steps rev_table marker_heads (protect c) = true /\
  atom_steps rev_table (protect c) = (if isspace c then " " else str1 c).
Proof.
  intros H. unfold protect.
  destruct (isspace c) eqn:Es; [split; reflexivity|].
  destruct (Ascii.eqb ":" c) eqn:E1.
  { apply Ascii.eqb_eq in E1. subst c. split; reflexivity. }
  destruct (Ascii.eqb "(" c) eqn:E2.
  { apply Ascii.eqb_eq in E2. subst c. split; reflexivity. }
  destruct (Ascii.eqb ")" c) eqn:E3.
  { apply Ascii.eqb_eq in E3. subst c. split; reflexivity. }
  destruct H as [H| ->]; [|split; reflexivity].
  destruct (quiet_char_inv c H) as (_ & _ & Hm).
  unfold rev_table. cbn [ok_steps atom_steps].
  repeat (rewrite char_is_no_marker; cbv iota).
  rewrite !(fun x0 x' => char_atom_ok c x0 "&" x' marker_heads eq_refl Hm).
  split; reflexivity.
Qed.

Lemma unescape_protected (s : string) :
  all_chars (fun c => quiet_char c || Ascii.eqb c dquote) s = true ->
  unescape (map_chars protect s) = blanked s.
Proof.
  intros H. unfold unescape.
  rewrite (steps_map_chars marker_heads rev_table eq_refl).
  - apply map_chars_ext. intros c Hc. apply protect_restored.
    pose proof (all_chars_forall _ _ H c Hc) as Q. cbv beta in Q.
    apply orb_true_iff in Q. destruct Q as [Q|Q]; [left; exact Q|].
    right. apply Ascii.eqb_eq. exact Q.
  - intros c Hc. apply protect_restored.
    pose proof (all_chars_forall _ _ H c Hc) as Q. cbv beta in Q.
    apply orb_true_iff in Q. destruct Q as [Q|Q]; [left; exact Q|].
    right. apply Ascii.eqb_eq. exact Q.
Qed.

Lemma re_sub_cls (k : cclass) (tmpl t s : string) :
  expand_template tmpl = Ok t ->
  re_sub (Cls k) tmpl s =
  Ok (map_chars (fun c => if in_class k c then t else str1 c) s).
Proof.
  intros H. rewrite (re_sub_template _ tmpl t s H). f_equal.
  unfold finditer. generalize (@nil ascii) as b.
  induction s as [|c s IH]; intros b; [reflexivity|].
  cbn [scan]. unfold match_at. cbn [rx map_chars].
  destruct (in_class k c); cbn [take plain_pieces str1 append]; rewrite IH;
    reflexivity.
Qed.

Lemma prefix_empty (s : string) : prefix "" s = true.
Proof. destruct s; reflexivity. Qed.

Lemma str_replace_char (x : ascii) (t s : string) :
  str_replace (str1 x) t s =
  map_chars (fun c => if Ascii.eqb x c then t else str1 c) s.
Proof.
  induction s as [|c s IH]; [reflexivity|].
  cbn [map_chars]. unfold str1 at 1.
  destruct (Ascii.eqb x c) eqn:E.
  - rewrite str_replace_hit by (rewrite prefix_cons, E; apply prefix_empty).
    cbn [String.length drop]. change (String x "") with (str1 x).
    rewrite IH. reflexivity.
  - rewrite str_replace_miss by (rewrite prefix_cons, E; reflexivity).
    change (String x "") with (str1 x). rewrite IH. reflexivity.
Qed.

Lemma re_sub_char (x : ascii) (tmpl t s : string) :
  expand_template tmpl = Ok t ->
  re_sub (Lit (str1 x)) tmpl s =
  Ok (map_chars (fun c => if Ascii.eqb x c then t else str1 c) s).
Proof.
  intros H. rewrite (re_sub_lit _ tmpl t s H), str_replace_char. reflexivity.
Qed.

Lemma inert_inv (c : ascii) :
  inert c = true ->
  Ascii.eqb c newline = false /\ Ascii.eqb dquote c = false /\
  mem c "{[/" = false.
Proof.
  unfold inert. intros H. apply andb_true_iff in H. destruct H as [H1 H2].
  apply negb_true_iff in H1. apply negb_true_iff in H2.
  change (DQ ++ "{[/") with (String dquote "{[/") in H2. cbn [mem] in H2 |- *.
  apply orb_false_iff in H2. destruct H2 as [H2 H3].
  rewrite Ascii.eqb_sym. auto.
Qed.

Lemma star_lazy_to_quote (inner : string) :
  all_chars inert inner = true ->
  forall b n,
    star_lazy (in_class Dot) (lit_at DQ (fun _ _ m => Some m)) b (inner ++ DQ) n =
    Some (n + String.length inner + 1).
Proof.
  induction inner as [|c inner IH]; intros H b n.
  - cbn [append String.length DQ str1 star_lazy lit_at].
    rewrite eqb_char_refl. f_equal. lia.
  - cbn [all_chars] in H. apply andb_true_iff in H. destruct H as [Hc H].
    destruct (inert_inv c Hc) as (N & Q & _).
    cbn [append String.length star_lazy]. unfold DQ at 1, str1 at 1.
    cbn [lit_at]. rewrite Q. cbn [in_class]. rewrite N. cbn [negb].
    rewrite (IH H). f_equal. lia.
Qed.

Lemma match_at_quoted (inner : string) (b : list ascii) :
  all_chars inert inner = true ->
  match_at quoted b (DQ ++ inner ++ DQ) = Some (S (String.length inner + 1)).
Proof.
  intros H. unfold match_at, quoted.
  change (rx (Seq (Lit DQ) (Seq (StarLazy Dot) (Lit DQ))) (fun _ _ n => Some n) b
            (DQ ++ inner ++ DQ) 0)
    with (lit_at DQ (star_lazy (in_class Dot) (lit_at DQ (fun _ _ n => Some n))) b
            (String dquote (inner ++ DQ)) 0).
  unfold DQ at 1, str1 at 1. cbn [lit_at]. rewrite eqb_char_refl.
  rewrite (star_lazy_to_quote inner H). reflexivity.
Qed.

Lemma scan_skip_all (r : regex) :
  (forall b, match_at r b "" = None) ->
  forall s b, scan r b (String.length s) s = [].
Proof.
  intros H. induction s as [|c s IH]; intros b.
  - cbn [String.length scan]. rewrite H. reflexivity.
  - cbn [String.length scan]. apply IH.
Qed.

Lemma take_all (s : string) : take (String.length s) s = s.
Proof. induction s as [|c s IH]; [reflexivity|]. cbn [String.length take]. rewrite IH. reflexivity. Qed.

Lemma findall_quoted (inner : string) :
  all_chars inert inner = true ->
  re_findall quoted (DQ ++ inner ++ DQ) = [DQ ++ inner ++ DQ].
Proof.
  intros H. unfold re_findall, finditer.
  pose proof (match_at_quoted inner [] H) as M.
  change (DQ ++ inner ++ DQ) with (String dquote (inner ++ DQ)) in M |- *.
  cbn [scan]. rewrite M.
  replace (String.length inner + 1) with (String.length (inner ++ DQ))
    by (rewrite append_length; reflexivity).
  rewrite scan_skip_all by (intros b; reflexivity).
  change (S (String.length (inner ++ DQ)))
    with (String.length (String dquote (inner ++ DQ))).
  rewrite take_all. reflexivity.
Qed.

Lemma str_replace_whole (c : ascii) (x t : string) :
  str_replace (String c x) t (String c x) = t.
Proof.
  pose proof (prefix_app_self (String c x) "") as P.
  pose proof (drop_app_self (String c x) "") as D.
  rewrite append_nil_r in P, D.
  rewrite (str_replace_hit c x t _ P).
  change (S (String.length x)) with (String.length (String c x)).
  rewrite D. apply append_nil_r.
Qed.

Lemma inert_quoted_absent (inner : string) (c : ascii) :
  all_chars inert inner = true -> mem c "{[/" = true ->
  mem c (DQ ++ inner ++ DQ) = false.
Proof.
  intros H Hc.
  apply (all_chars_mem (fun d => negb (mem d "{[/"))); [|rewrite Hc; reflexivity].
  assert (A : all_chars (fun d => negb (mem d "{[/")) inner = true).
  { apply (all_chars_weaken inert); [|exact H].
    intros d Hd. destruct (inert_inv d Hd) as (_ & _ & M). rewrite M. reflexivity. }
  rewrite !all_chars_app, A. reflexivity.
Qed.

(** One rewriting of the ranges on a quoted string: the three patterns of
    the ranges find nothing, the pattern of the quoted string finds the
    whole subject, and the subject is replaced with its rewriting. *)
Lemma replace_in_quoted (inner : string) (repair : regex * string)
  (p : ascii -> bool) (t : string) :
  (forall s, re_sub (fst repair) (snd repair) s =
             Ok (map_chars (fun c => if p c then t else str1 c) s)) ->
  p dquote = false ->
  all_chars inert inner = true ->
  _replace_in_range (DQ ++ inner ++ DQ) [rangeex; rangeinc; regex_pat; quoted] repair =
  Ok (DQ ++ map_chars (fun c => if p c then t else str1 c) inner ++ DQ).
Proof.
  intros Hsub Hq H. unfold _replace_in_range. cbn [foldM].
  assert (R1 : re_findall rangeex (DQ ++ inner ++ DQ) = []).
  { apply (scan_absent _ "{"%char); [apply range_pat_absent; reflexivity|].
    apply inert_quoted_absent; [exact H | reflexivity]. }
  assert (R2 : re_findall rangeinc (DQ ++ inner ++ DQ) = []).
  { apply (scan_absent _ "["%char); [apply range_pat_absent; reflexivity|].
    apply inert_quoted_absent; [exact H | reflexivity]. }
  assert (R3 : re_findall regex_pat (DQ ++ inner ++ DQ) = []).
  { apply (scan_absent _ "/"%char); [apply range_pat_absent; reflexivity|].
    apply inert_quoted_absent; [exact H | reflexivity]. }
  rewrite R1. cbn [mapM bind combine fold_left].
  rewrite R2. cbn [mapM bind combine fold_left].
  rewrite R3. cbn [mapM bind combine fold_left].
  rewrite (findall_quoted inner H). cbn [mapM]. rewrite Hsub.
  cbn [bind combine fold_left fst snd].
  assert (W : forall t', str_replace (DQ ++ inner ++ DQ) t' (DQ ++ inner ++ DQ) = t')
    by (intros t'; apply (str_replace_whole dquote (inner ++ DQ))).
  rewrite W, !map_chars_app. cbn [DQ str1 map_chars]. rewrite Hq.
  reflexivity.
Qed.

Lemma inert_map_chars (p : ascii -> bool) (t s : string) :
  all_chars inert t = true -> all_chars inert s = true ->
  all_chars inert (map_chars (fun c => if p c then t else str1 c) s) = true.
Proof.
  intros Ht Hs. apply all_chars_map_chars. intros c Hc.
  destruct (p c); [exact Ht|].
  cbn [str1 all_chars]. rewrite (all_chars_forall _ _ Hs c Hc). reflexivity.
Qed.

Lemma map_chars_compose (f g : ascii -> string) (s : string) :
  map_chars g (map_chars f s) = map_chars (fun c => map_chars g (f c)) s.
Proof.
  induction s as [|c s IH]; [reflexivity|].
  cbn [map_chars]. rewrite map_chars_app, IH. reflexivity.
Qed.

Lemma protect_by_steps (c : ascii) :
  map_chars
    (fun c1 =>
       map_chars
         (fun c2 =>
            map_chars (fun d => if Ascii.eqb ")" d then "_&_RENS_&_" else str1 d)
              (if Ascii.eqb "(" c2 then "_&_PA_&_" else str1 c2))
         (if Ascii.eqb ":" c1 then "_&_COLON_&_" else str1 c1))
    (if isspace c then "_&_SPACE_&_" else str1 c) =
  protect c.
Proof.
  unfold protect. destruct (isspace c); [reflexivity|].
  cbn [str1 map_chars]. destruct (Ascii.eqb ":" c) eqn:E1; [reflexivity|].
  cbn [str1 map_chars append]. destruct (Ascii.eqb "(" c) eqn:E2; [reflexivity|].
  cbn [str1 map_chars append]. destruct (Ascii.eqb ")" c) eqn:E3; reflexivity.
Qed.

Lemma _repspaces_in_ranges_quoted (body : string) :
  all_chars inert body = true ->
  _repspaces_in_ranges (DQ ++ body ++ DQ) = Ok (DQ ++ map_chars protect body ++ DQ).
Proof.
  intros H. unfold _repspaces_in_ranges. cbn [foldM].
  rewrite (replace_in_quoted body (_replacepairs space) isspace "_&_SPACE_&_"
             (fun s => re_sub_cls Space "_&_SPACE_&_" "_&_SPACE_&_" s eq_refl) eq_refl H).
  cbn [bind].
  pose proof (inert_map_chars isspace "_&_SPACE_&_" body eq_refl H) as H1.
  rewrite (replace_in_quoted _ (_replacepairs colon) (Ascii.eqb ":") "_&_COLON_&_"
             (fun s => re_sub_char ":" "_&_COLON_&_" "_&_COLON_&_" s eq_refl) eq_refl H1).
  cbn [bind].
  pose proof (inert_map_chars (Ascii.eqb ":") "_&_COLON_&_" _ eq_refl H1) as H2.
  rewrite (replace_in_quoted _ (_replacepairs pa) (Ascii.eqb "(") "_&_PA_&_"
             (fun s => re_sub_char "(" "_&_PA_&_" "_&_PA_&_" s eq_refl) eq_refl H2).
  cbn [bind].
  pose proof (inert_map_chars (Ascii.eqb "(") "_&_PA_&_" _ eq_refl H2) as H3.
  rewrite (replace_in_quoted _ (_replacepairs rens) (Ascii.eqb ")") "_&_RENS_&_"
             (fun s => re_sub_char ")" "_&_RENS_&_" "_&_RENS_&_" s eq_refl) eq_refl H3).
  cbn [bind]. rewrite !map_chars_compose.
  do 3 f_equal. apply map_chars_ext. intros c _. apply protect_by_steps.
Qed.

Lemma protect_calm (c : ascii) :
  all_chars (fun d => negb (isspace d) && negb (mem d ":()")) (protect c) = true.
Proof.
  unfold protect. destruct (isspace c) eqn:Es; [reflexivity|].
  destruct (Ascii.eqb ":" c) eqn:E1; [reflexivity|].
  destruct (Ascii.eqb "(" c) eqn:E2; [reflexivity|].
  destruct (Ascii.eqb ")" c) eqn:E3; [reflexivity|].
  cbn [str1 all_chars mem]. rewrite Es.
  rewrite (Ascii.eqb_sym c ":"%char), E1, (Ascii.eqb_sym c "("%char), E2,
    (Ascii.eqb_sym c ")"%char), E3.
  reflexivity.
Qed.

Lemma quiet_inert (body : string) :
  all_chars quiet_char body = true -> all_chars inert body = true.
Proof.
  apply all_chars_weaken. intros c Hc.
  destruct (quiet_char_inv c Hc) as (N & M & _).
  unfold inert. rewrite N.
  change (DQ ++ BS ++ "{[/_")
    with (String dquote (String backslash "{[/_")) in M.
  change (DQ ++ "{[/") with (String dquote "{[/").
  cbn [mem] in M |- *.
  repeat (apply orb_false_iff in M; destruct M as [? M]).
  repeat match goal with E : Ascii.eqb c _ = false |- _ => rewrite E; clear E end.
  reflexivity.
Qed.

Lemma protected_quoted (body : string) :
  DQ ++ map_chars protect body ++ DQ = map_chars protect (DQ ++ body ++ DQ).
Proof. rewrite !map_chars_app. reflexivity. Qed.

Lemma raw_tokens_quoted (body : string) :
  all_chars quiet_char body = true ->
  raw_tokens (DQ ++ body ++ DQ) = Ok [DQ ++ map_chars protect body ++ DQ].
Proof.
  intros A.
  assert (B : mem backslash (DQ ++ body ++ DQ) = false).
  { apply (all_chars_mem (fun d => negb (Ascii.eqb d backslash)));
      [|reflexivity].
    rewrite !all_chars_app.
    rewrite (all_chars_weaken quiet_char _ body); [reflexivity| |exact A].
    intros c Hc. destruct (quiet_char_inv c Hc) as (_ & M & _).
    change (DQ ++ BS ++ "{[/_")
      with (String dquote (String backslash "{[/_")) in M.
    cbn [mem] in M. apply orb_false_iff in M. destruct M as [_ M].
    apply orb_false_iff in M. destruct M as [M _]. rewrite M. reflexivity. }
  assert (C : all_chars (fun d => negb (isspace d) && negb (mem d ":()"))
                (DQ ++ map_chars protect body ++ DQ) = true).
  { rewrite protected_quoted. apply all_chars_map_chars.
    intros c _. apply protect_calm. }
  assert (M : forall c, mem c ":()" = true ->
                        mem c (DQ ++ map_chars protect body ++ DQ) = false).
  { intros c Hc. apply (all_chars_mem _ c _ C). rewrite Hc.
    apply andb_false_r. }
  unfold raw_tokens, _replace_metaescape, _replace_esc_quotes.
  cbn [_replacepairs].
  rewrite (re_sub_lit_plain (BS ++ BS) "_&_METAESC_&_" "_&_METAESC_&_" _ backslash
             eq_refl eq_refl B).
  cbn [bind].
  rewrite (re_sub_lit_plain (BS ++ DQ) "_&_QUOT_&_" "_&_QUOT_&_" _ backslash
             eq_refl eq_refl B).
  cbn [bind].
  rewrite (_repspaces_in_ranges_quoted body (quiet_inert body A)).
  cbn [bind]. rewrite _addparenswhitespace_eq. cbn [bind].
  rewrite pad_parens_id by (apply M; reflexivity).
  rewrite _stripspaces_nocolon by (apply M; reflexivity).
  cbn [bind].
  rewrite _repspaces_in_subqueries_nogroup
    by (apply (contains_absent _ _ ":"%char); [reflexivity | apply M; reflexivity]).
  cbn [bind]. f_equal.
  pose proof (str_split_word (DQ ++ map_chars protect body ++ DQ) "") as W.
  rewrite append_nil_r in W. apply W.
  - apply (all_chars_weaken _ _ _ (fun c Hc => proj1 (andb_prop _ _ Hc)) C).
  - reflexivity.
  - left. reflexivity.
Qed.

(** X18.  A quoted string is one global term, and its whitespace comes
    back as blanks: when the text between two double quotes holds no
    newline and none of the characters double quote, backslash, opening
    brace, opening bracket, slash, underscore, ampersand and the capitals
    M, Q, S, C, P and R, then [deparse] of the quoted string returns the
    single term without a field whose value is the quoted string with a
    blank for each whitespace character; colons and parentheses in it
    are kept. *)
Theorem deparse_quoted_string (body : string) :
  all_chars quiet_char body = true ->
  deparse (DQ ++ body ++ DQ) =
  Ok [Term (mkTerm None (DQ ++ blanked body ++ DQ))].
Proof.
  intros A. rewrite (deparse_eq _ _ (raw_tokens_quoted body A)).
  cbn [map].
  assert (C : mem ":"%char (DQ ++ map_chars protect body ++ DQ) = false).
  { apply (all_chars_mem (fun d => negb (isspace d) && negb (mem d ":()")));
      [|reflexivity].
    rewrite protected_quoted. apply all_chars_map_chars.
    intros c _. apply protect_calm. }
  rewrite classify_escaped;
    [|reflexivity | apply colons_escaped_nocolon; exact C].
  cbn [unescape_token field term option_map].
  unfold unescape_if. change (truthy (DQ ++ map_chars protect body ++ DQ)) with true.
  cbv iota. rewrite protected_quoted, unescape_protected.
  - unfold blanked. rewrite !map_chars_app. reflexivity.
  - rewrite !all_chars_app.
    rewrite (all_chars_weaken quiet_char _ body); [reflexivity| |exact A].
    intros c Hc. rewrite Hc. reflexivity.
Qed.

Lemma deparse_quoted_string_witness :
  all_chars quiet_char "a  b:c (d)" = true /\
  deparse (DQ ++ "a  b:c (d)" ++ DQ) =
  Ok [Term (mkTerm None (DQ ++ "a  b:c (d)" ++ DQ))].
Proof.
  split; [reflexivity|].
  apply (deparse_quoted_string "a  b:c (d)"). reflexivity.
Defined.

(** The capitals cannot be dropped from the condition: with the name of
    a marker between a colon and a whitespace character the unescaper
    finds a marker that the escaper did not write. *)
Lemma quoted_marker_name_lost :
  deparse (DQ ++ ":SPACE " ++ DQ) =
  Ok [Term (mkTerm None (DQ ++ "_&_COLON SPACE_&_" ++ DQ))].
Proof. vm_compute. reflexivity. Qed.

(** ** Field groups *)

Lemma hits_before (r : regex) (x0 : ascii) :
  (forall b c s, Ascii.eqb x0 c = false -> match_at r b (String c s) = None) ->
  forall pre b s,
    mem x0 pre = false ->
    hits (scan r b 0 (pre ++ s)) = hits (scan r (rev_chars pre b) 0 s).
Proof.
  intros Hr. induction pre as [|c pre IH]; intros b s H; [reflexivity|].
  cbn [mem] in H. apply orb_false_iff in H. destruct H as [E H].
  cbn [append scan]. rewrite (Hr b c _ E). cbn [hits rev_chars].
  apply IH. exact H.
Qed.

Lemma scan_skip_app (r : regex) (a : string) :
  forall b s, scan r b (String.length a) (a ++ s) = scan r (rev_chars a b) 0 s.
Proof.
  induction a as [|c a IH]; intros b s; [reflexivity|].
  cbn [String.length append scan rev_chars]. apply IH.
Qed.

Lemma take_app_self (a s : string) : take (String.length a) (a ++ s) = a.
Proof.
  induction a as [|c a IH]; [destruct s; reflexivity|].
  cbn [String.length append take]. rewrite IH. reflexivity.
Qed.

Lemma scan_hit_whole (r : regex) (b : list ascii) (a post : string) :
  truthy a = true ->
  match_at r b (a ++ post) = Some (String.length a) ->
  hits (scan r b 0 (a ++ post)) = a :: hits (scan r (rev_chars a b) 0 post).
Proof.
  destruct a as [|c a]; [discriminate|]. intros _ H.
  cbn [append String.length] in H |- *. cbn [scan]. rewrite H.
  cbn [hits]. rewrite scan_skip_app.
  change (take (S (String.length a)) (String c (a ++ post)))
    with (take (String.length (String c a)) (String c a ++ post)).
  rewrite take_app_self. reflexivity.
Qed.

Lemma group_char_inv (c : ascii) :
  group_char c = true ->
  Ascii.eqb c newline = false /\ Ascii.eqb ":" c = false /\
  Ascii.eqb ")" c = false /\ Ascii.eqb backslash c = false.
Proof.
  unfold group_char. intros H. apply andb_true_iff in H. destruct H as [H1 H2].
  apply negb_true_iff in H1. apply negb_true_iff in H2.
  change (":)" ++ BS) with (String ":" (String ")" (String backslash ""))) in H2.
  cbn [mem] in H2.
  repeat (apply orb_false_iff in H2; destruct H2 as [? H2]).
  rewrite (Ascii.eqb_sym ":"%char), (Ascii.eqb_sym ")"%char),
    (Ascii.eqb_sym backslash).
  auto.
Qed.

Lemma star_lazy_to_paren (body post : string) :
  all_chars group_char body = true ->
  forall b n,
    starts_with (rev_chars BS []) b = false ->
    star_lazy (in_class Dot)
      (rx (Seq (NotBehind BS) (Lit ")")) (fun _ _ m => Some m))
      b (body ++ ")" ++ post) n =
    Some (n + String.length body + 1).
Proof.
  induction body as [|c body IH]; intros H b n Hb.
  - cbn [append String.length star_lazy rx lit_at]. rewrite Hb, eqb_char_refl.
    f_equal. lia.
  - cbn [all_chars] in H. apply andb_true_iff in H. destruct H as [Hc H].
    destruct (group_char_inv c Hc) as (N & _ & P & B).
    cbn [append String.length star_lazy rx lit_at]. rewrite Hb, P.
    cbn [in_class]. rewrite N. cbn [negb].
    rewrite (IH H).
    + f_equal. lia.
    + cbn [BS str1 rev_chars starts_with]. rewrite B. reflexivity.
Qed.

Lemma match_at_subquery (body post : string) (b : list ascii) :
  all_chars group_char body = true ->
  match_at subquery_pat b ((":(" ++ body ++ ")") ++ post) =
  Some (String.length (":(" ++ body ++ ")")).
Proof.
  intros H. unfold match_at, subquery_pat.
  change (rx (Seq (Lit ":(") (Seq (StarLazy Dot) (Seq (NotBehind BS) (Lit ")"))))
            (fun _ _ n => Some n) b ((":(" ++ body ++ ")") ++ post) 0)
    with (lit_at ":("
            (star_lazy (in_class Dot)
               (rx (Seq (NotBehind BS) (Lit ")")) (fun _ _ m => Some m)))
            b (String ":" (String "(" ((body ++ ")") ++ post))) 0).
  cbn [lit_at]. rewrite !eqb_char_refl, append_assoc.
  rewrite (star_lazy_to_paren body post H) by reflexivity.
  cbn [append String.length]. rewrite append_length. reflexivity.
Qed.

Lemma subquery_needs_colon :
  forall b c s, Ascii.eqb ":" c = false -> match_at subquery_pat b (String c s) = None.
Proof.
  intros b c s H. unfold match_at, subquery_pat. cbn [rx lit_at]. rewrite H.
  reflexivity.
Qed.

Lemma group_assoc (body post : string) :
  ":(" ++ body ++ ")" ++ post = (":(" ++ body ++ ")") ++ post.
Proof. cbn [append]. rewrite append_assoc. reflexivity. Qed.

Lemma findall_group (pre body post : string) :
  mem ":"%char pre = false -> all_chars group_char body = true ->
  mem ":"%char post = false ->
  re_findall subquery_pat (pre ++ ":(" ++ body ++ ")" ++ post) =
  [":(" ++ body ++ ")"].
Proof.
  intros Hpre H Hpost. unfold re_findall, finditer.
  rewrite (hits_before _ ":"%char subquery_needs_colon pre [] _ Hpre).
  rewrite group_assoc.
  rewrite (scan_hit_whole _ _ (":(" ++ body ++ ")") post eq_refl
             (match_at_subquery body post _ H)).
  f_equal. apply (scan_absent _ ":"%char); [|exact Hpost].
  intros b s Hs. unfold match_at, subquery_pat. cbn [rx].
  rewrite lit_at_spec, (prefix_absent ":(" s ":"%char eq_refl Hs). reflexivity.
Qed.

Lemma replace_once (x0 : ascii) (x' t pre post : string) :
  mem x0 pre = false -> mem x0 post = false ->
  str_replace (String x0 x') t (pre ++ String x0 x' ++ post) = pre ++ t ++ post.
Proof.
  intros Hpre Hpost. induction pre as [|c pre IH].
  - change ("" ++ String x0 x' ++ post) with (String x0 x' ++ post).
    rewrite (str_replace_hit x0 x' t _ (prefix_app_self (String x0 x') post)).
    change (S (String.length x')) with (String.length (String x0 x')).
    rewrite drop_app_self, str_replace_absent; [reflexivity|].
    apply (contains_absent _ _ x0); [|exact Hpost].
    cbn [mem]. rewrite eqb_char_refl. reflexivity.
  - cbn [mem] in Hpre. apply orb_false_iff in Hpre. destruct Hpre as [E Hpre].
    change (String c pre ++ String x0 x' ++ post)
      with (String c (pre ++ String x0 x' ++ post)).
    rewrite str_replace_miss by (rewrite prefix_cons, E; reflexivity).
    rewrite (IH Hpre). reflexivity.
Qed.

(** One rewriting of the field groups on a string with one group. *)
Lemma replace_in_group (pre body body' post : string) (repair : regex * string) :
  mem ":"%char pre = false -> all_chars group_char body = true ->
  mem ":"%char post = false ->
  re_sub (fst repair) (snd repair) (":(" ++ body ++ ")") = Ok (":(" ++ body' ++ ")") ->
  _replace_in_range (pre ++ ":(" ++ body ++ ")" ++ post) [subquery_pat] repair =
  Ok (pre ++ ":(" ++ body' ++ ")" ++ post).
Proof.
  intros Hpre H Hpost Hsub. unfold _replace_in_range. cbn [foldM].
  rewrite (findall_group pre body post Hpre H Hpost). cbn [mapM].
  rewrite Hsub. cbn [bind combine fold_left fst snd]. f_equal.
  rewrite !group_assoc.
  apply (replace_once ":" ("(" ++ body ++ ")") (":(" ++ body' ++ ")") pre post Hpre Hpost).
Qed.

Lemma hits_none_pieces (r : regex) (t s : string) :
  forall b, hits (scan r b 0 s) = [] -> plain_pieces t (scan r b 0 s) = s.
Proof.
  induction s as [|c s IH]; intros b H; cbn [scan] in *.
  - destruct (match_at r b "") as [[|j]|]; try discriminate. reflexivity.
  - destruct (match_at r b (String c s)) as [[|j]|]; try discriminate.
    cbn [hits] in H. cbn [plain_pieces]. rewrite (IH _ H). reflexivity.
Qed.

Lemma re_sub_inner_colon (rest : string) :
  mem ":"%char rest = false ->
  re_sub (Seq NotBehindStart (Lit ":")) "_&_COLON_&_" (String ":" rest) =
  Ok (String ":" rest).
Proof.
  intros H. rewrite (re_sub_template _ "_&_COLON_&_" "_&_COLON_&_" _ eq_refl).
  f_equal. apply hits_none_pieces. unfold finditer. cbn [scan].
  change (match_at (Seq NotBehindStart (Lit ":")) [] (String ":" rest))
    with (@None nat).
  cbn [hits]. apply (scan_absent _ ":"%char); [|exact H].
  intros b s Hs. unfold match_at. cbn [rx]. destruct b; [reflexivity|].
  rewrite lit_at_spec, (prefix_absent ":" s ":"%char eq_refl Hs). reflexivity.
Qed.

Lemma mark_spaces_group (body : string) :
  all_chars group_char body = true -> all_chars group_char (mark_spaces body) = true.
Proof.
  intros H. unfold mark_spaces. apply all_chars_map_chars. intros c Hc.
  destruct (isspace c); [reflexivity|].
  cbn [str1 all_chars]. rewrite (all_chars_forall _ _ H c Hc). reflexivity.
Qed.

(** X19.  [_repspaces_in_subqueries] on a string with one field group
    marks the whitespace inside the group and nothing else: when the
    text before and the text after the group hold no colon, and the text
    between the parentheses holds no newline, colon, closing parenthesis
    or backslash, each whitespace character between the parentheses
    becomes the marker of a space, and the colon that opens the group
    stays a colon. *)
Theorem subqueries_mark_group (pre body post : string) :
  mem ":"%char pre = false -> all_chars group_char body = true ->
  mem ":"%char post = false ->
  _repspaces_in_subqueries (pre ++ ":(" ++ body ++ ")" ++ post) =
  Ok (pre ++ ":(" ++ mark_spaces body ++ ")" ++ post).
Proof.
  intros Hpre H Hpost. unfold _repspaces_in_subqueries. cbn [foldM].
  rewrite (replace_in_group pre body (mark_spaces body) post (_replacepairs space)
             Hpre H Hpost).
  - cbn [bind].
    rewrite (replace_in_group pre (mark_spaces body) (mark_spaces body) post
               (Seq NotBehindStart (Lit ":"), "_&_COLON_&_")
               Hpre (mark_spaces_group body H) Hpost).
    + reflexivity.
    + cbn [fst snd]. apply re_sub_inner_colon.
      apply (all_chars_mem (fun c => negb (Ascii.eqb c ":"))); [|reflexivity].
      change ("(" ++ mark_spaces body ++ ")")
        with (String "(" (mark_spaces body ++ ")")).
      cbn [all_chars]. rewrite all_chars_app.
      rewrite (all_chars_weaken group_char (fun c => negb (Ascii.eqb c ":"))
                 (mark_spaces body)); [reflexivity| |exact (mark_spaces_group body H)].
      intros c Hc. destruct (group_char_inv c Hc) as (_ & C & _).
      rewrite Ascii.eqb_sym, C. reflexivity.
  - cbn [_replacepairs fst snd].
    rewrite (re_sub_cls Space "_&_SPACE_&_" "_&_SPACE_&_" _ eq_refl).
    rewrite !map_chars_app. reflexivity.
Qed.

Lemma subqueries_mark_group_witness :
  _repspaces_in_subqueries "a title:(x  y) b" =
  Ok "a title:(x_&_SPACE_&__&_SPACE_&_y) b".
Proof.
  apply (subqueries_mark_group "a title" "x  y" " b"); reflexivity.
Defined.
(** * The round trip on stable tokens *)

(** ** Spans as the patterns see them *)

Lemma behind_rev (x : string) :
  forall b,
    starts_with (rev_chars BS []) (rev_chars x b) =
    last_is_backslash (starts_with (rev_chars BS []) b) x.
Proof.
  induction x as [|c x IH]; intros b; [reflexivity|].
  cbn [rev_chars last_is_backslash]. rewrite IH, behind_cons. reflexivity.
Qed.

Lemma opener_not_backslash (k : kind) : Ascii.eqb (opener k) backslash = false.
Proof. destruct k; reflexivity. Qed.

Lemma closer_not_backslash (k : kind) : Ascii.eqb (closer k) backslash = false.
Proof. destruct k; reflexivity. Qed.

Lemma inert_in_inv (k : kind) (c : ascii) :
  inert_in k c = true ->
  Ascii.eqb c newline = false /\ mem c openers = false /\
  Ascii.eqb c (closer k) = false.
Proof.
  unfold inert_in. intros H. apply andb_true_iff in H. destruct H as [H H3].
  apply andb_true_iff in H. destruct H as [H1 H2].
  apply negb_true_iff in H1. apply negb_true_iff in H2. apply negb_true_iff in H3.
  auto.
Qed.

Lemma opener_in_openers (k : kind) : mem (opener k) openers = true.
Proof. destruct k; reflexivity. Qed.

Lemma not_opener (k : kind) (c : ascii) :
  mem c openers = false -> Ascii.eqb (opener k) c = false.
Proof.
  intros H.
  exact (mem_false_eqb c (opener k) openers H (opener_in_openers k)).
Qed.

Lemma inert_no_opener (k : kind) (b : string) :
  all_chars (inert_in k) b = true -> mem (opener k) b = false.
Proof.
  intros H. apply (all_chars_mem (inert_in k)); [exact H|].
  unfold inert_in. rewrite (opener_in_openers k).
  cbn [negb]. rewrite andb_false_r. reflexivity.
Qed.

Lemma inert_no_closer (k : kind) (b : string) :
  all_chars (inert_in k) b = true -> mem (closer k) b = false.
Proof.
  intros H. apply (all_chars_mem (inert_in k)); [exact H|].
  unfold inert_in. rewrite eqb_char_refl. cbn [negb]. apply andb_false_r.
Qed.

(** The lazy star runs over the body up to the closing character. *)
Lemma star_lazy_body (cl : ascii) (K : cont) (b rest : string) :
  (forall c ctx s n, Ascii.eqb c cl = false -> K ctx (String c s) n = None) ->
  (forall ctx n, starts_with (rev_chars BS []) ctx = false ->
                 K ctx (String cl rest) n = Some (S n)) ->
  forall ctx n,
    all_chars (fun c => negb (Ascii.eqb c newline) && negb (Ascii.eqb c cl)) b = true ->
    last_is_backslash (starts_with (rev_chars BS []) ctx) b = false ->
    star_lazy (in_class Dot) K ctx (b ++ String cl rest) n =
    Some (S (n + String.length b)).
Proof.
  intros Kmiss Khit. induction b as [|c b IH]; intros ctx n H L.
  - cbn [append String.length star_lazy last_is_backslash] in *.
    rewrite (Khit ctx n L). f_equal. lia.
  - cbn [all_chars] in H. apply andb_true_iff in H. destruct H as [Hc H].
    apply andb_true_iff in Hc. destruct Hc as [N C].
    apply negb_true_iff in N. apply negb_true_iff in C.
    cbn [append String.length star_lazy last_is_backslash] in *.
    rewrite (Kmiss c ctx _ n C). cbn [in_class]. rewrite N. cbn [negb].
    rewrite (IH (c :: ctx) (S n) H) by (rewrite behind_cons; exact L).
    f_equal. lia.
Qed.

Lemma match_range (o cl : ascii) (b rest : string) (ctx : list ascii) :
  starts_with (rev_chars BS []) ctx = false ->
  Ascii.eqb o backslash = false ->
  all_chars (fun c => negb (Ascii.eqb c newline) && negb (Ascii.eqb c cl)) b = true ->
  last_is_backslash false b = false ->
  match_at (range_pat (str1 o) (str1 cl)) ctx (String o (b ++ String cl rest)) =
  Some (S (S (String.length b))).
Proof.
  intros Hctx Ho H L. unfold match_at, range_pat.
  change (rx (Seq (NotBehind BS)
                (Seq (Lit (str1 o))
                   (Seq (StarLazy Dot) (Seq (NotBehind BS) (Lit (str1 cl))))))
            (fun _ _ n => Some n) ctx (String o (b ++ String cl rest)) 0)
    with (if starts_with (rev_chars BS []) ctx then None
          else lit_at (str1 o)
                 (star_lazy (in_class Dot)
                    (rx (Seq (NotBehind BS) (Lit (str1 cl))) (fun _ _ n => Some n)))
                 ctx (String o (b ++ String cl rest)) 0).
  rewrite Hctx. cbn [str1 lit_at]. rewrite eqb_char_refl.
  rewrite (star_lazy_body cl _ b rest).
  - reflexivity.
  - intros c ctx' s n C. cbn [rx str1 lit_at].
    destruct (starts_with _ ctx'); [reflexivity|].
    rewrite Ascii.eqb_sym, C. reflexivity.
  - intros ctx' n B. cbn [rx str1 lit_at]. rewrite B, eqb_char_refl. reflexivity.
  - exact H.
  - rewrite behind_cons, Ho. exact L.
Qed.

Lemma match_quoted (b rest : string) (ctx : list ascii) :
  all_chars (fun c => negb (Ascii.eqb c newline) && negb (Ascii.eqb c dquote)) b = true ->
  match_at quoted ctx (String dquote (b ++ String dquote rest)) =
  Some (S (S (String.length b))).
Proof.
  intros H. unfold match_at, quoted.
  change (rx (Seq (Lit DQ) (Seq (StarLazy Dot) (Lit DQ))) (fun _ _ n => Some n) ctx
            (String dquote (b ++ String dquote rest)) 0)
    with (lit_at DQ (star_lazy (in_class Dot) (lit_at DQ (fun _ _ n => Some n))) ctx
            (String dquote (b ++ String dquote rest)) 0).
  unfold DQ at 1, str1 at 1. cbn [lit_at]. rewrite eqb_char_refl.
  assert (S : forall x ctx' n,
             all_chars (fun c => negb (Ascii.eqb c newline) && negb (Ascii.eqb c dquote)) x
             = true ->
             star_lazy (in_class Dot) (lit_at DQ (fun _ _ m => Some m)) ctx'
               (x ++ String dquote rest) n = Some (S (n + String.length x))).
  { induction x as [|c x IH]; intros ctx' n Hx.
    - cbn [append String.length star_lazy DQ str1 lit_at]. rewrite eqb_char_refl.
      f_equal. lia.
    - cbn [all_chars] in Hx. apply andb_true_iff in Hx. destruct Hx as [Hc Hx].
      apply andb_true_iff in Hc. destruct Hc as [N C].
      apply negb_true_iff in N. apply negb_true_iff in C.
      cbn [append String.length star_lazy DQ str1 lit_at].
      rewrite (Ascii.eqb_sym dquote c), C. cbn [in_class]. rewrite N. cbn [negb].
      rewrite (IH _ _ Hx). f_equal. lia. }
  rewrite (S b _ _ H). reflexivity.
Qed.

Lemma inert_dot (k : kind) (b : string) :
  all_chars (inert_in k) b = true ->
  all_chars (fun c => negb (Ascii.eqb c newline) && negb (Ascii.eqb c (closer k))) b = true.
Proof.
  apply all_chars_weaken. intros c Hc.
  destruct (inert_in_inv k c Hc) as (N & _ & C). rewrite N, C. reflexivity.
Qed.

Lemma ibody_inv (k : kind) (b : string) :
  ibody k b = true ->
  all_chars (inert_in k) b = true /\ last_is_backslash false b = false /\
  (symmetric k = true -> starts_in " ~^" b = false).
Proof.
  unfold ibody. intros H. apply andb_true_iff in H. destruct H as [H H3].
  apply andb_true_iff in H. destruct H as [H1 H2].
  apply negb_true_iff in H2. apply negb_true_iff in H3.
  repeat split; try assumption.
  intros S. rewrite S in H3. exact H3.
Qed.

(** The pattern of a kind matches a span of that kind that no backslash
    precedes, up to its closing character. *)
Lemma match_span (k : kind) (b rest : string) (ctx : list ascii) :
  starts_with (rev_chars BS []) ctx = false ->
  ibody k b = true ->
  match_at (pat k) ctx (span_text k b ++ rest) = Some (String.length (span_text k b)).
Proof.
  intros Hctx H. destruct (ibody_inv k b H) as (A & L & _).
  pose proof (inert_dot k b A) as D.
  unfold span_text. cbn [append String.length]. rewrite append_assoc.
  rewrite append_length. cbn [str1 append String.length].
  replace (String.length b + 1) with (S (String.length b)) by lia.
  destruct k.
  - apply (match_range "{" "}" b rest ctx Hctx eq_refl D L).
  - apply (match_range "[" "]" b rest ctx Hctx eq_refl D L).
  - apply (match_range "/" "/" b rest ctx Hctx eq_refl D L).
  - apply (match_quoted b rest ctx D).
Qed.

(** The pattern of a kind matches nowhere but at its opening
    character. *)
Lemma pat_needs_opener (k : kind) :
  forall b c s, Ascii.eqb (opener k) c = false -> match_at (pat k) b (String c s) = None.
Proof.
  intros b c s H. unfold match_at.
  destruct k; cbn [pat opener] in *; unfold rangeex, rangeinc, regex_pat, quoted, range_pat;
    cbn [rx DQ str1 lit_at]; rewrite H; try destruct (starts_with _ b); reflexivity.
Qed.

Lemma pat_not_empty (k : kind) : forall b, match_at (pat k) b "" = None.
Proof.
  intros b. unfold match_at.
  destruct k; cbn [pat]; unfold rangeex, rangeinc, regex_pat, quoted, range_pat;
    cbn [rx DQ str1 lit_at]; try destruct (starts_with _ b); reflexivity.
Qed.

Lemma scan_end (k : kind) (b : list ascii) : scan (pat k) b 0 "" = [].
Proof. cbn [scan]. rewrite pat_not_empty. reflexivity. Qed.

(** What [re.findall] returns for the pattern of a kind: the spans of
    that kind, in their order. *)
Lemma findall_parts (k : kind) (ps : list part) :
  forall ctx,
    wfv k (starts_with (rev_chars BS []) ctx) ps = true ->
    hits (scan (pat k) ctx 0 (flat k ps)) = map (span_text k) (bodies ps).
Proof.
  induction ps as [|[x|b] ps IH]; intros ctx H.
  - cbn [flat]. rewrite scan_end. reflexivity.
  - cbn [wfv] in H. apply andb_true_iff in H. destruct H as [Hx H].
    apply negb_true_iff in Hx. cbn [flat part_text bodies].
    rewrite (hits_before _ (opener k) (pat_needs_opener k) x ctx _ Hx).
    apply IH. rewrite behind_rev. exact H.
  - cbn [wfv] in H. apply andb_true_iff in H. destruct H as [H H4].
    apply andb_true_iff in H. destruct H as [H H3].
    apply andb_true_iff in H. destruct H as [H1 H2].
    apply negb_true_iff in H1. cbn [flat part_text bodies map].
    rewrite (scan_hit_whole _ _ (span_text k b) _ eq_refl (match_span k b _ ctx H1 H2)).
    f_equal. apply IH.
    unfold span_text. cbn [rev_chars]. rewrite behind_rev.
    rewrite behind_cons, opener_not_backslash.
    assert (E : forall y e, last_is_backslash e (y ++ str1 (closer k)) = false).
    { induction y as [|c y IHy]; intros e.
      - cbn [append str1 last_is_backslash]. apply closer_not_backslash.
      - cbn [append last_is_backslash]. apply IHy. }
    rewrite E. exact H4.
Qed.

(** ** The replacement of a span by its rewriting *)

Lemma replace_skip_text (x0 : ascii) (x' t x s : string) :
  mem x0 x = false ->
  str_replace (String x0 x') t (x ++ s) = x ++ str_replace (String x0 x') t s.
Proof.
  induction x as [|c x IH]; intros H; [reflexivity|].
  cbn [mem] in H. apply orb_false_iff in H. destruct H as [E H].
  cbn [append].
  rewrite str_replace_miss by (rewrite prefix_cons, E; reflexivity).
  rewrite (IH H). reflexivity.
Qed.

(** Two bodies that end at the same closing character are the same
    body. *)
Lemma prefix_body_neq (cl : ascii) (b : string) :
  forall x s1 s2,
    mem cl b = false -> mem cl x = false -> String.eqb x b = false ->
    prefix (b ++ String cl s1) (x ++ String cl s2) = false.
Proof.
  induction b as [|c b IH]; intros x s1 s2 Hb Hx N.
  - destruct x as [|d x]; [discriminate N|].
    cbn [mem] in Hx. apply orb_false_iff in Hx. destruct Hx as [E _].
    cbn [append]. rewrite prefix_cons, E. reflexivity.
  - cbn [mem] in Hb. apply orb_false_iff in Hb. destruct Hb as [Ec Hb].
    destruct x as [|d x].
    + cbn [append]. rewrite prefix_cons, Ascii.eqb_sym, Ec. reflexivity.
    + cbn [mem] in Hx. apply orb_false_iff in Hx. destruct Hx as [_ Hx].
      cbn [append]. rewrite prefix_cons.
      destruct (Ascii.eqb c d) eqn:E; [|reflexivity]. cbn [andb].
      apply IH; try assumption.
      cbn [String.eqb] in N. rewrite Ascii.eqb_sym, E in N. exact N.
Qed.

Lemma closer_miss (k : kind) (b rest : string) :
  ibody k b = true -> after_ok rest = true ->
  prefix (span_text k b) (String (closer k) rest) = false.
Proof.
  intros H A. destruct (ibody_inv k b H) as (_ & _ & S).
  unfold span_text. rewrite prefix_cons.
  destruct (symmetric k) eqn:Sk; [|destruct k; try discriminate Sk; reflexivity].
  specialize (S eq_refl).
  assert (C : mem (closer k) " ~^" = false) by (destruct k; reflexivity).
  destruct rest as [|c rest].
  - destruct b; cbn [append str1]; rewrite andb_false_r; reflexivity.
  - cbn [after_ok] in A. destruct b as [|c0 b].
    + cbn [append]. unfold str1. rewrite prefix_cons.
      rewrite (Ascii.eqb_sym (closer k) c).
      rewrite (mem_false_eqb (closer k) c " ~^" C A). rewrite andb_false_r. reflexivity.
    + cbn [starts_in] in S. cbn [append]. rewrite prefix_cons.
      rewrite (Ascii.eqb_sym c0 c), (mem_false_eqb c0 c " ~^" S A).
      rewrite andb_false_r. reflexivity.
Qed.

Lemma span_text_app (k : kind) (x rest : string) :
  span_text k x ++ rest = String (opener k) (x ++ String (closer k) rest).
Proof. unfold span_text. cbn [append]. rewrite append_assoc. reflexivity. Qed.

(** [str.replace] of the text of a span in a string seen as spans and
    text: the spans with that body are replaced, and nothing else. *)
Lemma replace_parts (k : kind) (b b' : string) (ps : list part) :
  ibody k b = true ->
  forall esc,
    wfv k esc ps = true ->
    str_replace (span_text k b) (span_text k b') (flat k ps) =
    flat k (map (subst_part b b') ps).
Proof.
  intros Hb. destruct (ibody_inv k b Hb) as (Ab & _ & _).
  induction ps as [|[x|x] ps IH]; intros esc H.
  - reflexivity.
  - cbn [wfv] in H. apply andb_true_iff in H. destruct H as [Hx H].
    apply negb_true_iff in Hx. cbn [flat part_text map subst_part].
    unfold span_text at 1.
    rewrite (replace_skip_text (opener k) _ _ x _ Hx).
    fold (span_text k b). rewrite (IH _ H). reflexivity.
  - cbn [wfv] in H. apply andb_true_iff in H. destruct H as [H H4].
    apply andb_true_iff in H. destruct H as [H H3].
    apply andb_true_iff in H. destruct H as [_ H2].
    cbn [flat part_text map subst_part].
    destruct (String.eqb x b) eqn:E.
    + apply String.eqb_eq in E. subst x. cbn [flat part_text].
      unfold span_text at 1.
      rewrite str_replace_hit by (apply (prefix_app_self (span_text k b))).
      fold (span_text k b).
      change (S (String.length (b ++ str1 (closer k))))
        with (String.length (span_text k b)).
      rewrite drop_app_self, (IH _ H4). reflexivity.
    + destruct (ibody_inv k x H2) as (Ax & _ & _).
      cbn [flat part_text]. rewrite !span_text_app.
      rewrite str_replace_miss.
      * unfold span_text at 1.
        rewrite (replace_skip_text (opener k) _ _ x _ (inert_no_opener k x Ax)).
        fold (span_text k b).
        rewrite str_replace_miss by (apply closer_miss; assumption).
        rewrite (IH _ H4). reflexivity.
      * unfold span_text. rewrite prefix_cons, eqb_char_refl. cbn [andb str1].
        apply prefix_body_neq; try assumption;
          apply inert_no_closer; assumption.
Qed.

Lemma after_ok_head (s : string) :
  after_ok s = match head s with
               | None => true
               | Some c => mem c " ~^"
               end.
Proof. destruct s; reflexivity. Qed.

(** A rewriting of the bodies keeps the view in order. *)
Lemma wfv_map (k : kind) (g : part -> part) :
  (forall x, g (Txt x) = Txt x) ->
  (forall x, ibody k x = true -> exists y, g (Sp x) = Sp y /\ ibody k y = true) ->
  forall ps esc,
    wfv k esc ps = true ->
    wfv k esc (map g ps) = true /\ head (flat k (map g ps)) = head (flat k ps).
Proof.
  intros Gt Gs. induction ps as [|[x|x] ps IH]; intros esc H.
  - split; reflexivity.
  - cbn [wfv] in H. apply andb_true_iff in H. destruct H as [Hx H].
    destruct (IH _ H) as [W Hd].
    cbn [map]. rewrite Gt. cbn [wfv flat part_text]. rewrite Hx, W.
    split; [reflexivity|]. destruct x as [|c x]; [exact Hd | reflexivity].
  - cbn [wfv] in H. apply andb_true_iff in H. destruct H as [H H4].
    apply andb_true_iff in H. destruct H as [H H3].
    apply andb_true_iff in H. destruct H as [H1 H2].
    destruct (IH _ H4) as [W Hd]. destruct (Gs x H2) as (y & E & Hy).
    cbn [map]. rewrite E. cbn [wfv flat part_text]. rewrite H1, Hy, W.
    rewrite after_ok_head, Hd, <- after_ok_head, H3.
    split; reflexivity.
Qed.

Lemma wfv_subst (k : kind) (b b' : string) (ps : list part) (esc : bool) :
  ibody k b' = true ->
  wfv k esc ps = true -> wfv k esc (map (subst_part b b') ps) = true.
Proof.
  intros Hb' H. apply (wfv_map k (subst_part b b')); [reflexivity| |exact H].
  intros x Hx. cbn [subst_part]. destruct (String.eqb x b); eexists; split;
    try reflexivity; assumption.
Qed.

(** The loop over the matches: each match is replaced by its
    rewriting. *)
Lemma replace_loop (k : kind) (f : string -> string) (bs : list string) :
  (forall b, ibody k b = true -> ibody k (f b) = true) ->
  Forall (fun b => ibody k b = true) bs ->
  forall ps esc,
    wfv k esc ps = true ->
    fold_left (fun q mr => str_replace (fst mr) (snd mr) q)
      (combine (map (span_text k) bs) (map (fun b => span_text k (f b)) bs))
      (flat k ps) =
    flat k (fold_left (fun qs b => map (subst_part b (f b)) qs) bs ps).
Proof.
  intros Hf. induction 1 as [|b bs Hb _ IH]; intros ps esc H; [reflexivity|].
  cbn [map combine fold_left fst snd].
  rewrite (replace_parts k b (f b) ps Hb esc H).
  apply (IH _ esc). apply wfv_subst; [apply Hf; exact Hb | exact H].
Qed.

Lemma fold_subst_map (f : string -> string) (bs : list string) :
  forall ps,
    fold_left (fun qs b => map (subst_part b (f b)) qs) bs ps =
    map (fun p => fold_left (fun q b => subst_part b (f b) q) bs p) ps.
Proof.
  induction bs as [|b bs IH]; intros ps.
  - cbn [fold_left]. symmetry. apply map_id.
  - cbn [fold_left]. rewrite IH, map_map. reflexivity.
Qed.

Lemma fold_subst_txt (f : string -> string) (bs : list string) (x : string) :
  fold_left (fun q b => subst_part b (f b) q) bs (Txt x) = Txt x.
Proof. induction bs as [|b bs IH]; [reflexivity | exact IH]. Qed.

Lemma fold_subst_fixed (f : string -> string) (bs : list string) (y : string) :
  (forall z, f (f z) = f z) ->
  fold_left (fun q b => subst_part b (f b) q) bs (Sp (f y)) = Sp (f y).
Proof.
  intros I. induction bs as [|b bs IH]; [reflexivity|].
  cbn [fold_left subst_part]. destruct (String.eqb (f y) b) eqn:E; [|exact IH].
  apply String.eqb_eq in E. rewrite <- E, I. exact IH.
Qed.

Lemma fold_subst_in (f : string -> string) (bs : list string) (x : string) :
  (forall z, f (f z) = f z) -> In x bs ->
  fold_left (fun q b => subst_part b (f b) q) bs (Sp x) = Sp (f x).
Proof.
  intros I. induction bs as [|b bs IH]; intros H; [destruct H|].
  cbn [fold_left subst_part]. destruct (String.eqb x b) eqn:E.
  - apply String.eqb_eq in E. subst b. apply fold_subst_fixed. exact I.
  - apply IH. destruct H as [H|H]; [|exact H].
    subst b. rewrite String.eqb_refl in E. discriminate.
Qed.

Lemma bodies_in (ps : list part) (x : string) : In (Sp x) ps -> In x (bodies ps).
Proof.
  induction ps as [|[y|y] ps IH]; intros H; [destruct H| |].
  - destruct H as [H|H]; [discriminate | exact (IH H)].
  - destruct H as [H|H]; [injection H as ->; left; reflexivity | right; exact (IH H)].
Qed.

Lemma wfv_bodies (k : kind) (ps : list part) :
  forall esc, wfv k esc ps = true -> Forall (fun b => ibody k b = true) (bodies ps).
Proof.
  induction ps as [|[x|x] ps IH]; intros esc H; [constructor| |].
  - cbn [wfv] in H. apply andb_true_iff in H. destruct H as [_ H].
    exact (IH _ H).
  - cbn [wfv] in H. apply andb_true_iff in H. destruct H as [H H4].
    apply andb_true_iff in H. destruct H as [H _].
    apply andb_true_iff in H. destruct H as [_ H2].
    constructor; [exact H2 | exact (IH _ H4)].
Qed.

(** One pattern of [_replace_in_range]: the bodies of the spans of its
    kind are rewritten. *)
Lemma replace_round (k : kind) (repair : regex * string) (f : ascii -> string)
  (ps : list part) :
  (forall s, re_sub (fst repair) (snd repair) s = Ok (map_chars f s)) ->
  f (opener k) = str1 (opener k) -> f (closer k) = str1 (closer k) ->
  (forall b, ibody k b = true -> ibody k (map_chars f b) = true) ->
  (forall z, map_chars f (map_chars f z) = map_chars f z) ->
  wfv k false ps = true ->
  (let matches := re_findall (pat k) (flat k ps) in
   replacements <- mapM (re_sub (fst repair) (snd repair)) matches ;;
   Ok (fold_left (fun q' mr => str_replace (fst mr) (snd mr) q')
         (combine matches replacements) (flat k ps))) =
  Ok (flat k (map (rewrite_part f) ps)).
Proof.
  intros Hsub Fo Fc Hf I W. cbv zeta. unfold re_findall, finditer.
  rewrite (findall_parts k ps [] W).
  rewrite (mapM_ok _ (map_chars f)) by (intros a _; apply Hsub).
  cbn [bind]. f_equal. rewrite map_map.
  assert (E : map (fun x => map_chars f (span_text k x)) (bodies ps) =
              map (fun b => span_text k (map_chars f b)) (bodies ps)).
  { apply map_ext. intros b. unfold span_text.
    change (String (opener k) (b ++ str1 (closer k)))
      with (str1 (opener k) ++ b ++ str1 (closer k)).
    rewrite !map_chars_app.
    change (map_chars f (str1 (opener k))) with (f (opener k) ++ "").
    change (map_chars f (str1 (closer k))) with (f (closer k) ++ "").
    rewrite Fo, Fc, !append_nil_r. reflexivity. }
  rewrite E.
  rewrite (replace_loop k (map_chars f) (bodies ps) Hf (wfv_bodies k ps _ W) ps false W).
  f_equal. rewrite fold_subst_map. apply map_ext_in. intros [x|x] Hx.
  - apply fold_subst_txt.
  - cbn [rewrite_part]. apply fold_subst_in; [exact I | apply bodies_in; exact Hx].
Qed.

(** ** The rewriting of the ranges on a string of chunks *)

Lemma last_is_backslash_app (a b : string) :
  forall e, last_is_backslash e (a ++ b) = last_is_backslash (last_is_backslash e a) b.
Proof. induction a as [|c a IH]; intros e; [reflexivity | apply IH]. Qed.

Lemma flat_app (k : kind) (ps qs : list part) :
  flat k (ps ++ qs)%list = flat k ps ++ flat k qs.
Proof.
  induction ps as [|p ps IH]; [reflexivity|].
  cbn [app flat]. rewrite IH, append_assoc. reflexivity.
Qed.

Lemma flat_view (k : kind) (c : chunk) : flat k (view k c) = chunk_text c.
Proof.
  destruct c as [w|pre k' b post]; cbn [view flat part_text chunk_text].
  - apply append_nil_r.
  - destruct (kind_eqb k' k) eqn:E.
    + assert (k' = k) by (destruct k', k; try discriminate E; reflexivity). subst k'.
      cbn [flat part_text]. rewrite append_nil_r. reflexivity.
    + cbn [flat part_text chunk_text]. apply append_nil_r.
Qed.

Lemma flat_views (k : kind) (cs : list chunk) :
  flat k (views k cs) = str_join " " (map chunk_text cs).
Proof.
  induction cs as [|c cs IH]; [reflexivity|].
  destruct cs as [|c' cs].
  - cbn [views map str_join]. apply flat_view.
  - change (views k (c :: c' :: cs)) with (view k c ++ Txt " " :: views k (c' :: cs))%list.
    change (str_join " " (map chunk_text (c :: c' :: cs)))
      with (chunk_text c ++ " " ++ str_join " " (map chunk_text (c' :: cs))).
    rewrite flat_app, flat_view. cbn [flat part_text]. rewrite IH. reflexivity.
Qed.

Lemma no_opener_mem (k : kind) (x : string) :
  no_opener x = true -> mem (opener k) x = false.
Proof.
  intros H. apply (all_chars_mem (fun c => negb (mem c openers))); [exact H|].
  rewrite (opener_in_openers k). reflexivity.
Qed.

Lemma span_no_opener (k k' : kind) (b : string) :
  kind_eqb k' k = false -> ibody k' b = true ->
  mem (opener k) (span_text k' b) = false.
Proof.
  intros E H. destruct (ibody_inv k' b H) as (A & _ & _).
  unfold span_text.
  apply (all_chars_mem (fun c => negb (Ascii.eqb c (opener k)))).
  - cbn [all_chars]. rewrite all_chars_app. cbn [str1 all_chars].
    rewrite (all_chars_weaken (inert_in k') _ b); [|intros c Hc|exact A].
    + destruct k, k'; try discriminate E; reflexivity.
    + destruct (inert_in_inv k' c Hc) as (_ & O & _).
      rewrite Ascii.eqb_sym, (not_opener k c O). reflexivity.
  - rewrite eqb_char_refl. reflexivity.
Qed.

Lemma mem_app (c : ascii) (a b : string) : mem c (a ++ b) = mem c a || mem c b.
Proof.
  induction a as [|d a IH]; [reflexivity|].
  cbn [append mem]. rewrite IH, orb_assoc. reflexivity.
Qed.

Lemma last_is_backslash_span (k : kind) (b : string) (e : bool) :
  last_is_backslash e (span_text k b) = false.
Proof.
  unfold span_text. cbn [last_is_backslash].
  rewrite last_is_backslash_app. cbn [str1 last_is_backslash].
  apply closer_not_backslash.
Qed.

Lemma chunk_wf_span (pre : string) (k : kind) (b post : string) :
  chunk_wf (CSpan pre k b post) = true ->
  no_opener pre = true /\ last_is_backslash false pre = false /\ ibody k b = true /\
  no_opener post = true /\ after_ok post = true.
Proof.
  cbn [chunk_wf]. intros H.
  apply andb_true_iff in H. destruct H as [H H5].
  apply andb_true_iff in H. destruct H as [H H4].
  apply andb_true_iff in H. destruct H as [H H3].
  apply andb_true_iff in H. destruct H as [H1 H2].
  apply negb_true_iff in H2. auto.
Qed.

(** The view of a chunk is in order, whatever follows it after a
    blank. *)
Lemma view_wf (k : kind) (c : chunk) (qs : list part) :
  chunk_wf c = true ->
  (forall e', wfv k e' qs = true) ->
  after_ok (flat k qs) = true ->
  wfv k false (view k c ++ qs)%list = true.
Proof.
  intros H Q A. destruct c as [w|pre k' b post].
  - cbn [view app wfv]. cbn [chunk_wf] in H. rewrite (no_opener_mem k w H). apply Q.
  - destruct (chunk_wf_span _ _ _ _ H) as (H1 & H2 & H3 & H4 & H5).
    cbn [view]. destruct (kind_eqb k' k) eqn:E.
    + assert (k' = k) by (destruct k', k; try discriminate E; reflexivity). subst k'.
      cbn [app wfv flat part_text].
      rewrite (no_opener_mem k pre H1), H2, H3, (no_opener_mem k post H4), Q.
      cbn [negb andb]. rewrite andb_true_r.
      destruct post as [|c post]; [exact A | exact H5].
    + cbn [app wfv chunk_text]. rewrite !mem_app.
      rewrite (no_opener_mem k pre H1), (span_no_opener k k' b E H3),
        (no_opener_mem k post H4).
      apply Q.
Qed.

Lemma views_wf (k : kind) (cs : list chunk) :
  Forall (fun c => chunk_wf c = true) cs -> wfv k false (views k cs) = true.
Proof.
  induction 1 as [|c cs Hc _ IH]; [reflexivity|].
  destruct cs as [|c' cs].
  - cbn [views]. rewrite <- (app_nil_r (view k c)).
    apply view_wf; [exact Hc | reflexivity | reflexivity].
  - change (views k (c :: c' :: cs)) with (view k c ++ Txt " " :: views k (c' :: cs))%list.
    apply view_wf; [exact Hc | | reflexivity].
    intros e'. cbn [wfv mem]. destruct k; exact IH.
Qed.

Lemma views_rewrite (k : kind) (f : ascii -> string) (cs : list chunk) :
  map (rewrite_part f) (views k cs) = views k (map (rewrite_kind k f) cs).
Proof.
  assert (V : forall c, map (rewrite_part f) (view k c) = view k (rewrite_kind k f c)).
  { intros [w|pre k' b post]; [reflexivity|].
    cbn [view rewrite_kind]. destruct (kind_eqb k' k) eqn:E.
    - cbn [view]. rewrite E. reflexivity.
    - cbn [view]. rewrite E. reflexivity. }
  induction cs as [|c cs IH]; [reflexivity|].
  destruct cs as [|c' cs].
  - cbn [views map]. apply V.
  - change (views k (c :: c' :: cs)) with (view k c ++ Txt " " :: views k (c' :: cs))%list.
    rewrite map_app. cbn [map] in IH |- *. rewrite V, IH. reflexivity.
Qed.

Lemma map_chars_id (g : ascii -> string) (s : string) :
  (forall c, mem c s = true -> g c = str1 c) -> map_chars g s = s.
Proof.
  induction s as [|c s IH]; intros H; [reflexivity|].
  cbn [map_chars]. rewrite (H c), IH; [reflexivity| |].
  - intros d Hd. apply H. cbn [mem]. rewrite Hd. apply orb_true_r.
  - cbn [mem]. rewrite eqb_char_refl. reflexivity.
Qed.

Section Repair.

Variable p : ascii -> bool.
Variable t : string.
Hypothesis t_inert : forall k, all_chars (inert_in k) t = true.
Hypothesis t_head : truthy t = true /\ starts_in " ~^" t = false.
Hypothesis t_last : forall e, last_is_backslash e t = false.
Hypothesis t_clean : all_chars (fun c => negb (p c)) t = true.
Hypothesis p_backslash : p backslash = false.

Lemma mark_last (b : string) :
  forall e, last_is_backslash e (map_chars (mark p t) b) = last_is_backslash e b.
Proof.
  induction b as [|c b IH]; intros e; [reflexivity|].
  cbn [map_chars last_is_backslash]. rewrite last_is_backslash_app. unfold mark at 1.
  destruct (p c) eqn:E.
  - rewrite t_last, IH.
    destruct (Ascii.eqb c backslash) eqn:B; [|reflexivity].
    apply Ascii.eqb_eq in B. subst c. rewrite p_backslash in E. discriminate.
  - cbn [str1 last_is_backslash]. apply IH.
Qed.

Lemma mark_head (b : string) :
  starts_in " ~^" b = false -> starts_in " ~^" (map_chars (mark p t) b) = false.
Proof.
  destruct b as [|c b]; [reflexivity|]. cbn [starts_in map_chars]. intros H.
  unfold mark. destruct (p c).
  - destruct t_head as [T S]. destruct t as [|t0 t']; [discriminate T|]. exact S.
  - exact H.
Qed.

Lemma mark_ibody (k : kind) (b : string) :
  ibody k b = true -> ibody k (map_chars (mark p t) b) = true.
Proof.
  intros H. destruct (ibody_inv k b H) as (A & L & S).
  unfold ibody. rewrite mark_last, L.
  rewrite all_chars_map_chars.
  - destruct (symmetric k); [|reflexivity]. rewrite (mark_head b (S eq_refl)). reflexivity.
  - intros c Hc. unfold mark. destruct (p c); [apply t_inert|].
    cbn [str1 all_chars]. rewrite (all_chars_forall _ _ A c Hc). reflexivity.
Qed.

Lemma mark_idem (z : string) :
  map_chars (mark p t) (map_chars (mark p t) z) = map_chars (mark p t) z.
Proof.
  rewrite map_chars_compose. apply map_chars_ext. intros c _.
  unfold mark at 2 3. destruct (p c) eqn:E.
  - apply map_chars_id. intros d Hd. unfold mark.
    pose proof (all_chars_forall _ _ t_clean d Hd) as N. cbv beta in N.
    apply negb_true_iff in N. rewrite N. reflexivity.
  - cbn [str1 map_chars]. unfold mark. rewrite E. apply append_nil_r.
Qed.

Lemma mark_chunk_wf (k : kind) (c : chunk) :
  chunk_wf c = true -> chunk_wf (rewrite_kind k (mark p t) c) = true.
Proof.
  destruct c as [w|pre k' b post]; [intros H; exact H|]. intros H.
  cbn [rewrite_kind]. destruct (kind_eqb k' k); [|exact H].
  destruct (chunk_wf_span _ _ _ _ H) as (H1 & H2 & H3 & H4 & H5).
  cbn [chunk_wf]. rewrite H1, H2, (mark_ibody k' b H3), H4, H5. reflexivity.
Qed.

Variable repair : regex * string.
Hypothesis repair_sub :
  forall s, re_sub (fst repair) (snd repair) s = Ok (map_chars (mark p t) s).
Hypothesis p_delims : forall k, p (opener k) = false /\ p (closer k) = false.

(** One pattern of [_replace_in_range] on a string of chunks. *)
Lemma chunks_round (k : kind) (cs : list chunk) :
  Forall (fun c => chunk_wf c = true) cs ->
  (let q := str_join " " (map chunk_text cs) in
   let matches := re_findall (pat k) q in
   replacements <- mapM (re_sub (fst repair) (snd repair)) matches ;;
   Ok (fold_left (fun q' mr => str_replace (fst mr) (snd mr) q')
         (combine matches replacements) q)) =
  Ok (str_join " " (map chunk_text (map (rewrite_kind k (mark p t)) cs))).
Proof.
  intros W. cbv zeta. rewrite <- !(flat_views k), <- views_rewrite.
  apply (replace_round k repair (mark p t)).
  - exact repair_sub.
  - unfold mark. rewrite (proj1 (p_delims k)). reflexivity.
  - unfold mark. rewrite (proj2 (p_delims k)). reflexivity.
  - apply mark_ibody.
  - apply mark_idem.
  - apply views_wf. exact W.
Qed.

Lemma rewrite_kinds (c : chunk) :
  rewrite_kind Quote (mark p t)
    (rewrite_kind Slash (mark p t)
       (rewrite_kind Bracket (mark p t) (rewrite_kind Brace (mark p t) c))) =
  rewrite_all (mark p t) c.
Proof. destruct c as [w|pre [] b post]; reflexivity. Qed.

Lemma wf_rewrite_kind (k : kind) (cs : list chunk) :
  Forall (fun c => chunk_wf c = true) cs ->
  Forall (fun c => chunk_wf c = true) (map (rewrite_kind k (mark p t)) cs).
Proof.
  intros W. apply Forall_forall. intros c Hc. apply in_map_iff in Hc.
  destruct Hc as (c0 & <- & H0). apply mark_chunk_wf.
  rewrite Forall_forall in W. apply W. exact H0.
Qed.

(** [_replace_in_range] with the four patterns rewrites the bodies of
    all spans. *)
Lemma chunks_repair (cs : list chunk) :
  Forall (fun c => chunk_wf c = true) cs ->
  _replace_in_range (str_join " " (map chunk_text cs))
    [rangeex; rangeinc; regex_pat; quoted] repair =
  Ok (str_join " " (map chunk_text (map (rewrite_all (mark p t)) cs))) /\
  Forall (fun c => chunk_wf c = true) (map (rewrite_all (mark p t)) cs).
Proof.
  intros W0.
  pose proof (wf_rewrite_kind Brace _ W0) as W1.
  pose proof (wf_rewrite_kind Bracket _ W1) as W2.
  pose proof (wf_rewrite_kind Slash _ W2) as W3.
  pose proof (wf_rewrite_kind Quote _ W3) as W4.
  assert (E : map (rewrite_kind Quote (mark p t))
                (map (rewrite_kind Slash (mark p t))
                   (map (rewrite_kind Bracket (mark p t))
                      (map (rewrite_kind Brace (mark p t)) cs))) =
              map (rewrite_all (mark p t)) cs).
  { rewrite !map_map. apply map_ext. intros c. apply rewrite_kinds. }
  rewrite <- E. split; [|exact W4].
  unfold _replace_in_range. cbn [foldM].
  pose proof (chunks_round Brace cs W0) as R1. cbv zeta in R1. cbn [pat] in R1.
  rewrite R1. cbn [bind].
  pose proof (chunks_round Bracket _ W1) as R2. cbv zeta in R2. cbn [pat] in R2.
  rewrite R2. cbn [bind].
  pose proof (chunks_round Slash _ W2) as R3. cbv zeta in R3. cbn [pat] in R3.
  rewrite R3. cbn [bind].
  pose proof (chunks_round Quote _ W3) as R4. cbv zeta in R4. cbn [pat] in R4.
  rewrite R4. reflexivity.
Qed.

End Repair.

Lemma protect_marks (b : string) :
  map_chars (mark (Ascii.eqb ")") "_&_RENS_&_")
    (map_chars (mark (Ascii.eqb "(") "_&_PA_&_")
       (map_chars (mark (Ascii.eqb ":") "_&_COLON_&_")
          (map_chars (mark isspace "_&_SPACE_&_") b))) =
  map_chars protect b.
Proof.
  induction b as [|c b IH]; [reflexivity|].
  cbn [map_chars]. rewrite !map_chars_app, IH. f_equal.
  unfold protect, mark at 4. destruct (isspace c); [reflexivity|].
  cbn [str1 map_chars append]. unfold mark at 3.
  destruct (Ascii.eqb ":" c); [reflexivity|].
  cbn [str1 map_chars append]. unfold mark at 2.
  destruct (Ascii.eqb "(" c); [reflexivity|].
  cbn [str1 map_chars append]. unfold mark.
  destruct (Ascii.eqb ")" c); reflexivity.
Qed.

Lemma rewrite_all_code (c : chunk) :
  chunk_text
    (rewrite_all (mark (Ascii.eqb ")") "_&_RENS_&_")
       (rewrite_all (mark (Ascii.eqb "(") "_&_PA_&_")
          (rewrite_all (mark (Ascii.eqb ":") "_&_COLON_&_")
             (rewrite_all (mark isspace "_&_SPACE_&_") c)))) =
  chunk_code c.
Proof.
  destruct c as [w|pre k b post]; [reflexivity|].
  cbn [rewrite_all chunk_text chunk_code]. rewrite protect_marks. reflexivity.
Qed.

Lemma delims_not_space (k : kind) : isspace (opener k) = false /\ isspace (closer k) = false.
Proof. destruct k; split; reflexivity. Qed.

Lemma delims_not_char (c : ascii) (k : kind) :
  mem c ":()" = true ->
  Ascii.eqb c (opener k) = false /\ Ascii.eqb c (closer k) = false.
Proof.
  intros H. cbn [mem] in H. rewrite orb_false_r in H.
  repeat (apply orb_true_iff in H; destruct H as [H|H]);
    apply Ascii.eqb_eq in H; subst c; destruct k; split; reflexivity.
Qed.

(** [_repspaces_in_ranges] on a string of chunks: the bodies of all
    spans are written with markers, and nothing else changes. *)
Lemma repspaces_chunks (cs : list chunk) :
  Forall (fun c => chunk_wf c = true) cs ->
  _repspaces_in_ranges (str_join " " (map chunk_text cs)) =
  Ok (str_join " " (map chunk_code cs)).
Proof.
  intros W0. unfold _repspaces_in_ranges. cbn [foldM].
  destruct (chunks_repair isspace "_&_SPACE_&_"
              (fun k => ltac:(destruct k; reflexivity)) (conj eq_refl eq_refl)
              (fun e => ltac:(destruct e; reflexivity)) eq_refl eq_refl
              (_replacepairs space)
              (fun s => re_sub_cls Space "_&_SPACE_&_" "_&_SPACE_&_" s eq_refl)
              delims_not_space cs W0) as [E1 W1].
  rewrite E1. cbn [bind].
  destruct (chunks_repair (Ascii.eqb ":") "_&_COLON_&_"
              (fun k => ltac:(destruct k; reflexivity)) (conj eq_refl eq_refl)
              (fun e => ltac:(destruct e; reflexivity)) eq_refl eq_refl
              (_replacepairs colon)
              (fun s => re_sub_char ":" "_&_COLON_&_" "_&_COLON_&_" s eq_refl)
              (fun k => delims_not_char ":" k eq_refl) _ W1) as [E2 W2].
  rewrite E2. cbn [bind].
  destruct (chunks_repair (Ascii.eqb "(") "_&_PA_&_"
              (fun k => ltac:(destruct k; reflexivity)) (conj eq_refl eq_refl)
              (fun e => ltac:(destruct e; reflexivity)) eq_refl eq_refl
              (_replacepairs pa)
              (fun s => re_sub_char "(" "_&_PA_&_" "_&_PA_&_" s eq_refl)
              (fun k => delims_not_char "(" k eq_refl) _ W2) as [E3 W3].
  rewrite E3. cbn [bind].
  destruct (chunks_repair (Ascii.eqb ")") "_&_RENS_&_"
              (fun k => ltac:(destruct k; reflexivity)) (conj eq_refl eq_refl)
              (fun e => ltac:(destruct e; reflexivity)) eq_refl eq_refl
              (_replacepairs rens)
              (fun s => re_sub_char ")" "_&_RENS_&_" "_&_RENS_&_" s eq_refl)
              (fun k => delims_not_char ")" k eq_refl) _ W3) as [E4 _].
  rewrite E4. cbn [bind]. do 2 f_equal.
  rewrite !map_map. apply map_ext. intros c. apply rewrite_all_code.
Qed.

(** ** The tokenizer on tokens without whitespace *)

Lemma last_is_cons (c d e : ascii) (s : string) :
  last_is c (String d (String e s)) = last_is c (String e s).
Proof. reflexivity. Qed.

Lemma last_is_app (c : ascii) (a b : string) :
  truthy b = true -> last_is c (a ++ b) = last_is c b.
Proof.
  intros T. destruct b as [|e b]; [discriminate|].
  induction a as [|d a IH]; [reflexivity|].
  cbn [append]. destruct a as [|d' a].
  - cbn [append]. apply last_is_cons.
  - cbn [append] in IH |- *. rewrite last_is_cons. exact IH.
Qed.

Lemma solid_char_inv (c : ascii) :
  solid_char c = true -> isspace c = false /\ mem c "()" = false.
Proof.
  unfold solid_char. intros H. apply andb_true_iff in H. destruct H as [H1 H2].
  apply negb_true_iff in H1. apply negb_true_iff in H2. split; assumption.
Qed.

Lemma solid_word_inv (w : string) :
  solid_word w = true ->
  all_chars solid_char w = true /\ last_is ":" w = false /\
  exists d w', w = String d w' /\ isspace d = false /\ Ascii.eqb ":" d = false.
Proof.
  unfold solid_word. intros H.
  apply andb_true_iff in H. destruct H as [H H4].
  apply andb_true_iff in H. destruct H as [H H3].
  apply andb_true_iff in H. destruct H as [H1 H2].
  apply negb_true_iff in H3. apply negb_true_iff in H4.
  split; [exact H2|]. split; [exact H4|].
  destruct w as [|d w']; [discriminate|]. exists d, w'.
  cbn [all_chars] in H2. apply andb_true_iff in H2. destruct H2 as [Hd _].
  rewrite prefix_cons in H3. rewrite (prefix_empty w'), andb_true_r in H3.
  split; [reflexivity|]. split; [apply (solid_char_inv d Hd) | exact H3].
Qed.

Lemma solid_no_space (w : string) :
  all_chars solid_char w = true -> all_chars (fun c => negb (isspace c)) w = true.
Proof.
  apply all_chars_weaken. intros c Hc.
  rewrite (proj1 (solid_char_inv c Hc)). reflexivity.
Qed.

Lemma solid_pad (w : string) : all_chars solid_char w = true -> pad_parens w = w.
Proof.
  intros H.
  apply pad_parens_id; apply (all_chars_mem solid_char); try exact H; reflexivity.
Qed.

Lemma solid_head_ok (w s : string) :
  solid_word w = true -> blank_run_ok (w ++ s) = true.
Proof.
  intros H. destruct (solid_word_inv w H) as (_ & _ & d & w' & -> & Hd & Hc).
  cbn [append blank_run_ok]. rewrite Hd, Hc. reflexivity.
Qed.

(** A colon inside a word is matched alone or not at all. *)
Lemma colon_inside (b : list ascii) (d : ascii) (r : string) :
  isspace d = false ->
  match_at stripspaces_pat b (String ":" (String d r)) =
  if starts_with (rev_chars (BS ++ BS) []) b then None else Some 1.
Proof.
  intros H. unfold match_at, stripspaces_pat.
  cbn [rx star_greedy in_class]. rewrite isspace_colon.
  destruct (starts_with (rev_chars (BS ++ BS) []) b); [reflexivity|].
  cbn [lit_at star_greedy in_class]. rewrite H.
  change (Ascii.eqb ":" ":") with true. reflexivity.
Qed.

Lemma scan_miss (r : regex) (b : list ascii) (c : ascii) (s : string) :
  match_at r b (String c s) = None ->
  scan r b 0 (String c s) = Gap c :: scan r (c :: b) 0 s.
Proof. intros H. cbn [scan]. rewrite H. reflexivity. Qed.

Lemma scan_hit_one (r : regex) (b : list ascii) (c : ascii) (s : string) :
  match_at r b (String c s) = Some 1 ->
  scan r b 0 (String c s) = Hit (str1 c) :: scan r (c :: b) 0 s.
Proof. intros H. cbn [scan]. rewrite H. destruct s; reflexivity. Qed.

(** Text without whitespace that does not end with a colon is copied. *)
Lemma strip_text (w : string) :
  all_chars (fun c => negb (isspace c)) w = true -> last_is ":" w = false ->
  forall s b,
    plain_pieces ":" (scan stripspaces_pat b 0 (w ++ s)) =
    w ++ plain_pieces ":" (scan stripspaces_pat (rev_chars w b) 0 s).
Proof.
  induction w as [|c w IH]; intros H L s b; [reflexivity|].
  cbn [all_chars] in H. apply andb_true_iff in H. destruct H as [Hc H].
  apply negb_true_iff in Hc.
  assert (L' : last_is ":" w = false) by (destruct w; [reflexivity | exact L]).
  destruct (Ascii.eqb ":" c) eqn:E.
  - apply Ascii.eqb_eq in E. subst c.
    destruct w as [|d w]; [discriminate L|].
    pose proof H as Hd. cbn [all_chars] in Hd. apply andb_true_iff in Hd.
    destruct Hd as [Hd _]. apply negb_true_iff in Hd.
    change (String ":" (String d w) ++ s) with (String ":" (String d w ++ s)).
    pose proof (colon_inside b d (w ++ s) Hd) as M.
    change (String d (w ++ s)) with (String d w ++ s) in M.
    destruct (starts_with _ b).
    + rewrite (scan_miss _ _ _ _ M). cbn [plain_pieces rev_chars].
      rewrite (IH H L'). reflexivity.
    + rewrite (scan_hit_one _ _ _ _ M). cbn [plain_pieces rev_chars].
      rewrite (IH H L'). reflexivity.
  - cbn [append scan].
    rewrite sp_miss by (cbn [blank_run_ok]; rewrite Hc, E; reflexivity).
    cbn [plain_pieces rev_chars]. rewrite (IH H L'). reflexivity.
Qed.

Lemma strip_sep (b : list ascii) (d : ascii) (s : string) :
  isspace d = false ->
  plain_pieces ":" (scan stripspaces_pat b 0 (" : " ++ String d s)) =
  ":" ++ plain_pieces ":"
           (scan stripspaces_pat (" "%char :: ":"%char :: " "%char :: b) 0 (String d s)).
Proof.
  intros Hd. pose proof (sp_hit b d s Hd) as M.
  cbn [append] in M |- *. cbn [scan]. rewrite M. reflexivity.
Qed.

Lemma padded_solid_item (t : token) :
  solid_shape t ->
  pad_parens (assemble_item t) =
  match t with
  | Literal s => pad_parens s
  | Term (mkTerm (Some f) w) => f ++ " : " ++ w
  | Term (mkTerm None w) => w
  end.
Proof.
  intros [| |w Hw|w Hw|f w Hf Hw]; cbn [assemble_item field term]; try reflexivity.
  - apply solid_pad. apply (solid_word_inv w Hw).
  - destruct (solid_word_inv f Hf) as (Af & _ & d & f' & E & _).
    destruct (solid_word_inv w Hw) as (Aw & _).
    rewrite E at 1. cbn [truthy].
    rewrite !pad_parens_app, (solid_pad f Af), (solid_pad w Aw).
    apply append_assoc.
Qed.

Lemma solid_raw (t : token) :
  solid_shape t -> is_paren (raw_of t) = true \/ solid_word (raw_of t) = true.
Proof.
  intros [| |w Hw|w Hw|f w Hf Hw]; cbn [raw_of field term];
    try (left; reflexivity); try (right; assumption).
  right. destruct (solid_word_inv f Hf) as (Af & _ & d & f' & E & Hd & Hc).
  destruct (solid_word_inv w Hw) as (Aw & Lw & d' & w' & E' & _).
  unfold solid_word. rewrite !all_chars_app, Af, Aw.
  rewrite !last_is_app by (rewrite E'; reflexivity). rewrite Lw.
  rewrite E. cbn [append truthy]. rewrite prefix_cons, Hc. reflexivity.
Qed.

Lemma padded_solid_raw (t : token) :
  solid_shape t ->
  pad_parens (raw_of t) =
  match t with
  | Literal s => pad_parens s
  | Term _ => raw_of t
  end.
Proof.
  intros [| |w Hw|w Hw|f w Hf Hw]; cbn [raw_of field term]; try reflexivity.
  - apply solid_pad. apply (solid_word_inv w Hw).
  - rewrite !pad_parens_app, (solid_pad f (proj1 (solid_word_inv f Hf))),
      (solid_pad w (proj1 (solid_word_inv w Hw))).
    reflexivity.
Qed.

Lemma strip_solid_item (t : token) (s : string) :
  solid_shape t -> blank_run_ok s = true ->
  forall b, exists b',
    plain_pieces ":" (scan stripspaces_pat b 0 (pad_parens (assemble_item t) ++ s)) =
    pad_parens (raw_of t) ++ plain_pieces ":" (scan stripspaces_pat b' 0 s).
Proof.
  intros H Hs b. rewrite (padded_solid_item t H), (padded_solid_raw t H).
  destruct H as [| |w Hw|w Hw|f w Hf Hw]; cbn [raw_of field term].
  - eexists. apply strip_copy; [reflexivity | exact Hs].
  - eexists. apply strip_copy; [reflexivity | exact Hs].
  - destruct (solid_word_inv w Hw) as (Aw & Lw & _).
    rewrite (solid_pad w Aw). eexists.
    apply strip_text; [apply solid_no_space; exact Aw | exact Lw].
  - destruct (solid_word_inv w Hw) as (Aw & Lw & _). eexists.
    apply strip_text; [apply solid_no_space; exact Aw | exact Lw].
  - destruct (solid_word_inv f Hf) as (Af & Lf & _).
    destruct (solid_word_inv w Hw) as (Aw & Lw & d & w' & -> & Hd & _).
    eexists. rewrite !append_assoc.
    rewrite (strip_text f (solid_no_space f Af) Lf).
    change (String d w' ++ s) with (String d (w' ++ s)).
    rewrite strip_sep by exact Hd.
    change (String d (w' ++ s)) with (String d w' ++ s).
    rewrite (strip_text _ (solid_no_space _ Aw) Lw). reflexivity.
Qed.

Lemma padded_solid_head_ok (t : token) (s : string) :
  solid_shape t -> blank_run_ok (pad_parens (assemble_item t) ++ s) = true.
Proof.
  intros H. rewrite (padded_solid_item t H).
  destruct H as [| |w Hw|w Hw|f w Hf Hw]; try reflexivity.
  - rewrite (solid_pad w (proj1 (solid_word_inv w Hw))). apply solid_head_ok. exact Hw.
  - apply solid_head_ok. exact Hw.
  - rewrite append_assoc. apply solid_head_ok. exact Hf.
Qed.

Lemma padded_solid_join_head_ok (ts : list token) :
  Forall solid_shape ts ->
  blank_run_ok (str_join " " (map pad_parens (map assemble_item ts))) = true.
Proof.
  intros H. destruct H as [|t ts Ht H]; [reflexivity|].
  cbn [map]. destruct (map pad_parens (map assemble_item ts)) as [|y ys].
  - cbn [str_join]. rewrite <- (append_nil_r (pad_parens _)).
    apply padded_solid_head_ok. exact Ht.
  - change (str_join " " (?x :: y :: ys)) with (x ++ " " ++ str_join " " (y :: ys)).
    apply padded_solid_head_ok. exact Ht.
Qed.

Lemma strip_solid_assembled (ts : list token) :
  Forall solid_shape ts ->
  forall b,
    plain_pieces ":" (scan stripspaces_pat b 0 (pad_parens (assemble ts))) =
    pad_parens (str_join " " (map raw_of ts)).
Proof.
  unfold assemble. rewrite !pad_parens_join.
  induction 1 as [|t ts Ht H IH]; intros b.
  - apply strip_end.
  - destruct ts as [|t' ts].
    + cbn [map str_join].
      destruct (strip_solid_item t "" Ht eq_refl b) as [b' E].
      rewrite append_nil_r in E. rewrite E, strip_end. apply append_nil_r.
    + pose proof (padded_solid_join_head_ok _ H) as B.
      cbn [map] in B, IH |- *.
      change (str_join " " (?x :: ?y :: ?l)) with (x ++ " " ++ str_join " " (y :: l)).
      match goal with
      | |- context [scan _ b 0 (_ ++ ?r)] =>
          destruct (strip_solid_item t r Ht B b) as [b' E]
      end.
      rewrite E. f_equal.
      rewrite (strip_copy " " _ eq_refl B). rewrite IH. reflexivity.
Qed.

(** A word without an opening parenthesis that does not end with a colon
    starts no field group. *)
Lemma group_skip_solid (w s : string) :
  mem "("%char w = false -> last_is ":" w = false ->
  contains ":(" (w ++ s) = contains ":(" s.
Proof.
  induction w as [|c w IH]; intros H L; [reflexivity|].
  cbn [mem] in H. apply orb_false_iff in H. destruct H as [_ H].
  assert (L' : last_is ":" w = false) by (destruct w; [reflexivity | exact L]).
  cbn [append]. rewrite contains_cons, (IH H L').
  destruct (Ascii.eqb ":" c) eqn:E.
  - apply Ascii.eqb_eq in E. subst c.
    destruct w as [|d w]; [discriminate L|].
    cbn [mem] in H. apply orb_false_iff in H. destruct H as [D _].
    cbn [append]. rewrite !prefix_cons, D, andb_false_r. reflexivity.
  - rewrite prefix_cons, E. reflexivity.
Qed.

Lemma no_group_solid_item (t : token) (s : string) :
  solid_shape t -> contains ":(" (pad_parens (raw_of t) ++ s) = contains ":(" s.
Proof.
  intros H. destruct (solid_raw t H) as [P|S].
  - unfold is_paren in P. apply orb_true_iff in P.
    destruct P as [P|P]; apply String.eqb_eq in P; rewrite P.
    + apply (group_skip " ( " s eq_refl).
    + apply (group_skip " ) " s eq_refl).
  - destruct (solid_word_inv _ S) as (A & L & _).
    rewrite (solid_pad _ A). apply group_skip_solid; [|exact L].
    apply (all_chars_mem solid_char); [exact A | reflexivity].
Qed.

Lemma no_group_solid (ts : list token) :
  Forall solid_shape ts ->
  contains ":(" (pad_parens (str_join " " (map raw_of ts))) = false.
Proof.
  rewrite pad_parens_join.
  induction 1 as [|t ts Ht H IH]; [reflexivity|].
  destruct ts as [|t' ts].
  - cbn [map str_join]. rewrite <- (append_nil_r (pad_parens _)).
    rewrite (no_group_solid_item t "" Ht). reflexivity.
  - cbn [map] in IH |- *.
    change (str_join " " (?x :: ?y :: ?l)) with (x ++ " " ++ str_join " " (y :: l)).
    rewrite (no_group_solid_item t _ Ht), (group_skip " " _ eq_refl). exact IH.
Qed.

Lemma str_split_solid_item (t : token) (rest : string) :
  solid_shape t ->
  rest = "" \/ (exists d r, rest = String d r /\ isspace d = true) ->
  str_split (pad_parens (raw_of t) ++ rest) = raw_of t :: str_split rest.
Proof.
  intros H Hrest.
  assert (P : forall c : ascii, isspace c = false ->
            str_split (String " " (String c (String " " rest))) =
            str1 c :: str_split rest).
  { intros c Hc. cbn [str_split]. rewrite isspace_blank, Hc. reflexivity. }
  destruct (solid_raw t H) as [Q|S].
  - unfold is_paren in Q. apply orb_true_iff in Q.
    destruct Q as [Q|Q]; apply String.eqb_eq in Q; rewrite Q.
    + apply (P "("%char). reflexivity.
    + apply (P ")"%char). reflexivity.
  - destruct (solid_word_inv _ S) as (A & _ & d & w' & E & _).
    rewrite (solid_pad _ A).
    apply str_split_word; [apply solid_no_space; exact A | | exact Hrest].
    rewrite E. reflexivity.
Qed.

Lemma str_split_solid (ts : list token) :
  Forall solid_shape ts ->
  str_split (pad_parens (str_join " " (map raw_of ts))) = map raw_of ts.
Proof.
  rewrite pad_parens_join.
  induction 1 as [|t ts Ht H IH]; [reflexivity|].
  destruct ts as [|t' ts].
  - cbn [map str_join]. rewrite <- (append_nil_r (pad_parens _)).
    rewrite (str_split_solid_item t "" Ht (or_introl eq_refl)). reflexivity.
  - cbn [map] in IH |- *.
    change (str_join " " (?x :: ?y :: ?l)) with (x ++ " " ++ str_join " " (y :: l)).
    rewrite (str_split_solid_item t _ Ht).
    + f_equal. cbn [append str_split]. rewrite isspace_blank. exact IH.
    + right. exists " "%char. eexists. split; reflexivity.
Qed.

(** The tokenizer on an assembled sequence of tokens without whitespace:
    every token comes back as one raw token. *)
Lemma tokenizer_solid (ts : list token) :
  Forall solid_shape ts ->
  (q4 <- _addparenswhitespace (assemble ts) ;;
   q5 <- _stripspaces q4 ;;
   q6 <- _repspaces_in_subqueries q5 ;;
   Ok (str_split q6)) = Ok (map raw_of ts).
Proof.
  intros H. unfold _stripspaces.
  rewrite _addparenswhitespace_eq. cbn [bind].
  rewrite (re_sub_template _ ":" ":" _ eq_refl). cbn [bind].
  unfold finditer. rewrite (strip_solid_assembled ts H).
  rewrite _repspaces_in_subqueries_nogroup by (apply no_group_solid; exact H).
  cbn [bind]. rewrite (str_split_solid ts H). reflexivity.
Qed.

(** ** The unescaper on a rewritten body *)

Lemma prefix_residue (x : string) :
  forall a rest,
    prefix x (a ++ rest) =
    match residue x a with
    | None => false
    | Some r => prefix r rest
    end.
Proof.
  induction x as [|c x IH]; intros a rest.
  - cbn [residue]. rewrite !prefix_empty. reflexivity.
  - destruct a as [|d a]; [reflexivity|].
    cbn [append residue]. rewrite prefix_cons.
    destruct (Ascii.eqb c d); [apply IH | reflexivity].
Qed.

Lemma no_start_residues (x a rest : string) :
  no_start x a rest = forallb (fun r => negb (prefix r rest)) (residues x a).
Proof.
  induction a as [|d a IH]; [reflexivity|].
  cbn [no_start residues]. rewrite prefix_residue, IH.
  destruct (residue x (String d a)); reflexivity.
Qed.

Lemma skip_atom (x t a rest : string) :
  no_start x a rest = true ->
  str_replace x t (a ++ rest) = a ++ str_replace x t rest.
Proof.
  induction a as [|c a IH]; intros H; [reflexivity|].
  cbn [no_start] in H. apply andb_true_iff in H. destruct H as [H1 H2].
  apply negb_true_iff in H1.
  change (String c a ++ rest) with (String c (a ++ rest)) in H1 |- *.
  rewrite (str_replace_miss _ _ _ _ H1), (IH H2). reflexivity.
Qed.

(** The replacement of [x] in a string of atoms of which none lets an
    occurrence of [x] start, the atoms [x] apart. *)
Lemma replace_atoms (x0 : ascii) (x' t : string) (e : ascii -> string) (s : string) :
  atoms_ok (String x0 x') e s = true ->
  str_replace (String x0 x') t (map_chars e s) =
  map_chars (fun c => if String.eqb (e c) (String x0 x') then t else e c) s.
Proof.
  induction s as [|c s IH]; intros H; [reflexivity|].
  cbn [atoms_ok] in H. apply andb_true_iff in H. destruct H as [Hc H].
  cbn [map_chars]. destruct (String.eqb (e c) (String x0 x')) eqn:E.
  - apply String.eqb_eq in E. rewrite E.
    rewrite str_replace_hit by apply prefix_app_self.
    change (S (String.length x')) with (String.length (String x0 x')).
    rewrite drop_app_self, (IH H). reflexivity.
  - cbn [orb] in Hc. rewrite (skip_atom _ t _ _ Hc), (IH H). reflexivity.
Qed.

Lemma amp_residue (r rest : string) :
  prefix "&" r = true -> head_ok "&" rest = true -> prefix r rest = false.
Proof.
  intros P H. destruct r as [|c r]; [discriminate P|].
  rewrite prefix_cons in P. apply andb_true_iff in P. destruct P as [P _].
  apply Ascii.eqb_eq in P. subst c.
  destruct rest as [|d rest]; [reflexivity|].
  cbn [head_ok mem] in H. rewrite orb_false_r in H. apply negb_true_iff in H.
  rewrite prefix_cons, Ascii.eqb_sym, H. reflexivity.
Qed.

Lemma fine_residues (rs : list string) (rest : string) :
  forallb residue_fine rs = true ->
  head_ok "&" rest = true -> tail_ok rest = true ->
  forallb (fun r => negb (prefix r rest)) rs = true.
Proof.
  intros F H T. apply forallb_forall. intros r Hr.
  rewrite forallb_forall in F. specialize (F r Hr).
  unfold residue_fine in F. apply orb_true_iff in F. destruct F as [F|F].
  - rewrite (amp_residue r rest F H). reflexivity.
  - apply existsb_exists in F. destruct F as (y & Hy & E).
    apply String.eqb_eq in E. subst y.
    apply in_map_iff in Hy. destruct Hy as (n & <- & Hn).
    unfold tail_ok in T. rewrite forallb_forall in T. exact (T n Hn).
Qed.

(** The atoms of a rewritten body. *)
Lemma code_at_literal (j : nat) (c : ascii) :
  escaped c = false -> code_at j c = str1 c.
Proof.
  unfold escaped, code_at. intros H. apply orb_false_iff in H. destruct H as [H1 H2].
  cbn [mem] in H2. rewrite orb_false_r in H2.
  apply orb_false_iff in H2. destruct H2 as [E1 H2].
  apply orb_false_iff in H2. destruct H2 as [E2 E3].
  rewrite H1, (Ascii.eqb_sym ":"%char), E1, (Ascii.eqb_sym "("%char), E2,
    (Ascii.eqb_sym ")"%char), E3.
  reflexivity.
Qed.

Lemma code_at_escaped (j : nat) (c : ascii) :
  escaped c = true -> In (code_at j c) coded_atoms.
Proof.
  unfold escaped, code_at, coded_atoms. intros H.
  destruct (isspace c); [destruct (j =? 0)%nat; cbn [In]; tauto|].
  cbn [orb mem] in H. rewrite orb_false_r in H.
  rewrite (Ascii.eqb_sym c ":"%char), (Ascii.eqb_sym c "("%char),
    (Ascii.eqb_sym c ")"%char) in H.
  destruct (Ascii.eqb ":" c); [destruct (j <=? 1)%nat; cbn [In]; tauto|].
  destruct (Ascii.eqb "(" c); [destruct (j <=? 2)%nat; cbn [In]; tauto|].
  destruct (Ascii.eqb ")" c); [destruct (j <=? 3)%nat; cbn [In]; tauto|].
  discriminate H.
Qed.

Lemma coded_atom_head (a : string) :
  In a coded_atoms ->
  exists h r, a = String h r /\ letter h = false /\ Ascii.eqb h "&" = false.
Proof.
  unfold coded_atoms. cbn [In]. intros H.
  repeat (destruct H as [<-|H]; [eexists; eexists; repeat split; reflexivity|]).
  destruct H.
Qed.

Lemma code_at_head_ok (j : nat) (s : string) :
  mem "&"%char s = false -> head_ok "&" (map_chars (code_at j) s) = true.
Proof.
  destruct s as [|c s]; [reflexivity|]. cbn [mem map_chars]. intros H.
  apply orb_false_iff in H. destruct H as [E _].
  destruct (escaped c) eqn:Ec.
  - destruct (coded_atom_head _ (code_at_escaped j c Ec)) as (h & r & -> & _ & N).
    cbn [append head_ok mem]. rewrite N. reflexivity.
  - rewrite (code_at_literal j c Ec). cbn [str1 append head_ok mem].
    rewrite (Ascii.eqb_sym c "&"%char), E. reflexivity.
Qed.

(** Where the name of a marker and the start of a marker stand in a
    rewritten body, the body holds the name and then an escaped
    character. *)
Lemma name_prefix (j : nat) (n : string) :
  all_chars letter n = true ->
  forall s,
    mem "&"%char s = false ->
    prefix (n ++ "_&_") (map_chars (code_at j) s) = true ->
    exists d s', strip_prefix n s = Some (String d s') /\ escaped d = true.
Proof.
  induction n as [|a n IH]; intros Hn s Hs P.
  - destruct s as [|d s]; [discriminate P|].
    exists d, s. split; [reflexivity|].
    destruct (escaped d) eqn:Ed; [reflexivity|]. exfalso.
    cbn [mem] in Hs. apply orb_false_iff in Hs. destruct Hs as [_ Hs].
    cbn [append map_chars] in P. rewrite (code_at_literal j d Ed) in P.
    cbn [str1 append] in P. rewrite prefix_cons in P.
    apply andb_true_iff in P. destruct P as [_ P].
    rewrite (amp_residue "&_" _ eq_refl (code_at_head_ok j s Hs)) in P.
    discriminate P.
  - cbn [all_chars] in Hn. apply andb_true_iff in Hn. destruct Hn as [Ha Hn].
    destruct s as [|d s]; [discriminate P|].
    cbn [mem] in Hs. apply orb_false_iff in Hs. destruct Hs as [_ Hs].
    cbn [append map_chars] in P.
    destruct (escaped d) eqn:Ed.
    + exfalso.
      destruct (coded_atom_head _ (code_at_escaped j d Ed)) as (h & r & E & L & _).
      rewrite E in P. cbn [append] in P. rewrite prefix_cons in P.
      apply andb_true_iff in P. destruct P as [P _].
      apply Ascii.eqb_eq in P. subst h. rewrite Ha in L. discriminate L.
    + rewrite (code_at_literal j d Ed) in P. cbn [str1 append] in P.
      rewrite prefix_cons in P. apply andb_true_iff in P. destruct P as [P1 P2].
      destruct (IH Hn s Hs P2) as (d0 & s0 & E & H0).
      exists d0, s0. split; [|exact H0]. cbn [strip_prefix]. rewrite P1. exact E.
Qed.

Lemma names_letters : forallb (all_chars letter) names = true.
Proof. reflexivity. Qed.

Lemma code_at_tail_ok (j : nat) (s : string) :
  mem "&"%char s = false -> after_name s = false ->
  tail_ok (map_chars (code_at j) s) = true.
Proof.
  intros Hs A. unfold tail_ok. apply forallb_forall. intros n Hn.
  destruct (prefix (n ++ "_&_") (map_chars (code_at j) s)) eqn:P; [|reflexivity].
  exfalso.
  pose proof names_letters as L. rewrite forallb_forall in L.
  destruct (name_prefix j n (L n Hn) s Hs P) as (d & s' & E & Hd).
  assert (X : after_name s = true).
  { unfold after_name. apply existsb_exists. exists n. split; [exact Hn|].
    rewrite E. exact Hd. }
  congruence.
Qed.

Lemma atoms_checked :
  forallb (fun x => forallb (fun a => String.eqb a x || forallb residue_fine (residues x a))
                      coded_atoms)
    (map fst rev_table) = true.
Proof. vm_compute. reflexivity. Qed.

Lemma sandwich_free_inv (c : ascii) (s : string) :
  sandwich_free (String c s) = true ->
  (escaped c = true -> after_name s = false) /\ sandwich_free s = true.
Proof.
  cbn [sandwich_free]. intros H. apply andb_true_iff in H. destruct H as [H1 H2].
  split; [|exact H2]. intros E. rewrite E in H1. apply negb_true_iff in H1. exact H1.
Qed.

(** No replacement of the unescaper finds anything but its own markers
    in a rewritten body. *)
Lemma body_atoms_ok (x : string) (j : nat) (b : string) :
  In x (map fst rev_table) ->
  mem "&"%char b = false -> sandwich_free b = true ->
  atoms_ok x (code_at j) b = true.
Proof.
  intros Hx. induction b as [|c b IH]; intros Hb S; [reflexivity|].
  cbn [mem] in Hb. apply orb_false_iff in Hb. destruct Hb as [_ Hb].
  destruct (sandwich_free_inv c b S) as [A S'].
  cbn [atoms_ok]. rewrite (IH Hb S'), andb_true_r.
  pose proof (code_at_head_ok j b Hb) as Hh.
  destruct (escaped c) eqn:Ec.
  - pose proof atoms_checked as C. rewrite forallb_forall in C.
    specialize (C x Hx). rewrite forallb_forall in C.
    specialize (C _ (code_at_escaped j c Ec)).
    apply orb_true_iff in C. apply orb_true_iff. destruct C as [C|C]; [left; exact C|].
    right. rewrite no_start_residues.
    apply fine_residues; [exact C | exact Hh |].
    apply code_at_tail_ok; [exact Hb | exact (A eq_refl)].
  - rewrite (code_at_literal j c Ec). apply orb_true_iff. right.
    rewrite no_start_residues.
    assert (F : forallb residue_fine (residues x (str1 c)) = true).
    { unfold rev_table in Hx. cbn [map fst In] in Hx.
      repeat (destruct Hx as [<-|Hx];
              [cbn [str1 residues residue]; destruct (Ascii.eqb "_" c); reflexivity|]).
      destruct Hx. }
    apply forallb_forall. intros r Hr.
    rewrite forallb_forall in F. specialize (F r Hr).
    unfold residue_fine in F. apply orb_true_iff in F. destruct F as [F|F].
    + rewrite (amp_residue r _ F Hh). reflexivity.
    + exfalso. unfold rev_table in Hx. cbn [map fst In] in Hx.
      repeat (destruct Hx as [<-|Hx];
              [cbn [str1 residues residue] in Hr; destruct (Ascii.eqb "_" c);
               cbn [In] in Hr; [destruct Hr as [<-|[]]; discriminate F | destruct Hr]|]).
      destruct Hx.
Qed.

Lemma code_step_none (x' t : string) (c : ascii) :
  (forall a, In a coded_atoms -> String.eqb a (String "_" (String "&" x')) = false) ->
  (if String.eqb (code_at 0 c) (String "_" (String "&" x')) then t else code_at 0 c) =
  code_at 0 c.
Proof.
  intros H. destruct (escaped c) eqn:E.
  - rewrite (H _ (code_at_escaped 0 c E)). reflexivity.
  - rewrite (code_at_literal 0 c E), char_is_no_marker. reflexivity.
Qed.

Lemma code_step (x' t : string) (j : nat) (c : ascii) :
  In (String "_" (String "&" x'), t, j)
    [("_&_SPACE_&_", " ", 0); ("_&_COLON_&_", ":", 1); ("_&_PA_&_", "(", 2);
     ("_&_RENS_&_", ")", 3)] ->
  (if String.eqb (code_at j c) (String "_" (String "&" x')) then t else code_at j c) =
  code_at (S j) c.
Proof.
  intros H. destruct (escaped c) eqn:E.
  - cbn [In] in H.
    repeat (destruct H as [H|H];
            [injection H as <- <- <-; unfold code_at;
             destruct (isspace c); [reflexivity|];
             destruct (Ascii.eqb ":" c); [reflexivity|];
             destruct (Ascii.eqb "(" c); [reflexivity|];
             destruct (Ascii.eqb ")" c); [reflexivity|];
             unfold str1; cbn [String.eqb]; destruct (Ascii.eqb c "_"); reflexivity|]).
    destruct H.
  - rewrite !(code_at_literal _ c E), char_is_no_marker. reflexivity.
Qed.

(** The six replacements of the unescaper bring a rewritten body back:
    each marker becomes its character, a whitespace character a
    blank. *)
Lemma unescape_body (b : string) :
  mem "&"%char b = false -> sandwich_free b = true ->
  unescape (map_chars (code_at 0) b) = map_chars (code_at 4) b.
Proof.
  intros Hb S. unfold unescape, replace_steps, rev_table.
  cbn [fold_left fst snd].
  assert (N : forall x, In x ["_&_METAESC_&_"; "_&_QUOT_&_"] ->
              forall a, In a coded_atoms -> String.eqb a x = false).
  { intros x Hx a Ha. unfold coded_atoms in Ha. cbn [In] in Hx, Ha.
    repeat (destruct Hx as [<-|Hx];
            [repeat (destruct Ha as [<-|Ha]; [reflexivity|]); destruct Ha|]).
    destruct Hx. }
  rewrite (replace_atoms "_" "&_METAESC_&_" BS (code_at 0) b)
    by (apply body_atoms_ok; [cbn; tauto | exact Hb | exact S]).
  rewrite (map_chars_ext _ (code_at 0))
    by (intros c _; apply code_step_none; apply N; cbn; tauto).
  rewrite (replace_atoms "_" "&_QUOT_&_" (BS ++ DQ) (code_at 0) b)
    by (apply body_atoms_ok; [cbn; tauto | exact Hb | exact S]).
  rewrite (map_chars_ext _ (code_at 0))
    by (intros c _; apply code_step_none; apply N; cbn; tauto).
  rewrite (replace_atoms "_" "&_SPACE_&_" " " (code_at 0) b)
    by (apply body_atoms_ok; [cbn; tauto | exact Hb | exact S]).
  rewrite (map_chars_ext _ (code_at 1))
    by (intros c _; apply code_step; cbn; tauto).
  rewrite (replace_atoms "_" "&_COLON_&_" ":" (code_at 1) b)
    by (apply body_atoms_ok; [cbn; tauto | exact Hb | exact S]).
  rewrite (map_chars_ext _ (code_at 2))
    by (intros c _; apply code_step; cbn; tauto).
  rewrite (replace_atoms "_" "&_PA_&_" "(" (code_at 2) b)
    by (apply body_atoms_ok; [cbn; tauto | exact Hb | exact S]).
  rewrite (map_chars_ext _ (code_at 3))
    by (intros c _; apply code_step; cbn; tauto).
  rewrite (replace_atoms "_" "&_RENS_&_" ")" (code_at 3) b)
    by (apply body_atoms_ok; [cbn; tauto | exact Hb | exact S]).
  apply map_chars_ext. intros c _. apply code_step. cbn. tauto.
Qed.

Lemma protect_code (b : string) : map_chars protect b = map_chars (code_at 0) b.
Proof.
  apply map_chars_ext. intros c _. unfold protect, code_at.
  destruct (isspace c); [reflexivity|].
  destruct (Ascii.eqb ":" c); [reflexivity|].
  destruct (Ascii.eqb "(" c); [reflexivity|].
  destruct (Ascii.eqb ")" c); reflexivity.
Qed.

Lemma code_back (b : string) :
  all_chars (fun c => negb (isspace c) || Ascii.eqb c " ") b = true ->
  map_chars (code_at 4) b = b.
Proof.
  intros H. apply map_chars_id. intros c Hc.
  pose proof (all_chars_forall _ _ H c Hc) as B. cbv beta in B.
  unfold code_at. destruct (isspace c).
  - cbn [negb orb] in B. apply Ascii.eqb_eq in B. subst c. reflexivity.
  - destruct (Ascii.eqb ":" c) eqn:E1; [apply Ascii.eqb_eq in E1; subst c; reflexivity|].
    destruct (Ascii.eqb "(" c) eqn:E2; [apply Ascii.eqb_eq in E2; subst c; reflexivity|].
    destruct (Ascii.eqb ")" c) eqn:E3; [apply Ascii.eqb_eq in E3; subst c; reflexivity|].
    reflexivity.
Qed.

(** ** The unescaper across a character that is in no marker *)

Lemma prefix_app_l (x a s : string) :
  prefix x a = true -> prefix x (a ++ s) = true.
Proof.
  revert a. induction x as [|c x IH]; intros a H; [apply prefix_empty|].
  destruct a as [|d a]; [discriminate H|].
  rewrite prefix_cons in H. apply andb_true_iff in H. destruct H as [H1 H2].
  cbn [append]. rewrite prefix_cons, H1. cbn [andb]. apply IH. exact H2.
Qed.

Lemma drop_app (n : nat) :
  forall a s, n <= String.length a -> drop n (a ++ s) = drop n a ++ s.
Proof.
  induction n as [|n IH]; intros a s H.
  - destruct a; destruct s; reflexivity.
  - destruct a as [|c a]; [cbn [String.length] in H; lia|].
    cbn [append drop]. apply IH. cbn [String.length] in H. lia.
Qed.

Lemma str_replace_barrier (x0 : ascii) (x' t : string) (d : ascii) :
  mem d (String x0 x') = false ->
  forall n a r,
    String.length a <= n ->
    str_replace (String x0 x') t (a ++ String d r) =
    str_replace (String x0 x') t a ++ String d (str_replace (String x0 x') t r).
Proof.
  intros Hd. induction n as [|n IH]; intros a r Hn.
  - destruct a as [|c a]; [|cbn [String.length] in Hn; lia].
    cbn [append]. rewrite str_replace_miss; [reflexivity|].
    cbn [mem] in Hd. apply orb_false_iff in Hd. destruct Hd as [E _].
    rewrite prefix_cons, Ascii.eqb_sym, E. reflexivity.
  - destruct a as [|c a].
    + apply (IH "" r). cbn [String.length]. lia.
    + destruct (prefix (String x0 x') (String c a)) eqn:P.
      * rewrite (str_replace_hit x0 x' t _ (prefix_app_l _ _ (String d r) P)).
        rewrite (str_replace_hit x0 x' t _ P).
        pose proof (prefix_length _ _ P) as L.
        rewrite drop_app by exact L. rewrite IH.
        -- rewrite append_assoc. reflexivity.
        -- cbn [String.length] in Hn. cbn [drop].
           pose proof (drop_length (String.length x') a). lia.
      * assert (Q : prefix (String x0 x') (String c a ++ String d r) = false).
        { destruct (prefix (String x0 x') (String c a ++ String d r)) eqn:Q;
            [|reflexivity].
          rewrite (prefix_app_stop _ _ _ _ Hd Q) in P. discriminate P. }
        cbn [append] in Q |- *.
        rewrite (str_replace_miss _ _ _ _ Q), (str_replace_miss _ _ _ _ P).
        rewrite IH by (cbn [String.length] in Hn; lia). reflexivity.
Qed.

Lemma steps_barrier (ps : list (string * string)) (d : ascii) :
  forallb (fun p => truthy (fst p) && negb (mem d (fst p))) ps = true ->
  forall a r,
    replace_steps ps (a ++ String d r) =
    replace_steps ps a ++ String d (replace_steps ps r).
Proof.
  unfold replace_steps. induction ps as [|[x t] ps IH]; intros H a r; [reflexivity|].
  cbn [forallb fst] in H. apply andb_true_iff in H. destruct H as [Hx H].
  apply andb_true_iff in Hx. destruct Hx as [T M]. apply negb_true_iff in M.
  destruct x as [|x0 x']; [discriminate T|].
  cbn [fold_left fst snd].
  rewrite (str_replace_barrier x0 x' t d M (String.length a) a r (le_n _)).
  apply (IH H).
Qed.

Lemma marker_free_steps (w : string) :
  marker_free w = true -> replace_steps rev_table w = w.
Proof.
  intros H. apply steps_id. intros p Hp.
  unfold marker_free, markers in H. cbn [map forallb _replacepairs snd] in H.
  repeat (apply andb_true_iff in H; destruct H as [?H H]).
  unfold rev_table in Hp. cbn [In] in Hp.
  repeat (destruct Hp as [<-|Hp]; [cbn [fst]; apply negb_true_iff; assumption|]).
  destruct Hp.
Qed.

Lemma delims_in_no_marker (k : kind) :
  forallb (fun p => truthy (fst p) && negb (mem (opener k) (fst p))) rev_table = true /\
  forallb (fun p => truthy (fst p) && negb (mem (closer k) (fst p))) rev_table = true.
Proof. destruct k; split; reflexivity. Qed.

(** ** Stable tokens and their parts *)

Lemma kind_of_opener (c : ascii) (k : kind) : kind_of c = Some k -> c = opener k.
Proof.
  unfold kind_of.
  destruct (Ascii.eqb c "{") eqn:E1;
    [intros H; injection H as <-; apply Ascii.eqb_eq; exact E1|].
  destruct (Ascii.eqb c "[") eqn:E2;
    [intros H; injection H as <-; apply Ascii.eqb_eq; exact E2|].
  destruct (Ascii.eqb c "/") eqn:E3;
    [intros H; injection H as <-; apply Ascii.eqb_eq; exact E3|].
  destruct (Ascii.eqb c dquote) eqn:E4;
    [intros H; injection H as <-; apply Ascii.eqb_eq; exact E4|].
  discriminate.
Qed.

Lemma cut_at_opener_spec (v : string) :
  forall p k r, cut_at_opener v = Some (p, k, r) -> v = p ++ String (opener k) r.
Proof.
  induction v as [|c v IH]; intros p k r H; [discriminate H|].
  cbn [cut_at_opener] in H. destruct (kind_of c) as [k'|] eqn:K.
  - injection H as <- <- <-. rewrite (kind_of_opener c k' K). reflexivity.
  - destruct (cut_at_opener v) as [[[p' k'] r']|]; [|discriminate H].
    injection H as <- <- <-. rewrite (IH p' k' r' eq_refl). reflexivity.
Qed.

Lemma cut_at_spec (c : ascii) (s : string) :
  forall a r, cut_at c s = Some (a, r) -> s = a ++ String c r.
Proof.
  induction s as [|d s IH]; intros a r H; [discriminate H|].
  cbn [cut_at] in H. destruct (Ascii.eqb c d) eqn:E.
  - injection H as <- <-. apply Ascii.eqb_eq in E. subst d. reflexivity.
  - destruct (cut_at c s) as [[a' r']|]; [|discriminate H].
    injection H as <- <-. rewrite (IH a' r' eq_refl). reflexivity.
Qed.

Lemma span_parts_spec (v pre : string) (k : kind) (b post : string) :
  span_parts v = Some (pre, k, b, post) -> v = pre ++ span_text k b ++ post.
Proof.
  unfold span_parts. intros H.
  destruct (cut_at_opener v) as [[[p k'] r]|] eqn:C; [|discriminate H].
  destruct (cut_at (closer k') r) as [[b' post']|] eqn:D; [|discriminate H].
  injection H as <- <- <- <-.
  rewrite (cut_at_opener_spec v _ _ _ C), (cut_at_spec _ r _ _ D), span_text_app.
  reflexivity.
Qed.

Lemma stable_value_chunk (v : string) :
  stable_value v = true -> exists c, chunk_text c = v /\ chunk_ok c = true.
Proof.
  unfold stable_value. intros H. apply orb_true_iff in H. destruct H as [H|H].
  - exists (CWord v). split; [reflexivity | exact H].
  - destruct (span_parts v) as [[[[pre k] b] post]|] eqn:E; [|discriminate H].
    exists (CSpan pre k b post). split; [|exact H].
    symmetry. apply span_parts_spec. exact E.
Qed.

Lemma stable_token_stok (t : token) :
  stable_token t = true -> exists st, tok_of st = t /\ stok_ok st = true.
Proof.
  destruct t as [s|[[f|] v]]; cbn [stable_token field term]; intros H.
  - exists (SLit s). split; [reflexivity | exact H].
  - apply andb_true_iff in H. destruct H as [H Hv].
    destruct (stable_value_chunk v Hv) as (c & <- & Hc).
    exists (SField f c). split; [reflexivity|]. cbn [stok_ok]. rewrite H, Hc. reflexivity.
  - apply andb_true_iff in H. destruct H as [Hv H].
    destruct (stable_value_chunk v Hv) as (c & <- & Hc).
    exists (SGlobal c). split; [reflexivity|]. cbn [stok_ok]. rewrite H, Hc. reflexivity.
Qed.

Lemma stable_tokens_stoks (ts : list token) :
  forallb stable_token ts = true ->
  exists sts, map tok_of sts = ts /\ Forall (fun st => stok_ok st = true) sts.
Proof.
  induction ts as [|t ts IH]; intros H.
  - exists []. split; [reflexivity | constructor].
  - cbn [forallb] in H. apply andb_true_iff in H. destruct H as [Ht H].
    destruct (stable_token_stok t Ht) as (st & <- & Hst).
    destruct (IH H) as (sts & <- & Hsts).
    exists (st :: sts). split; [reflexivity | constructor; assumption].
Qed.

Lemma word_char_inv (c : ascii) :
  word_char c = true ->
  isspace c = false /\ mem c "()" = false /\ mem c openers = false.
Proof.
  unfold word_char. intros H. break_andb.
  rewrite mem_app in *. match goal with H : _ || _ = false |- _ =>
    apply orb_false_iff in H; destruct H end.
  auto.
Qed.

Lemma word_chars_no_opener (w : string) :
  all_chars word_char w = true -> no_opener w = true.
Proof.
  apply all_chars_weaken. intros c Hc.
  destruct (word_char_inv c Hc) as (_ & _ & O). rewrite O. reflexivity.
Qed.

Lemma word_chars_solid (w : string) :
  all_chars word_char w = true -> all_chars solid_char w = true.
Proof.
  apply all_chars_weaken. intros c Hc.
  destruct (word_char_inv c Hc) as (S & P & _). unfold solid_char. rewrite S, P.
  reflexivity.
Qed.

Lemma part_ok_inv (w : string) :
  part_ok w = true ->
  all_chars word_char w = true /\ calm false w = true /\
  colons_escaped false w = true /\ marker_free w = true.
Proof. unfold part_ok. intros H. break_andb. auto. Qed.

Lemma term_word_inv (w : string) :
  term_word w = true -> truthy w = true /\ part_ok w = true /\ last_is ":" w = false.
Proof. unfold term_word. intros H. break_andb. auto. Qed.

Lemma pre_ok_inv (w : string) :
  pre_ok w = true -> part_ok w = true /\ last_is_backslash false w = false.
Proof. unfold pre_ok. intros H. break_andb. auto. Qed.

Lemma post_ok_inv (w : string) :
  post_ok w = true ->
  part_ok w = true /\ last_is ":" w = false /\
  (w = "" \/ starts_in "~^" w = true).
Proof.
  unfold post_ok. intros H. break_andb. split; [assumption|]. split; [assumption|].
  destruct w as [|c w]; [left; reflexivity | right; assumption].
Qed.

Lemma body_char_inv (k : kind) (c : ascii) :
  body_char k c = true ->
  (isspace c = true -> c = " "%char) /\ mem c openers = false /\
  Ascii.eqb "&" c = false /\ Ascii.eqb c (closer k) = false.
Proof.
  unfold body_char. intros H. break_andb.
  rewrite mem_app in *. match goal with H : _ || _ = false |- _ =>
    apply orb_false_iff in H; destruct H as [O A] end.
  cbn [mem] in A. rewrite orb_false_r in A.
  split; [|split; [exact O|split; [rewrite Ascii.eqb_sym; exact A | assumption]]].
  intros S. match goal with H : _ || _ = true |- _ => rewrite S in H;
    cbn [negb orb] in H; apply Ascii.eqb_eq in H; exact H end.
Qed.

Lemma body_ok_inv (k : kind) (b : string) :
  body_ok k b = true ->
  all_chars (body_char k) b = true /\ calm false b = true /\
  last_is_backslash false b = false /\
  (symmetric k && starts_in " ~^" b = false) /\ sandwich_free b = true.
Proof. unfold body_ok. intros H. break_andb. auto. Qed.

Lemma body_ok_ibody (k : kind) (b : string) : body_ok k b = true -> ibody k b = true.
Proof.
  intros H. destruct (body_ok_inv k b H) as (A & _ & L & S & _).
  unfold ibody. rewrite L, S. cbn [negb]. rewrite !andb_true_r.
  apply (all_chars_weaken (body_char k)); [|exact A].
  intros c Hc. destruct (body_char_inv k c Hc) as (W & O & _ & C).
  unfold inert_in. rewrite O, C.
  destruct (Ascii.eqb c newline) eqn:N; [|reflexivity].
  apply Ascii.eqb_eq in N. subst c. discriminate (W eq_refl).
Qed.

Lemma chunk_ok_wf (c : chunk) : chunk_ok c = true -> chunk_wf c = true.
Proof.
  destruct c as [w|pre k b post]; cbn [chunk_ok chunk_wf]; intros H.
  - destruct (term_word_inv w H) as (_ & P & _).
    apply word_chars_no_opener. apply (part_ok_inv w P).
  - break_andb.
    destruct (pre_ok_inv pre) as (P1 & P2); [assumption|].
    destruct (post_ok_inv post) as (Q1 & _ & Q3); [assumption|].
    rewrite (word_chars_no_opener pre (proj1 (part_ok_inv pre P1))), P2.
    rewrite (body_ok_ibody k b) by assumption.
    rewrite (word_chars_no_opener post (proj1 (part_ok_inv post Q1))).
    cbn [negb andb]. destruct Q3 as [->|Q3]; [reflexivity|].
    destruct post as [|d post]; [reflexivity|].
    cbn [starts_in mem] in Q3. cbn [after_ok mem].
    rewrite Q3. apply orb_true_r.
Qed.

(** ** The escaper on an assembled string *)

Lemma calm_app (a b : string) :
  forall e, calm e (a ++ b) = calm e a && calm (last_is_backslash e a) b.
Proof.
  induction a as [|c a IH]; intros e; [reflexivity|].
  cbn [append calm last_is_backslash]. rewrite IH, andb_assoc. reflexivity.
Qed.

Lemma calm_no_pairs (s : string) :
  forall e, calm e s = true ->
            contains (BS ++ BS) s = false /\ contains (BS ++ DQ) s = false.
Proof.
  induction s as [|c s IH]; intros e H; [split; reflexivity|].
  cbn [calm] in H. apply andb_true_iff in H. destruct H as [_ H].
  destruct (IH _ H) as [I1 I2]. rewrite !contains_cons, I1, I2, !orb_false_r.
  change (BS ++ BS) with (String backslash (String backslash "")).
  change (BS ++ DQ) with (String backslash (String dquote "")).
  rewrite !prefix_cons.
  destruct (Ascii.eqb backslash c) eqn:E; [|split; reflexivity].
  rewrite Ascii.eqb_sym, E in H. cbn [andb].
  destruct s as [|d s]; [split; reflexivity|].
  cbn [calm] in H. apply andb_true_iff in H. destruct H as [H _].
  apply negb_true_iff in H. cbn [andb] in H. apply orb_false_iff in H.
  destruct H as [H1 H2]. rewrite !prefix_cons.
  rewrite (Ascii.eqb_sym backslash d), H1, (Ascii.eqb_sym dquote d), H2.
  split; reflexivity.
Qed.

Lemma escapes_calm (s : string) :
  calm false s = true ->
  _replace_metaescape s = Ok s /\ _replace_esc_quotes s = Ok s.
Proof.
  intros H. destruct (calm_no_pairs s false H) as [H1 H2].
  unfold _replace_metaescape, _replace_esc_quotes. cbn [_replacepairs].
  rewrite (re_sub_lit (BS ++ BS) "_&_METAESC_&_" "_&_METAESC_&_" s eq_refl),
    (re_sub_lit (BS ++ DQ) "_&_QUOT_&_" "_&_QUOT_&_" s eq_refl).
  rewrite !str_replace_absent by assumption. split; reflexivity.
Qed.

Lemma calm_join (l : list string) :
  Forall (fun x => calm false x = true) l -> calm false (str_join " " l) = true.
Proof.
  induction 1 as [|x l Hx _ IH]; [reflexivity|].
  destruct l as [|y l]; [exact Hx|].
  change (str_join " " (x :: y :: l)) with (x ++ " " ++ str_join " " (y :: l)).
  rewrite calm_app, Hx. cbn [append calm andb].
  rewrite andb_false_r. exact IH.
Qed.

Lemma calm_span (k : kind) (b post : string) :
  calm false b = true -> last_is_backslash false b = false -> calm false post = true ->
  calm false (span_text k b ++ post) = true.
Proof.
  intros Hb L Hp. rewrite span_text_app. cbn [calm andb negb].
  rewrite opener_not_backslash, calm_app, Hb, L. cbn [calm andb negb].
  rewrite closer_not_backslash. exact Hp.
Qed.

Lemma chunk_ok_calm (c : chunk) : chunk_ok c = true -> calm false (chunk_text c) = true.
Proof.
  destruct c as [w|pre k b post]; cbn [chunk_ok chunk_text]; intros H.
  - destruct (term_word_inv w H) as (_ & P & _). apply (part_ok_inv w P).
  - break_andb.
    destruct (pre_ok_inv pre) as (P1 & P2); [assumption|].
    destruct (post_ok_inv post) as (Q1 & _); [assumption|].
    destruct (body_ok_inv k b) as (_ & B2 & B3 & _); [assumption|].
    rewrite calm_app, (proj1 (proj2 (part_ok_inv pre P1))), P2.
    apply calm_span; try assumption. apply (part_ok_inv post Q1).
Qed.

Lemma lit_word_inv (w : string) :
  lit_word w = true ->
  truthy w = true /\ all_chars word_char w = true /\ calm false w = true /\
  last_is ":" w = false /\ starts_with_operator w = true.
Proof. unfold lit_word. intros H. break_andb. auto. Qed.

Lemma stok_chunks_fit (st : stok) :
  stok_ok st = true -> Forall chunk_fit (chunks_of st).
Proof.
  destruct st as [l|v|f v]; cbn [stok_ok chunks_of]; intros H.
  - constructor; [|constructor]. apply orb_true_iff in H. destruct H as [H|H].
    + unfold is_paren in H. apply orb_true_iff in H.
      destruct H as [H|H]; apply String.eqb_eq in H; subst l; split; reflexivity.
    + destruct (lit_word_inv l H) as (_ & A & C & _).
      split; [apply (word_chars_no_opener l A) | exact C].
  - break_andb. constructor; [|constructor].
    split; [apply chunk_ok_wf | apply chunk_ok_calm]; assumption.
  - break_andb. repeat constructor.
    + apply (chunk_ok_wf (CWord f)). assumption.
    + apply (chunk_ok_calm (CWord f)). assumption.
    + apply chunk_ok_wf. assumption.
    + apply chunk_ok_calm. assumption.
Qed.

Lemma str_join_flat_map {A : Type} (g : A -> list string) (l : list A) :
  (forall x, In x l -> g x <> []) ->
  str_join " " (flat_map g l) = str_join " " (map (fun x => str_join " " (g x)) l).
Proof.
  induction l as [|x l IH]; intros H; [reflexivity|].
  destruct l as [|y l].
  - cbn [flat_map map str_join]. rewrite app_nil_r. reflexivity.
  - change (flat_map g (x :: y :: l)) with (g x ++ flat_map g (y :: l))%list.
    rewrite str_join_app.
    + rewrite IH by (intros z Hz; apply H; right; exact Hz). reflexivity.
    + apply H. left. reflexivity.
    + cbn [flat_map]. intros E. apply app_eq_nil in E. destruct E as [E _].
      apply (H y); [right; left; reflexivity | exact E].
Qed.

Lemma assemble_item_chunks (st : stok) :
  stok_ok st = true ->
  assemble_item (tok_of st) = str_join " " (map chunk_text (chunks_of st)) /\
  assemble_item (code_of st) = str_join " " (map chunk_code (chunks_of st)).
Proof.
  destruct st as [l|v|f v]; cbn [stok_ok]; intros H; try (split; reflexivity).
  break_andb. destruct (term_word_inv f) as (T & _); [assumption|].
  cbn [tok_of code_of assemble_item field term chunks_of map chunk_text chunk_code].
  rewrite T. split; apply append_assoc.
Qed.

Lemma chunks_not_nil (st : stok) : chunks_of st <> [].
Proof. destruct st; discriminate. Qed.

Lemma assemble_chunks (sts : list stok) :
  Forall (fun st => stok_ok st = true) sts ->
  assemble (map tok_of sts) = str_join " " (map chunk_text (flat_map chunks_of sts)) /\
  assemble (map code_of sts) = str_join " " (map chunk_code (flat_map chunks_of sts)).
Proof.
  intros H. unfold assemble. rewrite !map_map.
  assert (F : forall (g : chunk -> string),
             map g (flat_map chunks_of sts) =
             flat_map (fun st => map g (chunks_of st)) sts).
  { intros g. induction sts as [|st l IH]; [reflexivity|].
    cbn [flat_map]. rewrite map_app, IH; [reflexivity|].
    inversion H; assumption. }
  rewrite !F, !str_join_flat_map
    by (intros st _ E; apply map_eq_nil in E; exact (chunks_not_nil st E)).
  split; f_equal; apply map_ext_in; intros st Hst; apply assemble_item_chunks;
    rewrite Forall_forall in H; apply H; exact Hst.
Qed.

Lemma chunks_fit (sts : list stok) :
  Forall (fun st => stok_ok st = true) sts ->
  Forall chunk_fit (flat_map chunks_of sts).
Proof.
  induction 1 as [|st sts Hst _ IH]; [constructor|].
  cbn [flat_map]. apply Forall_app. split; [apply stok_chunks_fit; exact Hst | exact IH].
Qed.

(** ** The tokens that the classifier finds *)

Lemma protect_free (b : string) :
  all_chars (fun d => negb (isspace d) && negb (mem d ":()")) (map_chars protect b) = true.
Proof. apply all_chars_map_chars. intros c _. apply protect_calm. Qed.

Lemma protect_solid (b : string) : all_chars solid_char (map_chars protect b) = true.
Proof.
  apply (all_chars_weaken (fun d => negb (isspace d) && negb (mem d ":()")));
    [|apply protect_free].
  intros d Hd. unfold solid_char.
  apply andb_true_iff in Hd. destruct Hd as [H1 H2]. rewrite H1.
  apply negb_true_iff in H2. cbn [mem] in H2 |- *.
  apply orb_false_iff in H2. destruct H2 as [_ H2]. rewrite H2. reflexivity.
Qed.

Lemma delims_solid (k : kind) :
  solid_char (opener k) = true /\ solid_char (closer k) = true /\
  Ascii.eqb ":" (opener k) = false /\ Ascii.eqb ":" (closer k) = false.
Proof. destruct k; repeat split; reflexivity. Qed.

Lemma colons_escaped_head (c : ascii) (w : string) :
  colons_escaped false (String c w) = true -> Ascii.eqb ":" c = false.
Proof.
  cbn [colons_escaped]. intros H. apply andb_true_iff in H. destruct H as [H _].
  rewrite orb_false_r in H. apply negb_true_iff in H. rewrite Ascii.eqb_sym. exact H.
Qed.

Lemma term_word_solid (w : string) : term_word w = true -> solid_word w = true.
Proof.
  intros H. destruct (term_word_inv w H) as (T & P & L).
  destruct (part_ok_inv w P) as (A & _ & C & _).
  unfold solid_word. rewrite T, (word_chars_solid w A), L.
  destruct w as [|c w]; [discriminate T|].
  rewrite prefix_cons, (colons_escaped_head c w C). reflexivity.
Qed.

Lemma last_is_span (k : kind) (b : string) : last_is ":" (span_text k b) = false.
Proof.
  unfold span_text.
  change (String (opener k) (b ++ str1 (closer k)))
    with (String (opener k) b ++ str1 (closer k)).
  rewrite last_is_app by reflexivity. cbn [str1 last_is].
  apply (delims_solid k).
Qed.

Lemma chunk_code_solid (c : chunk) :
  chunk_ok c = true -> solid_word (chunk_code c) = true.
Proof.
  destruct c as [w|pre k b post]; cbn [chunk_ok chunk_code]; intros H.
  - apply term_word_solid. exact H.
  - break_andb.
    destruct (pre_ok_inv pre) as (P1 & _); [assumption|].
    destruct (post_ok_inv post) as (Q1 & Q2 & _); [assumption|].
    destruct (part_ok_inv pre P1) as (A1 & _ & C1 & _).
    destruct (part_ok_inv post Q1) as (A2 & _).
    destruct (delims_solid k) as (D1 & D2 & D3 & _).
    unfold solid_word.
    assert (T : truthy (pre ++ span_text k (map_chars protect b) ++ post) = true)
      by (destruct pre; reflexivity).
    rewrite T. cbn [andb].
    assert (A : all_chars solid_char (pre ++ span_text k (map_chars protect b) ++ post)
                = true).
    { rewrite !all_chars_app, (word_chars_solid pre A1), (word_chars_solid post A2).
      unfold span_text. cbn [all_chars]. rewrite all_chars_app, D1, protect_solid.
      cbn [str1 all_chars]. rewrite D2. reflexivity. }
    rewrite A. cbn [andb].
    assert (P : prefix ":" (pre ++ span_text k (map_chars protect b) ++ post) = false).
    { destruct pre as [|c pre].
      - unfold span_text. cbn [append]. rewrite prefix_cons, D3. reflexivity.
      - cbn [append]. rewrite prefix_cons, (colons_escaped_head c pre C1). reflexivity. }
    rewrite P. cbn [negb andb].
    rewrite last_is_app by reflexivity.
    destruct post as [|d post].
    + rewrite append_nil_r, last_is_span. reflexivity.
    + rewrite last_is_app by reflexivity. rewrite Q2. reflexivity.
Qed.

Lemma operator_not_colon (w : string) :
  starts_with_operator w = true -> prefix ":" w = false.
Proof.
  destruct w as [|c w]; [reflexivity|]. intros H. rewrite prefix_cons.
  destruct (Ascii.eqb ":" c) eqn:E; [|reflexivity].
  apply Ascii.eqb_eq in E. subst c. discriminate H.
Qed.

Lemma stok_solid (st : stok) : stok_ok st = true -> solid_shape (code_of st).
Proof.
  destruct st as [l|v|f v]; cbn [stok_ok code_of]; intros H.
  - apply orb_true_iff in H. destruct H as [H|H].
    + unfold is_paren in H. apply orb_true_iff in H.
      destruct H as [H|H]; apply String.eqb_eq in H; subst l; constructor.
    + destruct (lit_word_inv l H) as (T & A & _ & L & O).
      apply solid_literal. unfold solid_word.
      rewrite T, (word_chars_solid l A), L, (operator_not_colon l O). reflexivity.
  - break_andb. apply solid_global. apply chunk_code_solid. assumption.
  - break_andb. apply solid_field; [apply term_word_solid | apply chunk_code_solid];
      assumption.
Qed.

Lemma prefix_before (p pre x : string) (o : ascii) :
  mem o p = false -> prefix p (pre ++ String o x) = prefix p pre.
Proof.
  intros H. destruct (prefix p (pre ++ String o x)) eqn:E.
  - symmetry. exact (prefix_app_stop p pre x o H E).
  - destruct (prefix p pre) eqn:F; [|reflexivity].
    rewrite (prefix_app_l p pre _ F) in E. discriminate E.
Qed.

Lemma operator_before (k : kind) (pre x : string) :
  starts_with_operator (pre ++ String (opener k) x) = starts_with_operator pre.
Proof.
  unfold starts_with_operator, operators. cbn [existsb].
  rewrite !(prefix_before _ pre x (opener k)) by (destruct k; reflexivity).
  reflexivity.
Qed.

Lemma operator_code (c : chunk) :
  starts_with_operator (chunk_code c) = starts_with_operator (chunk_text c).
Proof.
  destruct c as [w|pre k b post]; [reflexivity|].
  cbn [chunk_code chunk_text]. rewrite !span_text_app, !operator_before. reflexivity.
Qed.

Lemma colons_escaped_app (a b : string) :
  forall e,
    colons_escaped e (a ++ b) =
    colons_escaped e a && colons_escaped (last_is_backslash e a) b.
Proof.
  induction a as [|c a IH]; intros e; [reflexivity|].
  cbn [append colons_escaped last_is_backslash]. rewrite IH, andb_assoc. reflexivity.
Qed.

Lemma colons_code (c : chunk) :
  chunk_ok c = true -> colons_escaped false (chunk_code c) = true.
Proof.
  destruct c as [w|pre k b post]; cbn [chunk_ok chunk_code]; intros H.
  - destruct (term_word_inv w H) as (_ & P & _). apply (part_ok_inv w P).
  - break_andb.
    destruct (pre_ok_inv pre) as (P1 & _); [assumption|].
    destruct (post_ok_inv post) as (Q1 & _); [assumption|].
    destruct (delims_solid k) as (_ & _ & D3 & D4).
    rewrite colons_escaped_app, (proj1 (proj2 (proj2 (part_ok_inv pre P1)))).
    rewrite span_text_app. cbn [andb colons_escaped].
    rewrite (Ascii.eqb_sym (opener k) ":"%char), D3. cbn [negb orb andb].
    rewrite colons_escaped_app.
    rewrite (colons_escaped_nocolon (map_chars protect b))
      by (apply (all_chars_mem _ _ _ (protect_free b)); reflexivity).
    cbn [andb colons_escaped].
    rewrite (Ascii.eqb_sym (closer k) ":"%char), D4, closer_not_backslash.
    apply (part_ok_inv post Q1).
Qed.

Lemma classify_code (st : stok) :
  stok_ok st = true -> classify (raw_of (code_of st)) = code_of st.
Proof.
  destruct st as [l|v|f v]; cbn [stok_ok code_of raw_of field term]; intros H.
  - apply orb_true_iff in H. destruct H as [H|H].
    + unfold is_paren in H. apply orb_true_iff in H.
      destruct H as [H|H]; apply String.eqb_eq in H; subst l; reflexivity.
    + apply classify_operator. apply (lit_word_inv l H).
  - break_andb. apply classify_escaped.
    + rewrite operator_code. assumption.
    + apply colons_code. assumption.
  - break_andb.
    destruct (term_word_inv f) as (_ & P & _); [assumption|].
    apply classify_field.
    + unfold starts_with_operator. rewrite <- re_match_nonterms.
      apply (re_match_field f (chunk_code v)). rewrite re_match_nonterms. assumption.
    + apply (part_ok_inv f P).
    + assumption.
    + apply colons_code. assumption.
Qed.

(** ** The unescaper gives the tokens back *)

Lemma body_no_amp (k : kind) (b : string) :
  all_chars (body_char k) b = true -> mem "&"%char b = false.
Proof.
  intros H. apply (all_chars_mem (body_char k)); [exact H|].
  unfold body_char. rewrite mem_app. cbn [mem]. rewrite eqb_char_refl.
  rewrite !orb_true_r. cbn [negb]. rewrite andb_false_r. reflexivity.
Qed.

Lemma body_blanks (k : kind) (b : string) :
  all_chars (body_char k) b = true ->
  all_chars (fun c => negb (isspace c) || Ascii.eqb c " ") b = true.
Proof.
  apply all_chars_weaken. intros c Hc. unfold body_char in Hc. break_andb. assumption.
Qed.

Lemma unescape_code (c : chunk) :
  chunk_ok c = true -> unescape_if (chunk_code c) = chunk_text c.
Proof.
  destruct c as [w|pre k b post]; cbn [chunk_ok chunk_code chunk_text]; intros H.
  - destruct (term_word_inv w H) as (T & P & _). unfold unescape_if. rewrite T.
    apply marker_free_steps. apply (part_ok_inv w P).
  - break_andb.
    destruct (pre_ok_inv pre) as (P1 & _); [assumption|].
    destruct (post_ok_inv post) as (Q1 & _); [assumption|].
    destruct (body_ok_inv k b) as (B1 & _ & _ & _ & B5); [assumption|].
    destruct (delims_in_no_marker k) as [Do Dc].
    unfold unescape_if.
    assert (T : truthy (pre ++ span_text k (map_chars protect b) ++ post) = true)
      by (destruct pre; reflexivity).
    rewrite T. unfold unescape. rewrite !span_text_app.
    rewrite (steps_barrier rev_table (opener k) Do).
    rewrite (steps_barrier rev_table (closer k) Dc).
    rewrite (marker_free_steps pre) by apply (part_ok_inv pre P1).
    rewrite (marker_free_steps post) by apply (part_ok_inv post Q1).
    fold (unescape (map_chars protect b)).
    rewrite protect_code, (unescape_body b (body_no_amp k b B1) B5).
    rewrite (code_back b (body_blanks k b B1)). reflexivity.
Qed.

Lemma unescape_code_token (st : stok) :
  stok_ok st = true -> unescape_token (code_of st) = tok_of st.
Proof.
  destruct st as [l|v|f v]; cbn [stok_ok code_of tok_of]; intros H; [reflexivity| |];
    break_andb; cbn [unescape_token field term option_map].
  - rewrite unescape_code by assumption. reflexivity.
  - rewrite unescape_code by assumption.
    assert (Ef : unescape_if f = f)
      by (apply (unescape_code (CWord f)); assumption).
    rewrite Ef. reflexivity.
Qed.

(** ** The round trip *)

Lemma raw_tokens_stable (sts : list stok) :
  Forall (fun st => stok_ok st = true) sts ->
  raw_tokens (assemble (map tok_of sts)) = Ok (map raw_of (map code_of sts)).
Proof.
  intros H. destruct (assemble_chunks sts H) as [E1 E2].
  pose proof (chunks_fit sts H) as F.
  assert (W : Forall (fun c => chunk_wf c = true) (flat_map chunks_of sts)).
  { apply Forall_forall. intros c Hc. rewrite Forall_forall in F. apply (F c Hc). }
  assert (C : calm false (assemble (map tok_of sts)) = true).
  { rewrite E1. apply calm_join. apply Forall_forall. intros x Hx.
    apply in_map_iff in Hx. destruct Hx as (c & <- & Hc).
    rewrite Forall_forall in F. apply (F c Hc). }
  destruct (escapes_calm _ C) as [M Q].
  unfold raw_tokens. rewrite M. cbn [bind]. rewrite Q. cbn [bind].
  rewrite E1, (repspaces_chunks _ W), <- E2. cbn [bind].
  apply tokenizer_solid.
  apply Forall_forall. intros t Ht. apply in_map_iff in Ht.
  destruct Ht as (st & <- & Hst). apply stok_solid.
  rewrite Forall_forall in H. apply H. exact Hst.
Qed.

Lemma deparse_assemble_stable (ts : list token) :
  forallb stable_token ts = true -> deparse (assemble ts) = Ok ts.
Proof.
  intros H. destruct (stable_tokens_stoks ts H) as (sts & <- & Hs).
  rewrite (deparse_eq _ _ (raw_tokens_stable sts Hs)).
  rewrite !map_map. f_equal. apply map_ext_in. intros st Hst.
  rewrite Forall_forall in Hs. specialize (Hs st Hst).
  rewrite (classify_code st Hs). apply unescape_code_token. exact Hs.
Qed.



(** What the conditions on stable tokens exclude does fail.  On queries:
    a doubled backslash comes back as one, and a field that ends with a
    backslash is lost.  On token lists that [deparse] does not return as
    such: a quoted string that starts with a blank is found again
    between two other quoted strings; two words with one slash each
    make a regular expression; the blank after a word that ends with a
    colon is removed; a text after a span that does not start with a
    tilde or a caret may close another span. *)
Lemma stable_conditions_needed :
  (ts' <- deparse "a\\\\b" ;; deparse (assemble ts')) =
    Ok [Term (mkTerm None "a\b")] /\
  deparse "a\\\\b" = Ok [Term (mkTerm None "a\\b")] /\
  (ts' <- deparse "a\\:b" ;; deparse (assemble ts')) =
    Ok [Term (mkTerm None "a\:b")] /\
  deparse "a\\:b" = Ok [Term (mkTerm (Some "a\") "b")] /\
  deparse (assemble [Term (mkTerm None (DQ ++ " b " ++ DQ));
                     Term (mkTerm None (DQ ++ "a" ++ DQ));
                     Term (mkTerm None "b");
                     Term (mkTerm None (DQ ++ "c" ++ DQ))]) =
    Ok [Term (mkTerm None (DQ ++ " b " ++ DQ));
        Term (mkTerm None (DQ ++ "a" ++ DQ ++ " b " ++ DQ ++ "c" ++ DQ))] /\
  deparse (assemble [Term (mkTerm None "a/b"); Term (mkTerm None "c/d")]) =
    Ok [Term (mkTerm None "a/b c/d")] /\
  deparse (assemble [Term (mkTerm None "a\:"); Term (mkTerm None "b")]) =
    Ok [Term (mkTerm None "a\:b")] /\
  deparse (assemble [Term (mkTerm None (DQ ++ "x y" ++ DQ ++ "e"));
                     Term (mkTerm None ("f" ++ DQ ++ "e f" ++ DQ))]) =
    Ok [Term (mkTerm None (DQ ++ "x y" ++ DQ ++ "e f" ++ DQ ++ "e"));
        Term (mkTerm None ("f" ++ DQ))].
Proof. vm_compute. repeat split; reflexivity. Qed.
